(** * django-socio-grpc: the proto registry ([utils/registry_singleton.py])

    A shallow embedding of [RegistrySingleton]: the type vocabulary, the
    field resolver, the message registrar, the naming rules, the
    conventional method builder and the custom action builder, followed by
    the properties of the registry they maintain.

    Python objects are modelled by the attributes the module reads.  The
    registry ([self.registered_app]) is threaded explicitly; an exception
    leaves the mutations done before it in place, as in Python, so every
    operation returns the registry together with either a value or the
    exception raised.  The insertion order of the (ordered) dictionaries is
    not modelled; the order of a message's field list is. *)

From stdpp Require Import gmap strings list fin_maps.
From Stdlib Require Import Ascii String.

(** ** Python string operations used by the module *)

Module PyStr.

(** [s.startswith(p)] *)
Definition startswith (p s : string) : bool := String.prefix p s.

(** [s[n:]] for [n >= 0] *)
Fixpoint drop (n : nat) (s : string) : string :=
  match n, s with
  | O, _ => s
  | S n', String _ s' => drop n' s'
  | S _, EmptyString => EmptyString
  end.

(** [s[:n]] for [n >= 0] *)
Fixpoint take (n : nat) (s : string) : string :=
  match n, s with
  | O, _ => EmptyString
  | S n', String c s' => String c (take n' s')
  | S _, EmptyString => EmptyString
  end.

(** [s.endswith(suf)] *)
Definition endswith (suf s : string) : bool :=
  bool_decide (String.length suf ≤ String.length s)
  && String.eqb (drop (String.length s - String.length suf) s) suf.

(** [sub in s] *)
Fixpoint contains (sub s : string) : bool :=
  startswith sub s
  || match s with
     | EmptyString => false
     | String _ s' => contains sub s'
     end.

(** [s[:-n]]: Python reads [-0] as [0], so [s[:-0]] is the empty string. *)
Definition slice_until_neg (n : nat) (s : string) : string :=
  match n with
  | O => EmptyString
  | S _ => take (String.length s - n) s
  end.

(** [s[-n:]]: [s[-0:]] is [s[0:]], the whole string. *)
Definition slice_from_neg (n : nat) (s : string) : string :=
  match n with
  | O => s
  | S _ => drop (String.length s - n) s
  end.

(** [s.split(".")[0]] *)
Fixpoint before_dot (s : string) : string :=
  match s with
  | EmptyString => EmptyString
  | String c s' => if Ascii.eqb c "."%char then EmptyString else String c (before_dot s')
  end.

(** Replaces the rightmost occurrence of [old] in [s], if there is one. *)
Fixpoint replace_last (old new s : string) : option string :=
  match s with
  | EmptyString => if startswith old s then Some new else None
  | String c s' =>
      match replace_last old new s' with
      | Some r => Some (String c r)
      | None =>
          if startswith old s then Some (new +:+ drop (String.length old) s) else None
      end
  end.

(** Modelled from the spec: [rreplace] of [django_socio_grpc/utils/tools.py],
    which is not among the sources; the naming rule strips the recognised
    suffix "once, from the right".  The module only calls it with an
    occurrence count of 1, which is the count modelled. *)
Definition rreplace (s old new : string) : string :=
  default s (replace_last old new s).

(** [sub] occurs in [s]. *)
Definition mentions (s sub : string) : Prop :=
  ∃ before after, s = before +:+ sub +:+ after.

End PyStr.

(** ** Exceptions and results *)

Inductive exn :=
| RegisterServiceException (msg : string)
| AttributeError (attribute : string)
| KeyError (key : string).

Inductive result (A : Type) :=
| Ok (a : A)
| Raise (e : exn).
Arguments Ok {A} a.
Arguments Raise {A} e.

(** ** Module constants *)

Definition DEFAULT_LIST_FIELD_NAME := "results".
Definition REQUEST_SUFFIX := "Request".
Definition RESPONSE_SUFFIX := "Response".

Module KnowMethods.
Definition LIST := "List".
Definition CREATE := "Create".
Definition RETRIEVE := "Retrieve".
Definition UPDATE := "Update".
Definition PARTIAL_UPDATE := "PartialUpdate".
Definition DESTROY := "Destroy".
Definition STREAM := "Stream".

Definition get_as_list : list string :=
  [LIST; CREATE; RETRIEVE; UPDATE; PARTIAL_UPDATE; DESTROY; STREAM].

Definition get_methods_no_custom_messages : list string :=
  [CREATE; UPDATE; PARTIAL_UPDATE].

Definition get_methods_no_stream : list string :=
  [LIST; CREATE; RETRIEVE; UPDATE; PARTIAL_UPDATE; DESTROY].
End KnowMethods.

(** ** The collaborators, as far as the registry reads them *)

(** [grpc_settings], and whether the installed Django has
    [PositiveBigIntegerField] (the second [try] of the class body). *)
Record settings := {
  SEPARATE_READ_WRITE_MODEL : bool;
  DEFAULT_PAGINATION_CLASS : option string;
  django_has_PositiveBigIntegerField : bool
}.

(** The framework classes the module tests with [issubclass]. *)
Inductive drf_class :=
| HiddenField | ReadOnlyField | ListProtoSerializer | BaseProtoSerializer
| SlugRelatedField | ManyRelatedField | RelatedField | ListSerializer
| ModelField | ListField | DictField | BaseSerializer | SerializerMethodField.

#[global] Instance drf_class_eq_dec : EqDecision drf_class.
Proof. solve_decision. Defined.

(** A class: its [__name__] and the framework classes it derives from. *)
Record pyclass := {
  cls_name : string;
  cls_bases : list drf_class
}.

Definition issubclass (c : pyclass) (b : drf_class) : bool :=
  bool_decide (b ∈ cls_bases c).

(** The return annotations [get_proto_type_from_inspect] knows, and the others. *)
Inductive py_type :=
| py_int | py_str | py_bool | py_float | py_list | py_dict | py_bytes
| typing_List | typing_Dict
| List_int | List_str | List_bool | List_Tuple | List_Dict
| py_other (name : string).

(** An attribute found by [getattr(serializer_instance, method_name, None)]:
    its [__annotations__] has a ["return"] key or not. *)
Record method := {
  return_annotation : option py_type
}.

(** One entry of [get_field_info(model).relationships]: the attributes of
    the related model that [getattr] finds and that are not [None], each
    with the class name of its [field] when it has one ([None] for an
    attribute without a [field], such as the [pk] property); and [to_many]. *)
Record relation_info := {
  related_model_fields : gmap string (option string);
  to_many : bool
}.

(** A Django model: its primary key ([model_meta.get_model_pk]) and its
    relationships. *)
Record model := {
  pk_name : string;
  pk_class : string;
  relationships : gmap string relation_info
}.

(** A serializer's [Meta]: [model] is absent or a model class. *)
Record meta := {
  meta_model : option model;
  message_list_attr : option string
}.

(** The attributes of a field or serializer instance that hold no field.
    [None] stands for an attribute that is missing, or is [None] where the
    module tests it for truth ([method_name]).  Only some relations have a
    [pk_field] attribute ([PrimaryKeyRelatedField] has, the other related
    fields of the framework have not): [pk_field] is [None] when the
    instance has no such attribute, [Some None] when the attribute is [None],
    and [Some (Some c)] when it is a field of class [c]. *)
Record attrs := {
  read_only : bool;
  write_only : bool;
  pk_field : option (option pyclass);
  queryset_model : option model;
  model_field : option pyclass;
  slug_field : option string;
  method_name : option string;
  Meta : option meta;
  methods : gmap string method
}.

(** What [get_fields()] may hold: a [str] naming a proto type, or a field
    (serializers are fields), with its [child], its [child_relation] and,
    for a serializer, its declared fields in order. *)
#[warning="-register-all"] Inductive field :=
| PyStrField (s : string)
| PyField (cls : pyclass) (a : attrs)
          (child : option field) (child_relation : option field)
          (declared : list (string * field)).

Definition field_class (f : field) : pyclass :=
  match f with
  | PyStrField _ => {| cls_name := "str"; cls_bases := [] |}
  | PyField cls _ _ _ _ => cls
  end.

Definition class_name (f : field) : string := cls_name (field_class f).

(** [serializer_instance.get_fields()] *)
Definition get_fields (f : field) : result (list (string * field)) :=
  match f with
  | PyStrField _ => Raise (AttributeError "get_fields")
  | PyField _ _ _ _ declared => Ok declared
  end.

(** Binding the fields to their serializer, in order: what is not a field
    (a [str]) has no [bind]. *)
Fixpoint bind_fields (fields : list (string * field))
    : result (list (string * field)) :=
  match fields with
  | [] => Ok []
  | (_, PyStrField _) :: _ => Raise (AttributeError "bind")
  | (name, bound) :: rest =>
      match bind_fields rest with
      | Ok bound_fields => Ok ((name, bound) :: bound_fields)
      | Raise e => Raise e
      end
  end.

(** [serializer_instance.fields]: the property of the framework's
    serializers, which binds each field of [get_fields()] to the serializer
    as it stores it. *)
Definition serializer_fields (f : field) : result (list (string * field)) :=
  match f with
  | PyStrField _ => Raise (AttributeError "fields")
  | PyField _ _ _ _ declared => bind_fields declared
  end.

Definition field_Meta (f : field) : option meta :=
  match f with
  | PyStrField _ => None
  | PyField _ a _ _ _ => Meta a
  end.

Definition field_methods (f : field) : gmap string method :=
  match f with
  | PyStrField _ => ∅
  | PyField _ a _ _ _ => methods a
  end.

(** A service instance.  [get_serializer_class] is read after
    [service_instance.action] is set, so it is a function of the action;
    the class is given by the instance its call produces. *)
Record service := {
  service_module : string;
  get_service_name : string;
  service_methods : list string;
  get_serializer_class : string → field;
  get_lookup_request_field : string;
  pagination_class : option string
}.

(** ** The registry *)

Record method_side := {
  is_stream : bool;
  message : string
}.

Record method_entry := {
  request : method_side;
  response : method_side
}.

Record app_entry := {
  registered_controllers : gmap string (gmap string method_entry);
  registered_messages : gmap string (list (string * string))
}.

Abbreviation registry := (gmap string app_entry).

(** A registry operation. *)
Definition M (A : Type) : Type := registry → registry * result A.

Definition ret {A} (a : A) : M A := fun reg => (reg, Ok a).

Definition raise {A} (e : exn) : M A := fun reg => (reg, Raise e).

Definition bind {A B} (m : M A) (k : A → M B) : M B :=
  fun reg =>
    match m reg with
    | (reg', Ok a) => k a reg'
    | (reg', Raise e) => (reg', Raise e)
    end.

Notation "x <- m ;; k" := (bind m (fun x => k))
  (at level 100, m at next level, right associativity).
Notation "m ;;; k" := (bind m (fun _ => k))
  (at level 100, right associativity).

(** [self.registered_app[app_name]] *)
Definition get_app (app_name : string) : M app_entry :=
  fun reg =>
    match reg !! app_name with
    | Some a => (reg, Ok a)
    | None => (reg, Raise (KeyError app_name))
    end.

(** [app_name in self.registered_app] *)
Definition has_app (app_name : string) : M bool :=
  fun reg => (reg, Ok (bool_decide (is_Some (reg !! app_name)))).

(** [self.registered_app[app_name] = {...}] with two empty dictionaries *)
Definition init_app (app_name : string) : M unit :=
  fun reg =>
    (<[app_name := {| registered_controllers := ∅; registered_messages := ∅ |}]> reg,
     Ok tt).

(** [self.registered_app[app_name]["registered_messages"][message_name] = fields] *)
Definition set_message (app_name message_name : string)
    (fields : list (string * string)) : M unit :=
  a <- get_app app_name ;;
  fun reg =>
    (<[app_name := {| registered_controllers := registered_controllers a;
                      registered_messages :=
                        <[message_name := fields]> (registered_messages a) |}]> reg,
     Ok tt).

(** [self.registered_app[app_name]["registered_messages"][message_name].append(item)] *)
Definition append_to_message (app_name message_name : string)
    (item : string * string) : M unit :=
  a <- get_app app_name ;;
  match registered_messages a !! message_name with
  | None => raise (KeyError message_name)
  | Some fields => set_message app_name message_name (fields ++ [item])
  end.

(** [self.registered_app[app_name]["registered_controllers"][controller_name] = methods] *)
Definition set_controller (app_name controller_name : string)
    (entries : gmap string method_entry) : M unit :=
  a <- get_app app_name ;;
  fun reg =>
    (<[app_name := {| registered_controllers :=
                        <[controller_name := entries]> (registered_controllers a);
                      registered_messages := registered_messages a |}]> reg,
     Ok tt).

(** [self.registered_app[app_name]["registered_controllers"][controller_name]] *)
Definition get_controller (app_name controller_name : string)
    : M (gmap string method_entry) :=
  a <- get_app app_name ;;
  match registered_controllers a !! controller_name with
  | None => raise (KeyError controller_name)
  | Some c => ret c
  end.

(** [self.registered_app[app_name]["registered_controllers"][controller_name][method] = entry] *)
Definition set_method (app_name controller_name method_name : string)
    (entry : method_entry) : M unit :=
  c <- get_controller app_name controller_name ;;
  set_controller app_name controller_name (<[method_name := entry]> c).

(** A computation that reads no registry. *)
Definition lift {A} (r : result A) : M A := fun reg => (reg, r).

(** ** RegistrySingleton *)

Section RegistrySingleton.

Context (grpc_settings : settings).

(** The class attribute [type_mapping], after the two [try] blocks. *)
Definition type_mapping : gmap string string :=
  let declared : gmap string string :=
    list_to_map
      [ ("AutoField", "int32"); ("SmallIntegerField", "int32");
        ("IntegerField", "int32"); ("BigIntegerField", "int64");
        ("PositiveSmallIntegerField", "int32"); ("PositiveIntegerField", "int32");
        ("FloatField", "float"); ("DecimalField", "double");
        ("BooleanField", "bool"); ("NullBooleanField", "bool");
        ("DateField", "string"); ("TimeField", "string");
        ("DateTimeField", "string"); ("DurationField", "string");
        ("CharField", "string"); ("TextField", "string");
        ("EmailField", "string"); ("SlugField", "string");
        ("URLField", "string"); ("UUIDField", "string");
        ("GenericIPAddressField", "string"); ("FilePathField", "string");
        ("BinaryField", "bytes");
        ("Field", "string") ] in
  let with_json := <["JSONField" := "google.protobuf.Struct"]> declared in
  if django_has_PositiveBigIntegerField grpc_settings
  then <["PositiveBigIntegerField" := "int64"]> with_json
  else with_json.

(** [self.type_mapping.get(name, fallback)] *)
Definition type_mapping_get (name fallback : string) : string :=
  default fallback (type_mapping !! name).

Definition field_type_is_read_only (field_type : field) : result bool :=
  match field_type with
  | PyStrField _ => Raise (AttributeError "read_only")
  | PyField cls a _ _ _ =>
      if issubclass cls ReadOnlyField then Ok true else Ok (read_only a)
  end.

Definition field_type_is_write_only (field_type : field) : result bool :=
  match field_type with
  | PyStrField _ => Raise (AttributeError "write_only")
  | PyField _ a _ _ _ => Ok (write_only a)
  end.

Definition get_message_name_from_field_or_serializer_instance
    (class_or_field_instance : field) (is_request append_type : bool) : string :=
  let class_name := class_name class_or_field_instance in
  let message_name :=
    if PyStr.contains "ProtoSerializer" class_name
    then PyStr.rreplace class_name "ProtoSerializer" ""
    else if PyStr.contains "Serializer" class_name
    then PyStr.rreplace class_name "Serializer" ""
    else class_name in
  if SEPARATE_READ_WRITE_MODEL grpc_settings && append_type
  then message_name +:+ (if is_request then REQUEST_SUFFIX else RESPONSE_SUFFIX)
  else message_name.

Definition missing_return_annotation (serializer_class field_name : string) : string :=
  "You are trying to register the serializer " +:+ serializer_class
  +:+ " with a SerializerMethodField on the field " +:+ field_name
  +:+ ". But the method associated does'nt have a return annotations. Please look at the example: https://github.com/socotecio/django-socio-grpc/blob/master/django_socio_grpc/tests/fakeapp/serializers.py#L83. And the python doc: https://docs.python.org/3.8/library/typing.html".

(** The dictionary [python_type_to_proto_type]; a key it lacks is a [KeyError]. *)
Definition python_type_to_proto_type (t : py_type) : result string :=
  match t with
  | py_int => Ok "int32"
  | py_str => Ok "string"
  | py_bool => Ok "bool"
  | py_float => Ok "float"
  | py_list => Ok "repeated string"
  | py_dict => Ok "google.protobuf.Struct"
  | py_bytes => Ok "bytes"
  | typing_List => Ok "repeated string"
  | typing_Dict => Ok "google.protobuf.Struct"
  | List_int => Ok "repeated int32"
  | List_str => Ok "repeated string"
  | List_bool => Ok "repeated bool"
  | List_Tuple => Ok "repeated google.protobuf.Struct"
  | List_Dict => Ok "repeated google.protobuf.Struct"
  | py_other name => Raise (KeyError name)
  end.

Definition get_proto_type_from_inspect
    (field_type : field) (field_name : string) (serializer_instance : field)
    : result string :=
  match field_type with
  | PyStrField _ => Raise (AttributeError "method_name")
  | PyField _ a _ _ _ =>
      let method_name :=
        match method_name a with
        | None => "get_" +:+ field_name
        | Some n => n
        end in
      match field_methods serializer_instance !! method_name with
      | None => Ok "string"
      | Some method =>
          match return_annotation method with
          | None =>
              Raise (RegisterServiceException
                       (missing_return_annotation (class_name serializer_instance) field_name))
          | Some t => python_type_to_proto_type t
          end
      end
  end.

Definition get_pk_from_related_field (related_field : field) : result string :=
  match related_field with
  | PyStrField _ => Raise (AttributeError "pk_field")
  | PyField _ a _ _ _ =>
      match pk_field a with
      | None => Raise (AttributeError "pk_field")
      | Some (Some pk) => Ok (type_mapping_get (cls_name pk) "related_not_found")
      | Some None =>
          match queryset_model a with
          | None => Raise (AttributeError "model")
          | Some m => Ok (type_mapping_get (pk_class m) "related_not_found")
          end
      end
  end.

(** The [print]s of the three degraded cases are not modelled. *)
Definition get_pk_from_slug_related_field
    (slug_related_field : field) (field_name : string) (serializer_instance : field)
    : result string :=
  match field_Meta serializer_instance with
  | None => Raise (AttributeError "Meta")
  | Some serializer_meta =>
      match meta_model serializer_meta with
      | None => Ok "string"
      | Some m =>
          match relationships m !! field_name with
          | None => Ok "string"
          | Some relation =>
              match slug_related_field with
              | PyStrField _ => Raise (AttributeError "slug_field")
              | PyField _ a _ _ _ =>
                  match slug_field a with
                  | None => Raise (AttributeError "slug_field")
                  | Some slug =>
                      match related_model_fields relation !! slug with
                      | None => Ok "string"
                      | Some None => Raise (AttributeError "field")
                      | Some (Some slug_field_class_name) =>
                          let proto_type :=
                            type_mapping_get slug_field_class_name
                                             "slug_field type not found" in
                          Ok (if to_many relation
                              then "repeated " +:+ proto_type
                              else proto_type)
                      end
                  end
              end
          end
      end
  end.

(** The name of the primary key of [serializer_instance.Meta.model], when
    [Meta] has a model. *)
Definition serializer_pk_name (serializer_instance : field) : result (option string) :=
  match field_Meta serializer_instance with
  | None => Raise (AttributeError "Meta")
  | Some serializer_meta => Ok (pk_name <$> meta_model serializer_meta)
  end.

(** The two [continue] tests on read-only and write-only fields. *)
Definition field_is_filtered
    (pk_name : option string) (is_request : bool)
    (field_name : string) (field_type : field) : result bool :=
  if SEPARATE_READ_WRITE_MODEL grpc_settings
     && negb (bool_decide (pk_name = Some field_name))
  then
    if is_request then field_type_is_read_only field_type
    else field_type_is_write_only field_type
  else Ok false.

(** The registrar, with the resolver it calls back left open. *)
Section Registrar.

Variable resolve : string → field → string → field → bool → M string.

(** The [for] loop over [serializer_instance.get_fields().items()]. *)
Fixpoint register_fields
    (app_name message_name : string) (pk_name : option string)
    (serializer_instance : field) (is_request : bool)
    (fields : list (string * field)) {struct fields} : M unit :=
  match fields with
  | [] => ret tt
  | (field_name, field_type) :: rest =>
      if issubclass (field_class field_type) HiddenField
      then register_fields app_name message_name pk_name serializer_instance
                           is_request rest
      else
        skip <- lift (field_is_filtered pk_name is_request field_name field_type) ;;
        if (skip : bool)
        then register_fields app_name message_name pk_name serializer_instance
                             is_request rest
        else
          proto_type <- resolve app_name field_type field_name
                                serializer_instance is_request ;;
          append_to_message app_name message_name (field_name, proto_type) ;;;
          register_fields app_name message_name pk_name serializer_instance
                          is_request rest
  end.

Definition register_serializer_with
    (app_name : string) (serializer_instance : field)
    (message_name : option string) (is_request : bool) : M string :=
  let message_name :=
    match message_name with
    | None => get_message_name_from_field_or_serializer_instance
                serializer_instance is_request true
    | Some name => name
    end in
  pk_name <- lift (serializer_pk_name serializer_instance) ;;
  a <- get_app app_name ;;
  if bool_decide (is_Some (registered_messages a !! message_name))
  then ret message_name
  else
    set_message app_name message_name [] ;;;
    match serializer_instance with
    | PyStrField _ => raise (AttributeError "get_fields")
    | PyField _ _ _ _ declared =>
        register_fields app_name message_name pk_name serializer_instance
                        is_request declared ;;;
        ret message_name
    end.

End Registrar.

Fixpoint get_proto_type
    (app_name : string) (field_type : field) (field_name : string)
    (serializer_instance : field) (is_request : bool) {struct field_type}
    : M string :=
  match field_type with
  | PyStrField s => ret s
  | PyField cls a child child_relation _ =>
      if issubclass cls ListProtoSerializer then
        match child with
        | None => raise (AttributeError "child")
        | Some child =>
            let proto_type :=
              "repeated " +:+ get_message_name_from_field_or_serializer_instance
                                child is_request true in
            register_serializer_with
              (fun app f name ser req => get_proto_type app f name ser req)
              app_name child None is_request ;;;
            ret proto_type
        end
      else if issubclass cls BaseProtoSerializer then
        let proto_type :=
          get_message_name_from_field_or_serializer_instance
            field_type is_request true in
        register_serializer_with
          (fun app f name ser req => get_proto_type app f name ser req)
          app_name field_type None is_request ;;;
        ret proto_type
      else if issubclass cls SlugRelatedField then
        lift (get_pk_from_slug_related_field field_type field_name serializer_instance)
      else if issubclass cls ManyRelatedField then
        match child_relation with
        | None => raise (AttributeError "child_relation")
        | Some child_relation =>
            child_proto_type <- get_proto_type app_name child_relation field_name
                                               serializer_instance is_request ;;
            let child_proto_type :=
              if PyStr.startswith "repeated " child_proto_type
              then PyStr.drop 9 child_proto_type
              else child_proto_type in
            ret ("repeated " +:+ child_proto_type)
        end
      else if issubclass cls RelatedField then
        lift (get_pk_from_related_field field_type)
      else if issubclass cls ListSerializer then
        ret "repeated google.protobuf.Struct"
      else if issubclass cls ModelField then
        match model_field a with
        | None => raise (AttributeError "model_field")
        | Some model_field => ret (type_mapping_get (cls_name model_field) "string")
        end
      else if issubclass cls ListField then
        match child with
        | None => raise (AttributeError "child")
        | Some child =>
            let child_type := type_mapping_get (class_name child) "string" in
            ret ("repeated " +:+ child_type)
        end
      else if issubclass cls DictField then
        ret "google.protobuf.Struct"
      else if issubclass cls BaseSerializer then
        ret "google.protobuf.Struct"
      else if issubclass cls SerializerMethodField then
        lift (get_proto_type_from_inspect field_type field_name serializer_instance)
      else
        ret (type_mapping_get (cls_name cls) "string")
  end.

Definition register_serializer_as_message_if_not_exist
    (app_name : string) (serializer_instance : field)
    (message_name : option string) (is_request : bool) : M string :=
  register_serializer_with get_proto_type
    app_name serializer_instance message_name is_request.

(** [service_instance.pagination_class], else whether the settings have a
    default pagination class: the truth of [pagination]. *)
Definition pagination_enabled (service_instance : service) : bool :=
  match pagination_class service_instance with
  | Some _ => true
  | None => bool_decide (is_Some (DEFAULT_PAGINATION_CLASS grpc_settings))
  end.

(** The name computed by the [if message_name:] block. *)
Definition list_message_name
    (base_name : string) (message_name : option string) (is_request : bool) : string :=
  match message_name with
  | Some (String _ _ as message_name) =>
      if SEPARATE_READ_WRITE_MODEL grpc_settings then
        let suffix_len :=
          if is_request && PyStr.endswith REQUEST_SUFFIX message_name
          then String.length REQUEST_SUFFIX
          else if negb is_request && PyStr.endswith RESPONSE_SUFFIX message_name
          then String.length RESPONSE_SUFFIX
          else 0 in
        PyStr.slice_until_neg suffix_len message_name
        +:+ "List" +:+ PyStr.slice_from_neg suffix_len message_name
      else message_name +:+ "List"
  | _ => base_name +:+ "List" +:+ RESPONSE_SUFFIX
  end.

Definition register_list_message_of_serializer
    (app_name : string) (service_instance : service)
    (base_name list_response_field_name child_response_message_name : string)
    (message_name : option string) (is_request : bool) : M string :=
  let pagination := pagination_enabled service_instance in
  let response_fields :=
    [(list_response_field_name, "repeated " +:+ child_response_message_name)]
    ++ (if pagination then [("count", "int32")] else []) in
  let response_message_name := list_message_name base_name message_name is_request in
  set_message app_name response_message_name response_fields ;;;
  ret response_message_name.

Definition get_list_response_field_name_from_serializer_instance
    (serializer_instance : field) : string :=
  match field_Meta serializer_instance with
  | Some serializer_meta =>
      match message_list_attr serializer_meta with
      | Some (String _ _ as message_list_attr) => message_list_attr
      | _ => DEFAULT_LIST_FIELD_NAME
      end
  | None => DEFAULT_LIST_FIELD_NAME
  end.

(** *** Default registration (known methods, no decorator) *)

Definition unsupported_method (method : string) : string :=
  "You are registering a service with the method " +:+ method
  +:+ " but this methods does not have a decorator and is not in our default supported methods: ['List', 'Create', 'Retrieve', 'Update', 'PartialUpdate', 'Destroy', 'Stream']".

Definition register_default_method
    (app_name controller_name method request_message_name response_message_name : string)
    : M unit :=
  if bool_decide (method ∈ KnowMethods.get_methods_no_stream) then
    set_method app_name controller_name method
      {| request := {| is_stream := false; message := request_message_name |};
         response := {| is_stream := false; message := response_message_name |} |}
  else if bool_decide (method = KnowMethods.STREAM) then
    set_method app_name controller_name method
      {| request := {| is_stream := false; message := request_message_name |};
         response := {| is_stream := true; message := response_message_name |} |}
  else raise (RegisterServiceException (unsupported_method method)).

Definition get_serializer_instance_with_method
    (service_instance : service) (method : string) : field :=
  get_serializer_class service_instance method.

Definition lookup_field_missing (field_name serializer_class : string) : string :=
  "Trying to build a Retrieve or Destroy request with retrieve field named: "
  +:+ field_name +:+ " but this field is not existing in the serializer: "
  +:+ serializer_class.

(** [serializer_instance.fields[field_name]], the first declaration of the name. *)
Fixpoint fields_lookup (field_name : string) (fields : list (string * field))
    : option field :=
  match fields with
  | [] => None
  | (name, declared_field) :: rest =>
      if bool_decide (name = field_name) then Some declared_field
      else fields_lookup field_name rest
  end.

Definition get_lookup_field_from_serializer
    (serializer_instance : field) (service_instance : service)
    (field_name : option string) : result (string * string) :=
  let field_name :=
    match field_name with
    | None => get_lookup_request_field service_instance
    | Some name => name
    end in
  match serializer_fields serializer_instance with
  | Raise e => Raise e
  | Ok fields =>
      match fields_lookup field_name fields with
      | None =>
          Raise (RegisterServiceException
                   (lookup_field_missing field_name (class_name serializer_instance)))
      | Some lookup_field =>
          Ok (field_name,
              type_mapping_get (class_name lookup_field) "lookup_field_type_not_found")
      end
  end.

Definition register_list_serializer_as_message
    (app_name : string) (service_instance : service) (serializer_instance : field)
    : M (string * string) :=
  let serializer_name :=
    get_message_name_from_field_or_serializer_instance serializer_instance false false in
  child_response_message_name <-
    register_serializer_as_message_if_not_exist app_name serializer_instance None false ;;
  let list_response_field_name :=
    get_list_response_field_name_from_serializer_instance serializer_instance in
  let request_message_name := serializer_name +:+ "List" +:+ REQUEST_SUFFIX in
  set_message app_name request_message_name [] ;;;
  response_message_name <-
    register_list_message_of_serializer app_name service_instance serializer_name
      list_response_field_name child_response_message_name None false ;;
  ret (request_message_name, response_message_name).

Definition register_retrieve_serializer_as_message
    (app_name : string) (service_instance : service) (serializer_instance : field)
    (retrieve_field_name : option string) : M (string * string) :=
  retrieve_field <-
    lift (get_lookup_field_from_serializer serializer_instance service_instance
                                           retrieve_field_name) ;;
  let serializer_name :=
    get_message_name_from_field_or_serializer_instance serializer_instance false false in
  let request_message_name := serializer_name +:+ "Retrieve" +:+ REQUEST_SUFFIX in
  set_message app_name request_message_name [retrieve_field] ;;;
  response_message_name <-
    register_serializer_as_message_if_not_exist app_name serializer_instance None false ;;
  ret (request_message_name, response_message_name).

Definition register_destroy_serializer_as_message
    (app_name : string) (service_instance : service) (serializer_instance : field)
    (destroy_field_name : option string) : M (string * string) :=
  destroy_field <-
    lift (get_lookup_field_from_serializer serializer_instance service_instance
                                           destroy_field_name) ;;
  let serializer_name :=
    get_message_name_from_field_or_serializer_instance serializer_instance false false in
  let request_message_name := serializer_name +:+ "Destroy" +:+ REQUEST_SUFFIX in
  set_message app_name request_message_name [destroy_field] ;;;
  ret (request_message_name, "google.protobuf.Empty").

Definition register_stream_serializer_as_message
    (app_name : string) (serializer_instance : field) : M (string * string) :=
  let serializer_name :=
    get_message_name_from_field_or_serializer_instance serializer_instance false false in
  let request_message_name := serializer_name +:+ "Stream" +:+ REQUEST_SUFFIX in
  set_message app_name request_message_name [] ;;;
  response_message_name <-
    register_serializer_as_message_if_not_exist app_name serializer_instance None false ;;
  ret (request_message_name, response_message_name).

Definition register_default_message_from_method
    (app_name method : string) (service_instance : service) : M (string * string) :=
  let serializer_instance :=
    get_serializer_instance_with_method service_instance method in
  if bool_decide (method ∈ KnowMethods.get_methods_no_custom_messages) then
    request_message_name <-
      register_serializer_as_message_if_not_exist app_name serializer_instance None true ;;
    response_message_name <-
      register_serializer_as_message_if_not_exist app_name serializer_instance None false ;;
    ret (request_message_name, response_message_name)
  else if bool_decide (method = KnowMethods.LIST) then
    register_list_serializer_as_message app_name service_instance serializer_instance
  else if bool_decide (method = KnowMethods.RETRIEVE) then
    register_retrieve_serializer_as_message app_name service_instance
                                            serializer_instance None
  else if bool_decide (method = KnowMethods.DESTROY) then
    register_destroy_serializer_as_message app_name service_instance
                                           serializer_instance None
  else if bool_decide (method = KnowMethods.STREAM) then
    register_stream_serializer_as_message app_name serializer_instance
  else raise (RegisterServiceException (unsupported_method method)).

(** The body of the [for method in KnowMethods.get_as_list()] loop. *)
Definition register_known_method
    (app_name controller_name : string) (service_instance : service)
    (method : string) : M unit :=
  if negb (bool_decide (method ∈ service_methods service_instance)) then ret tt
  else
    controller <- get_controller app_name controller_name ;;
    if bool_decide (is_Some (controller !! method)) then ret tt
    else
      names <- register_default_message_from_method app_name method service_instance ;;
      register_default_method app_name controller_name method names.1 names.2.

Fixpoint for_each {A} (body : A → M unit) (items : list A) : M unit :=
  match items with
  | [] => ret tt
  | item :: rest => body item ;;; for_each body rest
  end.

Definition set_controller_and_messages
    (app_name : string) (service_instance : service) : M unit :=
  let service_name := get_service_name service_instance in
  let controller_name := service_name +:+ "Controller" in
  a <- get_app app_name ;;
  (if bool_decide (is_Some (registered_controllers a !! controller_name))
   then ret tt
   else set_controller app_name controller_name ∅) ;;;
  for_each (register_known_method app_name controller_name service_instance)
           KnowMethods.get_as_list.

(** [service_class] is given by the instance [service_class()] makes. *)
Definition register_service (app_name : string) (service_class : service) : M unit :=
  let service_instance := service_class in
  registered <- has_app app_name ;;
  (if (registered : bool) then ret tt else init_app app_name) ;;;
  set_controller_and_messages app_name service_instance.

(** *** Decorator registration *)

(** The [request] or [response] argument of a custom action: a list of
    [{"name": ..., "type": ...}] items, a [str], a serializer class (given
    by the instance [message()] makes), or anything else ([None] included). *)
Inductive message_spec :=
| SpecList (items : list (string * string))
| SpecStr (name : string)
| SpecSerializer (serializer_instance : field)
| SpecOther.

Definition is_special_protobuf_message (message_name : string) : bool :=
  PyStr.startswith "google.protobuf" message_name.

Definition get_app_name_from_service_class (service_class : service) : string :=
  PyStr.before_dot (service_module service_class).

Definition get_base_name_for_list_message
    (service_name function_name message_name : string) (is_request : bool) : string :=
  let suffix := if is_request then REQUEST_SUFFIX else RESPONSE_SUFFIX in
  let list_suffix := "List" +:+ suffix in
  if is_special_protobuf_message message_name then
    if bool_decide (function_name = KnowMethods.LIST) then service_name
    else service_name +:+ function_name
  else if bool_decide (function_name = KnowMethods.LIST)
          && PyStr.contains list_suffix message_name
  then PyStr.rreplace message_name list_suffix ""
  else PyStr.rreplace message_name suffix "".

Definition unsupported_message (is_request : bool) (function_name app_name : string)
    : string :=
  (if is_request then REQUEST_SUFFIX else RESPONSE_SUFFIX)
  +:+ " message for function " +:+ function_name +:+ " in app " +:+ app_name
  +:+ " is not a list, a serializer or a string".

Definition register_message_for_custom_action
    (app_name service_name function_name : string) (message : message_spec)
    (is_request : bool) (message_name : option string) : M (string * string) :=
  match message with
  | SpecList [] => ret ("google.protobuf.Empty", DEFAULT_LIST_FIELD_NAME)
  | SpecList messages_fields =>
      let message_name :=
        match message_name with
        | None => service_name +:+ function_name
                  +:+ (if is_request then REQUEST_SUFFIX else RESPONSE_SUFFIX)
        | Some name => name
        end in
      set_message app_name message_name messages_fields ;;;
      ret (message_name, DEFAULT_LIST_FIELD_NAME)
  | SpecStr message => ret (message, DEFAULT_LIST_FIELD_NAME)
  | SpecSerializer serializer_instance =>
      let list_response_field_name :=
        get_list_response_field_name_from_serializer_instance serializer_instance in
      message_name <-
        register_serializer_as_message_if_not_exist app_name serializer_instance
                                                    message_name is_request ;;
      ret (message_name, list_response_field_name)
  | SpecOther =>
      raise (RegisterServiceException
               (unsupported_message is_request function_name app_name))
  end.

Definition register_method_for_custom_action
    (app_name service_name function_name request_message_name
     response_message_name : string) (request_stream response_stream : bool)
    : M unit :=
  let controller_name := service_name +:+ "Controller" in
  a <- get_app app_name ;;
  (if bool_decide (is_Some (registered_controllers a !! controller_name))
   then ret tt
   else set_controller app_name controller_name ∅) ;;;
  set_method app_name controller_name function_name
    {| request := {| is_stream := request_stream; message := request_message_name |};
       response := {| is_stream := response_stream; message := response_message_name |} |}.

Definition register_custom_action
    (service_class : service) (function_name : string)
    (request response : message_spec) (request_name response_name : option string)
    (request_stream response_stream use_request_list use_response_list : bool)
    : M unit :=
  let app_name := get_app_name_from_service_class service_class in
  registered <- has_app app_name ;;
  (if (registered : bool) then ret tt else init_app app_name) ;;;
  let service_instance := service_class in
  let service_name := get_service_name service_instance in
  registered_request <-
    register_message_for_custom_action app_name service_name function_name
                                       request true request_name ;;
  let '(request_message_name, list_response_field_name) := registered_request in
  request_message_name <-
    (if use_request_list then
       let base_name :=
         get_base_name_for_list_message service_name function_name
                                        request_message_name true in
       register_list_message_of_serializer app_name service_instance base_name
         list_response_field_name request_message_name request_name true
     else ret request_message_name) ;;
  registered_response <-
    register_message_for_custom_action app_name service_name function_name
                                       response false response_name ;;
  let '(response_message_name, list_response_field_name) := registered_response in
  response_message_name <-
    (if use_response_list then
       let base_name :=
         get_base_name_for_list_message service_name function_name
                                        response_message_name false in
       register_list_message_of_serializer app_name service_instance base_name
         list_response_field_name response_message_name response_name false
     else ret response_message_name) ;;
  let response_message_name :=
    match response_name with
    | Some (String _ _ as response_name) => response_name
    | _ => response_message_name
    end in
  register_method_for_custom_action app_name service_name function_name
    request_message_name response_message_name request_stream response_stream.

End RegistrySingleton.

(** ** Reading the registry *)

(** The field list stored under [message_name] in [app_name]. *)
Definition message_of (reg : registry) (app_name message_name : string)
    : option (list (string * string)) :=
  reg !! app_name ≫= fun a => registered_messages a !! message_name.

(** The controllers of [app_name]. *)
Definition controllers_of (reg : registry) (app_name : string)
    : option (gmap string (gmap string method_entry)) :=
  registered_controllers <$> reg !! app_name.

(** The method entry stored under [method] in a controller of [app_name]. *)
Definition method_of (reg : registry) (app_name controller_name method : string)
    : option method_entry :=
  reg !! app_name ≫= fun a =>
  registered_controllers a !! controller_name ≫= fun c => c !! method.

(** ** A small project, for the examples *)

Module Example.

Definition cfg : settings :=
  {| SEPARATE_READ_WRITE_MODEL := true;
     DEFAULT_PAGINATION_CLASS := None;
     django_has_PositiveBigIntegerField := true |}.

Definition field_attrs : attrs :=
  {| read_only := false; write_only := false; pk_field := None;
     queryset_model := None; model_field := None; slug_field := None;
     method_name := None; Meta := None; methods := ∅ |}.

(** A field without children, of the class [name] deriving from [bases]. *)
Definition leaf (name : string) (bases : list drf_class) : field :=
  PyField {| cls_name := name; cls_bases := bases |} field_attrs None None [].

Definition read_only_attrs : attrs :=
  {| read_only := true; write_only := false; pk_field := None;
     queryset_model := None; model_field := None; slug_field := None;
     method_name := None; Meta := None; methods := ∅ |}.

(** The same with [read_only=True], as a [SerializerMethodField] always is. *)
Definition read_only_leaf (name : string) (bases : list drf_class) : field :=
  PyField {| cls_name := name; cls_bases := bases |} read_only_attrs None None [].

Definition serializer_attrs (accessors : gmap string method) : attrs :=
  {| read_only := false; write_only := false; pk_field := None;
     queryset_model := None; model_field := None; slug_field := None;
     method_name := None;
     Meta := Some {| meta_model := None; message_list_attr := None |};
     methods := accessors |}.

Definition widget_fields : list (string * field) :=
  [ ("name", leaf "CharField" []);
    ("total", read_only_leaf "SerializerMethodField" [SerializerMethodField]);
    ("size", leaf "IntegerField" []) ].

Definition widget_class : pyclass :=
  {| cls_name := "WidgetSerializer";
     cls_bases := [BaseProtoSerializer; BaseSerializer] |}.

(** [WidgetSerializer], whose [get_total] is annotated [-> int]. *)
Definition widget : field :=
  PyField widget_class
    (serializer_attrs {[ "get_total" := {| return_annotation := Some py_int |} ]})
    None None widget_fields.

(** The same serializer with [get_total] left without annotation. *)
Definition unannotated_widget : field :=
  PyField widget_class
    (serializer_attrs {[ "get_total" := {| return_annotation := None |} ]})
    None None widget_fields.

(** A registry where the app ["shop"] is registered and empty. *)
Definition shop : registry :=
  {[ "shop" := {| registered_controllers := ∅; registered_messages := ∅ |} ]}.

(** A service of the app ["shop"] with all the known methods, serialized
    by [WidgetSerializer], looked up by ["name"]. *)
Definition widget_service (pagination : option string) : service :=
  {| service_module := "shop.services";
     get_service_name := "Widget";
     service_methods := KnowMethods.get_as_list;
     get_serializer_class := fun _ => widget;
     get_lookup_request_field := "name";
     pagination_class := pagination |}.

(** The model of the tags. *)
Definition tag : model :=
  {| pk_name := "id"; pk_class := "AutoField"; relationships := ∅ |}.

(** A tag relation of a model, many to many, whose related model has a
    [label] that is a [CharField]. *)
Definition tagged : model :=
  {| pk_name := "id"; pk_class := "AutoField";
     relationships :=
       {[ "tags" := {| related_model_fields := {[ "label" := Some "CharField" ]};
                       to_many := true |} ]} |}.

Definition tagged_serializer : field :=
  PyField {| cls_name := "TaggedSerializer";
             cls_bases := [BaseProtoSerializer; BaseSerializer] |}
    {| read_only := false; write_only := false; pk_field := None;
       queryset_model := None; model_field := None; slug_field := None;
       method_name := None;
       Meta := Some {| meta_model := Some tagged; message_list_attr := None |};
       methods := ∅ |}
    None None [].

(** [SlugRelatedField(slug_field="label", many=True)]: a
    [ManyRelatedField] over the slug relation. *)
Definition many_tags : field :=
  PyField {| cls_name := "ManyRelatedField"; cls_bases := [ManyRelatedField] |}
    field_attrs None
    (Some (PyField {| cls_name := "SlugRelatedField";
                      cls_bases := [SlugRelatedField; RelatedField] |}
             {| read_only := false; write_only := false; pk_field := None;
                queryset_model := Some tag; model_field := None;
                slug_field := Some "label";
                method_name := None; Meta := None; methods := ∅ |}
             None None []))
    [].

End Example.

(** ** What the properties speak of *)

(** [s] holds a space.  A Python identifier, and so the name of a class
    written with a [class] statement, holds none. *)
Fixpoint has_space (s : string) : bool :=
  match s with
  | EmptyString => false
  | String c s' => Ascii.eqb c " "%char || has_space s'
  end.

(** [t] starts with at most one ["repeated "]. *)
Definition at_most_one_repeated (t : string) : bool :=
  negb (PyStr.startswith "repeated repeated " t).

(** [t] starts with exactly one ["repeated "]. *)
Definition exactly_one_repeated (t : string) : bool :=
  PyStr.startswith "repeated " t && at_most_one_repeated t.

(** What a registry operation on [app_name] keeps of the registry it
    starts from: the other apps, the controllers of [app_name], and the
    field list of every message of [app_name] registered before, the
    message [exempt] apart. *)
Definition kept (app_name : string) (exempt : option string)
    (reg reg' : registry) : Prop :=
  (∀ app, app ≠ app_name → reg' !! app = reg !! app)
  ∧ controllers_of reg' app_name = controllers_of reg app_name
  ∧ (∀ name fields,
        Some name ≠ exempt →
        message_of reg app_name name = Some fields →
        message_of reg' app_name name = Some fields).

(** The declared fields of a serializer. *)
Definition declared_fields (f : field) : list (string * field) :=
  match f with
  | PyStrField _ => []
  | PyField _ _ _ _ declared => declared
  end.

(** The name under which a serializer is registered. *)
Definition registered_name (cfg : settings) (serializer_instance : field)
    (message_name : option string) (is_request : bool) : string :=
  match message_name with
  | None => get_message_name_from_field_or_serializer_instance
              cfg serializer_instance is_request true
  | Some name => name
  end.

(** The declared fields that go into the message: neither hidden nor
    filtered out as read-only or write-only. *)
Definition retained (cfg : settings) (pk_name : option string) (is_request : bool)
    (item : string * field) : bool :=
  negb (issubclass (field_class item.2) HiddenField)
  && match field_is_filtered cfg pk_name is_request item.1 item.2 with
     | Ok skip => negb skip
     | Raise _ => false
     end.

(** The step of the registration loop on the declared field [item] raises
    [e]: the field is not hidden, and either the test of its read-only or
    write-only flag raises [e], with the registry as it is, or the field is
    retained and resolving it from [reg] raises [e] and ends in [reg']. *)
Definition field_fails (cfg : settings)
    (resolve : string → field → string → field → bool → M string)
    (app_name : string) (pk_name : option string) (serializer_instance : field)
    (is_request : bool) (item : string * field) (e : exn)
    (reg reg' : registry) : Prop :=
  issubclass (field_class item.2) HiddenField = false
  ∧ ((field_is_filtered cfg pk_name is_request item.1 item.2 = Raise e
      ∧ reg' = reg)
     ∨ (field_is_filtered cfg pk_name is_request item.1 item.2 = Ok false
        ∧ resolve app_name item.2 item.1 serializer_instance is_request reg
          = (reg', Raise e))).

(** Resolving [f] with [resolve] keeps what was registered. *)
Definition resolver_keeps
    (resolve : string → field → string → field → bool → M string) (f : field) : Prop :=
  ∀ app_name field_name serializer_instance is_request reg reg' r,
    resolve app_name f field_name serializer_instance is_request reg = (reg', r) →
    kept app_name None reg reg'.

(** The order in which [get_proto_type] tests the class of a field. *)
Definition resolution_order : list drf_class :=
  [ ListProtoSerializer; BaseProtoSerializer; SlugRelatedField; ManyRelatedField;
    RelatedField; ListSerializer; ModelField; ListField; DictField;
    BaseSerializer; SerializerMethodField ].

(** The kind a field of class [cls] is resolved as: the first class of the
    order it derives from, if any. *)
Definition resolved_as (cls : pyclass) : option drf_class :=
  List.find (issubclass cls) resolution_order.

(** A field descriptor: a field object, not a [str], whose class is named
    by an identifier, as are the classes of its child and child relation. *)
Fixpoint field_descriptor (f : field) : bool :=
  match f with
  | PyStrField _ => false
  | PyField cls _ child child_relation _ =>
      negb (has_space (cls_name cls))
      && match child with
         | Some c => field_descriptor c
         | None => true
         end
      && match child_relation with
         | Some c => field_descriptor c
         | None => true
         end
  end.

(** The name of the accessor of a [SerializerMethodField]: its
    [method_name], or [get_] and the name of the field. *)
Definition accessor_name (a : attrs) (field_name : string) : string :=
  default ("get_" +:+ field_name) (method_name a).

(** A registry operation that leaves the controllers of every app alone. *)
Definition keeps_controllers {A} (m : M A) : Prop :=
  ∀ reg reg' r,
    m reg = (reg', r) → ∀ app, controllers_of reg' app = controllers_of reg app.

(** The request or response of a custom action for which a message is
    registered: a field list that is not empty, or a serializer class. *)
Definition makes_message (spec : message_spec) : bool :=
  match spec with
  | SpecList (_ :: _) | SpecSerializer _ => true
  | _ => false
  end.

(** The controller stored under [controller_name] in [app_name]. *)
Definition controller_of (reg : registry) (app_name controller_name : string)
    : option (gmap string method_entry) :=
  reg !! app_name ≫= fun a => registered_controllers a !! controller_name.

(** The apps other than [app_name] are as they were. *)
Definition same_elsewhere (app_name : string) (reg reg' : registry) : Prop :=
  ∀ app, app ≠ app_name → reg' !! app = reg !! app.

(** A registry operation whose start and end are related by [R], whether
    it returns or raises. *)
Definition preserves {A} (R : relation registry) (m : M A) : Prop :=
  ∀ reg reg' r, m reg = (reg', r) → R reg reg'.

(** The stream flags of an entry that the conventional path records for
    [method]. *)
Definition conventional_entry (method : string) (entry : method_entry) : Prop :=
  is_stream (request entry) = false
  ∧ is_stream (response entry) = bool_decide (method = KnowMethods.STREAM).

(** What registering [service_instance] may change of the controllers of
    [app_name]: the other controllers stay as they are, [controller_name]
    stays if it is there, each of its entries stays as it is, and a method
    without entry stays without or gets a conventional entry, if it is a
    known method that the service has. *)
Definition service_registered (service_instance : service)
    (app_name controller_name : string) (reg reg' : registry) : Prop :=
  (∀ other, other ≠ controller_name →
            controller_of reg' app_name other = controller_of reg app_name other)
  ∧ (is_Some (controller_of reg app_name controller_name) →
     is_Some (controller_of reg' app_name controller_name))
  ∧ (∀ method,
        match method_of reg app_name controller_name method with
        | Some entry =>
            method_of reg' app_name controller_name method = Some entry
        | None =>
            method_of reg' app_name controller_name method = None
            ∨ (method ∈ KnowMethods.get_as_list
               ∧ method ∈ service_methods service_instance
               ∧ ∃ entry,
                   method_of reg' app_name controller_name method = Some entry
                   ∧ conventional_entry method entry)
        end).

(** The controllers of every app are as they were. *)
Definition same_controllers (reg reg' : registry) : Prop :=
  ∀ app_name controller_name,
    controller_of reg' app_name controller_name
    = controller_of reg app_name controller_name.

(** The messages of every app are as they were. *)
Definition same_messages (reg reg' : registry) : Prop :=
  ∀ app_name message_name,
    message_of reg' app_name message_name = message_of reg app_name message_name.

(** The name that a custom action takes for a request or response that
    needs no message: [google.protobuf.Empty] for an empty field list, a
    [str] as it is. *)
Definition names_message (spec : message_spec) : option string :=
  match spec with
  | SpecList [] => Some "google.protobuf.Empty"
  | SpecStr name => Some name
  | _ => None
  end.

(** [name], when it is given and not empty; [otherwise] if not. *)
Definition explicit_or (name : option string) (otherwise : string) : string :=
  match name with
  | Some (String _ _ as name) => name
  | _ => otherwise
  end.

(** A serializer over a model, for the examples: [id], the primary key,
    is a [ReadOnlyField]; [slug] is read-only, [secret] is write-only and
    [owner] is hidden. *)
Module ItemExample.

Definition item_model : model :=
  {| pk_name := "id"; pk_class := "AutoField"; relationships := ∅ |}.

Definition flagged (name : string) (bases : list drf_class)
    (is_read_only is_write_only : bool) : field :=
  PyField {| cls_name := name; cls_bases := bases |}
    {| read_only := is_read_only; write_only := is_write_only;
       pk_field := None; queryset_model := None; model_field := None;
       slug_field := None; method_name := None; Meta := None; methods := ∅ |}
    None None [].

Definition item_fields : list (string * field) :=
  [ ("id", flagged "ReadOnlyField" [ReadOnlyField] true false);
    ("slug", flagged "SlugField" [] true false);
    ("name", flagged "CharField" [] false false);
    ("secret", flagged "CharField" [] false true);
    ("owner", flagged "HiddenField" [HiddenField] false true) ].

Definition item : field :=
  PyField {| cls_name := "ItemProtoSerializer";
             cls_bases := [BaseProtoSerializer; BaseSerializer] |}
    {| read_only := false; write_only := false; pk_field := None;
       queryset_model := None; model_field := None; slug_field := None;
       method_name := None;
       Meta := Some {| meta_model := Some item_model;
                       message_list_attr := None |};
       methods := ∅ |}
    None None item_fields.

(** [ItemProtoSerializer(many=True)] *)
Definition item_list_class : pyclass :=
  {| cls_name := "ItemListProtoSerializer";
     cls_bases := [ListProtoSerializer; BaseProtoSerializer;
                   ListSerializer; BaseSerializer] |}.

(** An order whose [items] are a list of [ItemProtoSerializer]. *)
Definition order : field :=
  PyField {| cls_name := "OrderProtoSerializer";
             cls_bases := [BaseProtoSerializer; BaseSerializer] |}
    (Example.serializer_attrs ∅) None None
    [ ("reference", flagged "CharField" [] false false);
      ("items", PyField item_list_class Example.field_attrs (Some item) None []) ].

End ItemExample.

(** The exceptions that registering a service raises: of the
    [RegisterServiceException]s, the one for an accessor without return
    annotation and the one for a lookup field that the serializer has
    not. *)
Definition conventional_error (e : exn) : Prop :=
  match e with
  | RegisterServiceException msg =>
      (∃ serializer_class field_name,
          msg = missing_return_annotation serializer_class field_name)
      ∨ (∃ field_name serializer_class,
            msg = lookup_field_missing field_name serializer_class)
  | _ => True
  end.

(** A registry operation that raises no exception but the [allowed]. *)
Definition raises_only {A} (allowed : exn → Prop) (m : M A) : Prop :=
  ∀ reg reg' e, m reg = (reg', Raise e) → allowed e.

(** Resolving [f] with [resolve] raises no exception but the [allowed]. *)
Definition resolver_raises (allowed : exn → Prop)
    (resolve : string → field → string → field → bool → M string) (f : field)
    : Prop :=
  ∀ app_name field_name serializer_instance is_request,
    raises_only allowed
      (resolve app_name f field_name serializer_instance is_request).

(** The messages that [entry] names are registered in [app_name], where
    the response may be [google.protobuf.Empty] instead. *)
Definition names_registered (reg : registry) (app_name : string)
    (entry : method_entry) : Prop :=
  is_Some (message_of reg app_name (message (request entry)))
  ∧ (is_Some (message_of reg app_name (message (response entry)))
     ∨ message (response entry) = "google.protobuf.Empty").

(** Every registered message stays registered. *)
Definition messages_stay (reg reg' : registry) : Prop :=
  ∀ app_name name,
    is_Some (message_of reg app_name name) →
    is_Some (message_of reg' app_name name).

(** The messages stay registered, the entries of [controller_name] stay
    as they are, and an entry that is new names registered messages. *)
Definition entries_named (app_name controller_name : string)
    (reg reg' : registry) : Prop :=
  messages_stay reg reg'
  ∧ ∀ method,
      match method_of reg app_name controller_name method with
      | Some entry => method_of reg' app_name controller_name method = Some entry
      | None =>
          ∀ entry,
            method_of reg' app_name controller_name method = Some entry →
            names_registered reg' app_name entry
      end.

(** Induction on a field through its child, its child relation and its
    declared fields. *)
Section field_induction.

Variable P : field → Prop.

Hypothesis P_str : ∀ s, P (PyStrField s).

Hypothesis P_field : ∀ cls a child child_relation declared,
  from_option P True child →
  from_option P True child_relation →
  Forall (fun item => P item.2) declared →
  P (PyField cls a child child_relation declared).

Fixpoint field_induction (f : field) : P f :=
  match f with
  | PyStrField s => P_str s
  | PyField cls a child child_relation declared =>
      P_field cls a child child_relation declared
        (match child return from_option P True child with
         | Some c => field_induction c
         | None => I
         end)
        (match child_relation return from_option P True child_relation with
         | Some c => field_induction c
         | None => I
         end)
        ((fix each (items : list (string * field))
            : Forall (fun item => P item.2) items :=
            match items with
            | [] => ListDef.Forall_nil _
            | item :: rest =>
                ListDef.Forall_cons _ item rest (field_induction item.2) (each rest)
            end) declared)
  end.

End field_induction.

(** ** Strings *)

Module PyStrFacts.
Import PyStr.

Lemma append_cons c p x : String c p +:+ x = String c (p +:+ x).
Proof. reflexivity. Qed.

Lemma startswith_nil s : startswith "" s = true.
Proof. by destruct s. Qed.

Lemma startswith_cons c p d s :
  startswith (String c p) (String d s) = bool_decide (c = d) && startswith p s.
Proof.
  unfold startswith; simpl.
  destruct (ascii_dec c d) as [->|Hne].
  - by rewrite bool_decide_eq_true_2.
  - by rewrite bool_decide_eq_false_2.
Qed.

Lemma startswith_app p x y : startswith (p +:+ x) (p +:+ y) = startswith x y.
Proof.
  induction p as [|c p IH]; [done|].
  rewrite !append_cons, startswith_cons, IH. by rewrite bool_decide_eq_true_2.
Qed.

Lemma startswith_self p s : startswith p (p +:+ s) = true.
Proof.
  induction p as [|c p IH]; [apply startswith_nil|].
  rewrite append_cons, startswith_cons, IH. by rewrite bool_decide_eq_true_2.
Qed.

Lemma startswith_split p s :
  startswith p s = true → s = p +:+ drop (String.length p) s.
Proof.
  revert s. induction p as [|c p IH]; intros s H; [done|].
  destruct s as [|d s]; [done|].
  rewrite startswith_cons in H. apply andb_true_iff in H as [Hc Hp].
  apply bool_decide_eq_true in Hc as ->. rewrite append_cons. simpl. f_equal. by apply IH.
Qed.

Lemma startswith_app_l p q s :
  startswith (p +:+ q) s = true → startswith p s = true.
Proof.
  revert s. induction p as [|c p IH]; intros s H; [apply startswith_nil|].
  destruct s as [|d s]; [done|].
  rewrite append_cons in H. rewrite startswith_cons in *.
  apply andb_true_iff in H as [-> Hp]. simpl. by apply IH.
Qed.

Lemma has_space_app a b : has_space (a +:+ b) = has_space a || has_space b.
Proof.
  induction a as [|c a IH]; [done|].
  rewrite append_cons. simpl. rewrite IH. by rewrite orb_assoc.
Qed.

Lemma has_space_drop n s : has_space (drop n s) = true → has_space s = true.
Proof.
  revert s. induction n as [|n IH]; intros s H; [done|].
  destruct s as [|c s]; [done|].
  simpl in *. rewrite (IH _ H). apply orb_true_r.
Qed.

Lemma replace_last_has_space old s r :
  replace_last old "" s = Some r → has_space r = true → has_space s = true.
Proof.
  revert r. induction s as [|c s IH]; intros r Hr Hsp; cbn [replace_last] in Hr.
  - destruct (startswith old ""); by simplify_eq.
  - destruct (replace_last old "" s) as [r'|] eqn:Hrec.
    + simplify_eq. simpl in *. apply orb_true_iff in Hsp as [->|Hsp]; [done|].
      rewrite (IH r'); [apply orb_true_r|done..].
    + destruct (startswith old (String c s)); simplify_eq.
      simpl in Hsp. by apply has_space_drop in Hsp.
Qed.

Lemma rreplace_has_space s old :
  has_space (rreplace s old "") = true → has_space s = true.
Proof.
  unfold rreplace. destruct (replace_last old "" s) as [r|] eqn:Hr; simpl; [|done].
  by apply (replace_last_has_space old).
Qed.

(** A string that starts with ["repeated "] holds a space. *)
Lemma startswith_repeated_has_space s :
  startswith "repeated " s = true → has_space s = true.
Proof.
  intros H. apply startswith_split in H. rewrite H.
  by rewrite has_space_app.
Qed.

Lemma append_inj_l s a b : s +:+ a = s +:+ b → a = b.
Proof.
  induction s as [|c s IH]; [done|].
  rewrite !append_cons. intros [= H]. by apply IH.
Qed.

Lemma append_assoc a b c : (a +:+ b) +:+ c = a +:+ b +:+ c.
Proof.
  induction a as [|x a IH]; [done|]. by rewrite !append_cons, IH.
Qed.

Lemma mentions_end a sub : mentions (a +:+ sub) sub.
Proof.
  exists a, "". f_equal. induction sub as [|c sub IH]; [done|].
  by rewrite append_cons, <- IH.
Qed.

Lemma mentions_middle a sub b : mentions (a +:+ sub +:+ b) sub.
Proof. by exists a, b. Qed.

End PyStrFacts.

(** ** The registry operations *)

Section registry_facts.

Implicit Types (reg : registry) (app_name : string).

Lemma kept_refl app_name exempt reg : kept app_name exempt reg reg.
Proof. by repeat split. Qed.

Lemma kept_trans app_name exempt reg1 reg2 reg3 :
  kept app_name exempt reg1 reg2 → kept app_name exempt reg2 reg3 →
  kept app_name exempt reg1 reg3.
Proof.
  intros (Ho1 & Hc1 & Hm1) (Ho2 & Hc2 & Hm2). repeat split.
  - intros app Hne. by rewrite Ho2, Ho1.
  - by rewrite Hc2.
  - intros name fields Hne Hm. by apply Hm2, Hm1.
Qed.

Lemma kept_exempt app_name name reg reg' :
  kept app_name None reg reg' → kept app_name (Some name) reg reg'.
Proof.
  intros (Ho & Hc & Hm). repeat split; [done..|].
  intros n fields _. by apply Hm.
Qed.

(** A message that was absent can be exempted at no cost. *)
Lemma kept_fresh app_name name reg reg' :
  message_of reg app_name name = None →
  kept app_name (Some name) reg reg' → kept app_name None reg reg'.
Proof.
  intros Hnone (Ho & Hc & Hm). repeat split; [done..|].
  intros n fields _ Hn. apply Hm; [|done]. intros [= ->]. congruence.
Qed.

Lemma bind_inv {A B} (m : M A) (k : A → M B) reg reg' r :
  bind m k reg = (reg', r) →
  (∃ reg1 a, m reg = (reg1, Ok a) ∧ k a reg1 = (reg', r))
  ∨ (∃ e, m reg = (reg', Raise e) ∧ r = Raise e).
Proof.
  unfold bind. destruct (m reg) as [reg1 [a|e]]; [eauto|].
  intros [= <- <-]. eauto.
Qed.

(** [ret], [raise] and [lift] leave the registry alone. *)
Lemma lift_inv {A} (x : result A) reg reg' r :
  lift x reg = (reg', r) → reg = reg' ∧ x = r.
Proof. by intros [= <- <-]. Qed.

Lemma get_app_inv app_name reg reg' r :
  get_app app_name reg = (reg', r) →
  reg' = reg
  ∧ ((∃ a, reg !! app_name = Some a ∧ r = Ok a)
     ∨ (reg !! app_name = None ∧ r = Raise (KeyError app_name))).
Proof.
  unfold get_app. destruct (reg !! app_name) as [a|]; intros [= <- <-]; eauto.
Qed.

Lemma set_message_inv app_name name fields reg reg' r :
  set_message app_name name fields reg = (reg', r) →
  (∃ a, reg !! app_name = Some a ∧ r = Ok tt
        ∧ reg' = <[app_name :=
                     {| registered_controllers := registered_controllers a;
                        registered_messages :=
                          <[name := fields]> (registered_messages a) |}]> reg)
  ∨ (reg !! app_name = None ∧ reg' = reg ∧ r = Raise (KeyError app_name)).
Proof.
  unfold set_message. intros H.
  apply bind_inv in H as [(reg1 & a & Ha & H)|(e & Ha & ->)];
    apply get_app_inv in Ha as [-> [(a' & Hlook & Heq)|[Hlook Heq]]];
    simplify_eq.
  - left. eexists. by repeat split.
  - by right.
Qed.

Lemma set_message_kept app_name name fields reg reg' r :
  set_message app_name name fields reg = (reg', r) →
  kept app_name (Some name) reg reg'.
Proof.
  intros [(a & Ha & -> & ->)|(_ & -> & _)]%set_message_inv; [|apply kept_refl].
  repeat split.
  - intros app Hne. by rewrite lookup_insert_ne.
  - unfold controllers_of. by rewrite lookup_insert_eq, Ha.
  - intros n fl Hne. unfold message_of. rewrite lookup_insert_eq, Ha. simpl.
    rewrite lookup_insert_ne; [done|congruence].
Qed.

Lemma set_message_stored app_name name fields reg reg' :
  set_message app_name name fields reg = (reg', Ok tt) →
  message_of reg' app_name name = Some fields.
Proof.
  intros [(a & Ha & _ & ->)|(_ & _ & [=])]%set_message_inv.
  unfold message_of. rewrite lookup_insert_eq. simpl. apply lookup_insert_eq.
Qed.

Lemma set_message_succeeds app_name name fields reg :
  is_Some (reg !! app_name) →
  ∃ reg', set_message app_name name fields reg = (reg', Ok tt).
Proof.
  intros [a Ha]. unfold set_message, bind, get_app. rewrite Ha. eauto.
Qed.

Lemma append_to_message_inv app_name name item reg reg' r :
  append_to_message app_name name item reg = (reg', r) →
  kept app_name (Some name) reg reg'
  ∧ ∀ fields, message_of reg app_name name = Some fields →
              r = Ok tt ∧ message_of reg' app_name name = Some (fields ++ [item]).
Proof.
  unfold append_to_message. intros H.
  apply bind_inv in H as [(reg1 & a & Ha & H)|(e & Ha & ->)];
    apply get_app_inv in Ha as [-> [(a' & Hlook & Heq)|[Hlook Heq]]];
    simplify_eq.
  - unfold message_of. rewrite Hlook. simpl.
    destruct (registered_messages a' !! name) as [fl|] eqn:Hfl.
    + split; [by eapply set_message_kept|].
      intros ? [= <-].
      pose proof H as [(a1 & Ha1 & -> & _)|(Hn & _)]%set_message_inv;
        [|congruence].
      split; [done|]. apply set_message_stored in H.
      unfold message_of in H. by destruct (reg' !! app_name).
    + injection H as <- <-. split; [apply kept_refl|done].
  - split; [apply kept_refl|]. unfold message_of. by rewrite Hlook.
Qed.

Lemma set_controller_inv app_name controller_name entries reg reg' r :
  set_controller app_name controller_name entries reg = (reg', r) →
  (∃ a, reg !! app_name = Some a ∧ r = Ok tt
        ∧ reg' = <[app_name :=
                     {| registered_controllers :=
                          <[controller_name := entries]> (registered_controllers a);
                        registered_messages := registered_messages a |}]> reg)
  ∨ (reg !! app_name = None ∧ reg' = reg ∧ r = Raise (KeyError app_name)).
Proof.
  unfold set_controller. intros H.
  apply bind_inv in H as [(reg1 & a & Ha & H)|(e & Ha & ->)];
    apply get_app_inv in Ha as [-> [(a' & Hlook & Heq)|[Hlook Heq]]];
    simplify_eq.
  - left. eexists. by repeat split.
  - by right.
Qed.

End registry_facts.

Tactic Notation "bind_inv" hyp(H) "as" ident(reg) ident(a) ident(Hm) :=
  apply bind_inv in H as [(reg & a & Hm & H)|(? & Hm & H)];
  [|first [discriminate H | match type of H with ?r = _ => subst r end]].

Ltac pure_inv H :=
  let Hreg := fresh "Hreg" in
  let Hres := fresh "Hres" in
  apply lift_inv in H as [Hreg Hres];
  first [discriminate Hres | try (injection Hres as Hres); try subst].

(** ** The message registrar *)

Section registrar_facts.

Context (cfg : settings).
Variable resolve : string → field → string → field → bool → M string.

Lemma register_fields_kept app_name message_name pk serializer_instance is_request
    fields :
  Forall (fun item => resolver_keeps resolve item.2) fields →
  ∀ reg reg' r,
    register_fields cfg resolve app_name message_name pk serializer_instance
                    is_request fields reg = (reg', r) →
    kept app_name (Some message_name) reg reg'.
Proof.
  induction 1 as [|[field_name field_type] rest Hitem _ IH]; intros reg reg' r H.
  - pure_inv H. apply kept_refl.
  - cbn [register_fields] in H.
    destruct (issubclass (field_class field_type) HiddenField); [by eapply IH|].
    bind_inv H as reg1 skip Hskip; pure_inv Hskip; [|apply kept_refl].
    destruct skip; [by eapply IH|].
    bind_inv H as reg2 proto_type Hresolve; apply Hitem in Hresolve;
      [|by apply kept_exempt].
    bind_inv H as reg3 u Happ; apply append_to_message_inv in Happ as [Happ _].
    + eapply kept_trans; [by apply kept_exempt|].
      eapply kept_trans; [done|]. by eapply IH.
    + eapply kept_trans; [by apply kept_exempt|done].
Qed.

(** The loop appends to the entry one item for each retained field, in
    order; when it raises, it has appended some of them. *)
Lemma register_fields_entry app_name message_name pk serializer_instance is_request
    fields :
  Forall (fun item => resolver_keeps resolve item.2) fields →
  ∀ reg reg' r stored,
    message_of reg app_name message_name = Some stored →
    register_fields cfg resolve app_name message_name pk serializer_instance
                    is_request fields reg = (reg', r) →
    ∃ added,
      message_of reg' app_name message_name = Some (stored ++ added)
      ∧ added.*1 `prefix_of` (List.filter (retained cfg pk is_request) fields).*1
      ∧ (r = Ok tt →
         added.*1 = (List.filter (retained cfg pk is_request) fields).*1).
Proof.
  assert (∀ stored (names : list string) (r : result unit) reg,
             message_of reg app_name message_name = Some stored →
             r ≠ Ok tt →
             ∃ added : list (string * string),
               message_of reg app_name message_name = Some (stored ++ added)
               ∧ added.*1 `prefix_of` names
               ∧ (r = Ok tt → added.*1 = names)) as Hnone.
  { intros stored names r reg Hstored Hr. exists [].
    rewrite app_nil_r. split; [done|]. split; [apply prefix_nil|done]. }
  induction 1 as [|[field_name field_type] rest Hitem _ IH];
    intros reg reg' r stored Hstored H.
  - pure_inv H. exists []. by rewrite app_nil_r.
  - cbn [register_fields] in H. cbn [List.filter].
    assert (retained cfg pk is_request (field_name, field_type)
            = negb (issubclass (field_class field_type) HiddenField)
              && match field_is_filtered cfg pk is_request field_name field_type with
                 | Ok skip => negb skip
                 | Raise _ => false
                 end) as -> by done.
    destruct (issubclass (field_class field_type) HiddenField); [by eapply IH|].
    bind_inv H as reg1 skip Hskip; pure_inv Hskip; [|by apply Hnone].
    rewrite Hres. destruct skip; [by eapply IH|]. simpl.
    bind_inv H as reg2 proto_type Hresolve;
      apply Hitem in Hresolve as (_ & _ & Hresolve);
      specialize (Hresolve _ _ ltac:(done) Hstored).
    2:{ by apply Hnone. }
    bind_inv H as reg3 u Happ; apply append_to_message_inv in Happ as [_ Happ];
      destruct (Happ _ Hresolve) as [Heq Hnew]; [|done].
    destruct (IH _ _ _ _ Hnew H) as (added & Hadded & Hprefix & Hnames).
    exists ((field_name, proto_type) :: added). split; [|split].
    + by rewrite <- app_assoc in Hadded.
    + simpl. by apply prefix_cons.
    + intros Hr. simpl. f_equal. by apply Hnames.
Qed.

(** Registering a serializer keeps what was registered; when it returns,
    the name it returns is the registered name, and either the name was
    registered and the registry is the same, or the name is new and its
    entry has one item for each retained field, in order. *)
Lemma register_serializer_with_inv app_name serializer_instance message_name
    is_request reg reg' r :
  Forall (fun item => resolver_keeps resolve item.2) (declared_fields serializer_instance) →
  register_serializer_with cfg resolve app_name serializer_instance message_name
                           is_request reg = (reg', r) →
  let name := registered_name cfg serializer_instance message_name is_request in
  kept app_name None reg reg'
  ∧ ∀ returned, r = Ok returned →
      returned = name
      ∧ ((is_Some (message_of reg app_name name) ∧ reg' = reg)
         ∨ (message_of reg app_name name = None
            ∧ ∃ pk stored,
                serializer_pk_name serializer_instance = Ok pk
                ∧ message_of reg' app_name name = Some stored
                ∧ stored.*1
                  = (List.filter (retained cfg pk is_request)
                                 (declared_fields serializer_instance)).*1)).
Proof.
  intros Hfields H name. unfold register_serializer_with in H.
  fold (registered_name cfg serializer_instance message_name is_request) in H.
  fold name in H.
  bind_inv H as reg1 pk Hpk; pure_inv Hpk; [|split; [apply kept_refl|done]].
  rename Hres into Hpk.
  bind_inv H as reg2 a' Hm; apply get_app_inv in Hm as [-> [(a & Ha & Heq)|[Ha Heq]]];
    simplify_eq; [|split; [apply kept_refl|done]].
  assert (message_of reg1 app_name name = registered_messages a !! name) as Hmsg.
  { unfold message_of. by rewrite Ha. }
  case_bool_decide as Hsome.
  { pure_inv H. split; [apply kept_refl|]. intros ? [= <-].
    split; [done|]. left. by rewrite Hmsg. }
  apply eq_None_not_Some in Hsome. rewrite <- Hmsg in Hsome.
  bind_inv H as reg3 u Hm.
  2:{ apply set_message_kept in Hm. split; [by eapply kept_fresh|done]. }
  destruct u. pose proof (set_message_kept _ _ _ _ _ _ Hm) as Hkept0.
  apply set_message_stored in Hm.
  destruct serializer_instance as [s|cls attributes child child_relation declared].
  { pure_inv H. split; [by eapply kept_fresh|done]. }
  bind_inv H as reg4 u Hloop.
  - pure_inv H. split.
    + eapply kept_fresh; [done|]. eapply kept_trans; [done|].
      by eapply register_fields_kept.
    + intros ? [= <-]. split; [done|]. right. split; [done|].
      destruct (register_fields_entry _ _ _ _ _ _ Hfields _ _ _ _ Hm Hloop)
        as (added & Hadded & _ & Hnames).
      destruct u. exists pk, added. split; [by rewrite Hpk|]. split; [done|].
      by apply Hnames.
  - split; [|done].
    eapply kept_fresh; [done|]. eapply kept_trans; [done|].
    by eapply register_fields_kept.
Qed.

(** When the loop raises, it raises at a declared field that is not
    hidden, from the test of its flags or from its resolution, and it has
    appended to the entry one item for each retained field declared before
    that one, in order, and nothing else. *)
Lemma register_fields_failed app_name message_name pk serializer_instance is_request
    fields :
  Forall (fun item => resolver_keeps resolve item.2) fields →
  ∀ reg reg' r stored,
    message_of reg app_name message_name = Some stored →
    register_fields cfg resolve app_name message_name pk serializer_instance
                    is_request fields reg = (reg', r) →
    ∀ e, r = Raise e →
    ∃ resolved failing rest added reg_before,
      fields = resolved ++ failing :: rest
      ∧ field_fails cfg resolve app_name pk serializer_instance is_request
                    failing e reg_before reg'
      ∧ message_of reg_before app_name message_name = Some (stored ++ added)
      ∧ message_of reg' app_name message_name = Some (stored ++ added)
      ∧ added.*1 = (List.filter (retained cfg pk is_request) resolved).*1.
Proof.
  induction 1 as [|[field_name field_type] rest Hitem _ IH];
    intros reg reg' r stored Hstored H.
  - by pure_inv H.
  - cbn [register_fields] in H.
    assert (∀ reg0 added0,
               register_fields cfg resolve app_name message_name pk
                               serializer_instance is_request rest reg0
               = (reg', r) →
               message_of reg0 app_name message_name = Some (stored ++ added0) →
               retained cfg pk is_request (field_name, field_type)
               = bool_decide (added0 ≠ []) →
               added0.*1 = (if bool_decide (added0 ≠ []) then [field_name] else []) →
               ∀ e, r = Raise e →
               ∃ resolved failing rest0 added reg_before,
                 (field_name, field_type) :: rest = resolved ++ failing :: rest0
                 ∧ field_fails cfg resolve app_name pk serializer_instance
                               is_request failing e reg_before reg'
                 ∧ message_of reg_before app_name message_name
                   = Some (stored ++ added)
                 ∧ message_of reg' app_name message_name = Some (stored ++ added)
                 ∧ added.*1
                   = (List.filter (retained cfg pk is_request) resolved).*1)
      as Hnext.
    { intros reg0 added0 Hloop Hstored0 Hretained Hnames e Hr.
      destruct (IH _ _ _ _ Hstored0 Hloop e Hr)
        as (resolved & failing & rest0 & added & reg_before
            & -> & Hfails & Hbefore & Hafter & Hadded).
      exists ((field_name, field_type) :: resolved), failing, rest0,
             (added0 ++ added), reg_before.
      split; [done|]. split; [done|].
      split; [by rewrite app_assoc|]. split; [by rewrite app_assoc|].
      cbn [List.filter]. rewrite Hretained, fmap_app, Hnames, Hadded.
      by case_bool_decide. }
    assert (retained cfg pk is_request (field_name, field_type)
            = negb (issubclass (field_class field_type) HiddenField)
              && match field_is_filtered cfg pk is_request field_name field_type with
                 | Ok skip => negb skip
                 | Raise _ => false
                 end) as Hretained by done.
    destruct (issubclass (field_class field_type) HiddenField) eqn:Hhidden.
    { apply (Hnext reg []); try done. by rewrite app_nil_r. }
    bind_inv H as reg1 skip Hskip; pure_inv Hskip.
    2:{ intros e [= <-].
        exists [], (field_name, field_type), rest, [], reg'.
        rewrite app_nil_r. repeat split; try done. by left. }
    rename Hres into Hskip. rewrite Hskip in Hretained.
    destruct skip.
    { apply (Hnext reg1 []); try done. by rewrite app_nil_r. }
    bind_inv H as reg2 proto_type Hresolve.
    2:{ intros e [= <-].
        exists [], (field_name, field_type), rest, [], reg1.
        rewrite app_nil_r.
        pose proof (Hitem _ _ _ _ _ _ _ Hresolve) as (_ & _ & Hkept).
        specialize (Hkept _ _ ltac:(done) Hstored).
        repeat split; try done. by right. }
    apply Hitem in Hresolve as (_ & _ & Hresolve).
    specialize (Hresolve _ _ ltac:(done) Hstored).
    bind_inv H as reg3 u Happ; apply append_to_message_inv in Happ as [_ Happ];
      destruct (Happ _ Hresolve) as [Heq Hnew]; [|done].
    by apply (Hnext reg3 [(field_name, proto_type)]).
Qed.

(** When the registrar gets to store the entry of a new name and raises, it
    raises at a declared field, and the entry is there afterwards, with one
    item for each retained field declared before that one, in order. *)
Lemma register_serializer_with_failed app_name serializer_instance message_name
    is_request reg reg' e pk :
  Forall (fun item => resolver_keeps resolve item.2) (declared_fields serializer_instance) →
  register_serializer_with cfg resolve app_name serializer_instance message_name
                           is_request reg = (reg', Raise e) →
  let name := registered_name cfg serializer_instance message_name is_request in
  serializer_pk_name serializer_instance = Ok pk →
  is_Some (reg !! app_name) →
  message_of reg app_name name = None →
  ∃ resolved failing rest stored reg_before,
    declared_fields serializer_instance = resolved ++ failing :: rest
    ∧ field_fails cfg resolve app_name pk serializer_instance is_request
                  failing e reg_before reg'
    ∧ message_of reg_before app_name name = Some stored
    ∧ message_of reg' app_name name = Some stored
    ∧ stored.*1 = (List.filter (retained cfg pk is_request) resolved).*1.
Proof.
  intros Hfields H name Hpk [a Ha] Hnone. unfold register_serializer_with in H.
  fold (registered_name cfg serializer_instance message_name is_request) in H.
  fold name in H.
  unfold bind at 1 in H. unfold lift in H. rewrite Hpk in H.
  unfold bind at 1 in H. unfold get_app in H. rewrite Ha in H.
  unfold message_of in Hnone. rewrite Ha in Hnone. simpl in Hnone.
  rewrite bool_decide_eq_false_2 in H by (rewrite Hnone; by intros [? ?]).
  destruct (set_message_succeeds app_name name [] reg ltac:(eauto)) as [reg1 Hset].
  unfold bind at 1 in H. rewrite Hset in H.
  apply set_message_stored in Hset.
  destruct serializer_instance as [s|cls attributes child child_relation declared].
  { by unfold serializer_pk_name in Hpk. }
  apply bind_inv in H as [(reg2 & u & Hloop & H)|(e' & Hloop & He)].
  - by pure_inv H.
  - injection He as <-.
    destruct (register_fields_failed _ _ _ _ _ _ Hfields _ _ _ _ Hset Hloop
                                     _ eq_refl)
      as (resolved & failing & rest & added & reg_before & ? & ? & ? & ? & ?).
    by exists resolved, failing, rest, added, reg_before.
Qed.

End registrar_facts.

(** ** The field resolver and the registrar together *)

Section resolver_facts.

Context (cfg : settings).

(** Resolving a field, and registering its declared fields, keep what was
    registered. *)
Lemma get_proto_type_keeps_nested f :
  resolver_keeps (get_proto_type cfg) f
  ∧ Forall (fun item => resolver_keeps (get_proto_type cfg) item.2)
           (declared_fields f).
Proof.
  induction f as [s|cls attributes child child_relation declared
                    IHchild IHrelation IHdeclared] using field_induction.
  { split; [|constructor]. intros ??????? H. pure_inv H. apply kept_refl. }
  assert (Forall (fun item => resolver_keeps (get_proto_type cfg) item.2) declared)
    as Hdeclared.
  { eapply Forall_impl; [exact IHdeclared|]. by intros ? []. }
  split; [|done].
  intros app_name field_name serializer_instance is_request reg reg' r H.
  cbn [get_proto_type] in H.
  destruct (issubclass cls ListProtoSerializer).
  { destruct child as [child|]; [|pure_inv H; apply kept_refl].
    destruct IHchild as [_ IHchild].
    bind_inv H as reg1 name Hregister;
      apply register_serializer_with_inv in Hregister as [Hkept _]; try done.
    by pure_inv H. }
  destruct (issubclass cls BaseProtoSerializer).
  { bind_inv H as reg1 name Hregister;
      apply register_serializer_with_inv in Hregister as [Hkept _]; try done.
    by pure_inv H. }
  destruct (issubclass cls SlugRelatedField); [pure_inv H; apply kept_refl|].
  destruct (issubclass cls ManyRelatedField).
  { destruct child_relation as [relation|]; [|pure_inv H; apply kept_refl].
    destruct IHrelation as [IHrelation _].
    bind_inv H as reg1 child_proto_type Hchild; apply IHrelation in Hchild;
      [|done].
    by pure_inv H. }
  destruct (issubclass cls RelatedField); [pure_inv H; apply kept_refl|].
  destruct (issubclass cls ListSerializer); [pure_inv H; apply kept_refl|].
  destruct (issubclass cls ModelField).
  { destruct (model_field attributes); pure_inv H; apply kept_refl. }
  destruct (issubclass cls ListField).
  { destruct child; pure_inv H; apply kept_refl. }
  destruct (issubclass cls DictField); [pure_inv H; apply kept_refl|].
  destruct (issubclass cls BaseSerializer); [pure_inv H; apply kept_refl|].
  destruct (issubclass cls SerializerMethodField); pure_inv H; apply kept_refl.
Qed.

Lemma get_proto_type_keeps f : resolver_keeps (get_proto_type cfg) f.
Proof. apply get_proto_type_keeps_nested. Qed.

Lemma declared_fields_keep (fields : list (string * field)) :
  Forall (fun item => resolver_keeps (get_proto_type cfg) item.2) fields.
Proof. apply Forall_forall. intros item _. apply get_proto_type_keeps. Qed.

Lemma register_serializer_inv app_name serializer_instance message_name
    is_request reg reg' r :
  register_serializer_as_message_if_not_exist
    cfg app_name serializer_instance message_name is_request reg = (reg', r) →
  let name := registered_name cfg serializer_instance message_name is_request in
  kept app_name None reg reg'
  ∧ ∀ returned, r = Ok returned →
      returned = name
      ∧ ((is_Some (message_of reg app_name name) ∧ reg' = reg)
         ∨ (message_of reg app_name name = None
            ∧ ∃ pk stored,
                serializer_pk_name serializer_instance = Ok pk
                ∧ message_of reg' app_name name = Some stored
                ∧ stored.*1
                  = (List.filter (retained cfg pk is_request)
                                 (declared_fields serializer_instance)).*1)).
Proof. apply register_serializer_with_inv, declared_fields_keep. Qed.

Lemma register_serializer_failed app_name serializer_instance message_name
    is_request reg reg' e pk :
  register_serializer_as_message_if_not_exist
    cfg app_name serializer_instance message_name is_request reg
  = (reg', Raise e) →
  let name := registered_name cfg serializer_instance message_name is_request in
  serializer_pk_name serializer_instance = Ok pk →
  is_Some (reg !! app_name) →
  message_of reg app_name name = None →
  ∃ resolved failing rest stored reg_before,
    declared_fields serializer_instance = resolved ++ failing :: rest
    ∧ field_fails cfg (get_proto_type cfg) app_name pk serializer_instance
                  is_request failing e reg_before reg'
    ∧ message_of reg_before app_name name = Some stored
    ∧ message_of reg' app_name name = Some stored
    ∧ stored.*1 = (List.filter (retained cfg pk is_request) resolved).*1.
Proof. apply register_serializer_with_failed, declared_fields_keep. Qed.

Lemma register_serializer_kept app_name serializer_instance message_name
    is_request reg reg' r :
  register_serializer_as_message_if_not_exist
    cfg app_name serializer_instance message_name is_request reg = (reg', r) →
  kept app_name None reg reg'.
Proof. intros H. by apply register_serializer_inv in H as [? _]. Qed.

(** A name returned by the registrar is registered. *)
Lemma register_serializer_registered app_name serializer_instance message_name
    is_request reg reg' name :
  register_serializer_as_message_if_not_exist
    cfg app_name serializer_instance message_name is_request reg
    = (reg', Ok name) →
  name = registered_name cfg serializer_instance message_name is_request
  ∧ is_Some (message_of reg' app_name name).
Proof.
  intros H. apply register_serializer_inv in H as [_ H].
  destruct (H _ eq_refl) as [-> [[Hsome ->]|(_ & pk & stored & _ & Hstored & _)]];
    by eauto.
Qed.

End resolver_facts.

(** ** Failure and idempotence of message registration *)

(** A registration that was not stopped by a missing [Meta] found the
    primary key name. *)
Lemma register_serializer_ok_pk cfg app_name serializer_instance message_name
    is_request reg reg' name :
  register_serializer_as_message_if_not_exist
    cfg app_name serializer_instance message_name is_request reg = (reg', Ok name) →
  ∃ pk, serializer_pk_name serializer_instance = Ok pk.
Proof.
  unfold register_serializer_as_message_if_not_exist, register_serializer_with.
  intros H. bind_inv H as reg1 pk Hpk. pure_inv Hpk. eauto.
Qed.

(** Registering under a name that is registered returns the name and
    leaves the registry as it is. *)
Lemma register_serializer_existing cfg app_name serializer_instance message_name
    is_request reg pk :
  serializer_pk_name serializer_instance = Ok pk →
  is_Some (message_of reg app_name
             (registered_name cfg serializer_instance message_name is_request)) →
  register_serializer_as_message_if_not_exist
    cfg app_name serializer_instance message_name is_request reg
  = (reg, Ok (registered_name cfg serializer_instance message_name is_request)).
Proof.
  intros Hpk Hsome.
  unfold register_serializer_as_message_if_not_exist, register_serializer_with.
  fold (registered_name cfg serializer_instance message_name is_request).
  unfold bind, lift, get_app. rewrite Hpk.
  unfold message_of in Hsome. destruct (reg !! app_name) as [a|]; simpl in Hsome.
  - by rewrite bool_decide_eq_true_2.
  - by destruct Hsome.
Qed.

(** C1, as the code has it: a registration step, failed or not, leaves
    the other apps, the controllers and the field list of every message
    registered before it as they were.  When it returns a name, either the
    name was registered and the registry is unchanged, or the name is new and
    its entry has one item for each field the serializer retains, in
    declaration order.  When it fails after it stored the entry of a new
    name, it fails at one of the declared fields, which is not hidden: the
    test of its flags raises, or it is retained and its resolution raises.
    The entry stays in the registry, with one item for each retained field
    declared before the failing one, in declaration order, and nothing
    else: the entry is stored empty and filled one field at a time. *)
Theorem registration_keeps_what_was_registered
    cfg app_name serializer_instance message_name is_request reg reg' r :
  register_serializer_as_message_if_not_exist
    cfg app_name serializer_instance message_name is_request reg = (reg', r) →
  (∀ app, app ≠ app_name → reg' !! app = reg !! app)
  ∧ controllers_of reg' app_name = controllers_of reg app_name
  ∧ (∀ name fields,
        message_of reg app_name name = Some fields →
        message_of reg' app_name name = Some fields)
  ∧ (∀ name, r = Ok name →
        (is_Some (message_of reg app_name name) ∧ reg' = reg)
        ∨ (message_of reg app_name name = None
           ∧ ∃ pk stored,
               serializer_pk_name serializer_instance = Ok pk
               ∧ message_of reg' app_name name = Some stored
               ∧ stored.*1
                 = (List.filter (retained cfg pk is_request)
                                (declared_fields serializer_instance)).*1))
  ∧ (∀ e pk,
        r = Raise e →
        let name := registered_name cfg serializer_instance message_name
                                    is_request in
        serializer_pk_name serializer_instance = Ok pk →
        is_Some (reg !! app_name) →
        message_of reg app_name name = None →
        ∃ resolved failing rest stored reg_before,
          declared_fields serializer_instance = resolved ++ failing :: rest
          ∧ field_fails cfg (get_proto_type cfg) app_name pk serializer_instance
                        is_request failing e reg_before reg'
          ∧ message_of reg_before app_name name = Some stored
          ∧ message_of reg' app_name name = Some stored
          ∧ stored.*1
            = (List.filter (retained cfg pk is_request) resolved).*1).
Proof.
  intros Hrun.
  pose proof (register_serializer_inv _ _ _ _ _ _ _ _ Hrun)
    as [(Hother & Hcontrollers & Hkept) H].
  split; [done|]. split; [done|]. split; [|split].
  - intros name fields. by apply Hkept.
  - intros name ->. by destruct (H _ eq_refl) as [-> ?].
  - intros e pk -> name Hpk Happ Hnone.
    by eapply register_serializer_failed.
Qed.

Lemma registration_keeps_what_was_registered_witness :
  let outcome :=
    register_serializer_as_message_if_not_exist
      Example.cfg "shop" Example.unannotated_widget None false Example.shop in
  controllers_of outcome.1 "shop" = controllers_of Example.shop "shop"
  ∧ ∃ resolved failing rest stored,
      Example.widget_fields = resolved ++ failing :: rest
      ∧ message_of outcome.1 "shop" "WidgetResponse" = Some stored
      ∧ stored.*1
        = (List.filter (retained Example.cfg None false) resolved).*1.
Proof.
  intros outcome.
  pose proof (registration_keeps_what_was_registered
                Example.cfg "shop" Example.unannotated_widget None false
                Example.shop outcome.1 outcome.2 ltac:(vm_compute; reflexivity))
    as (_ & Hcontrollers & _ & _ & Hfailed).
  split; [exact Hcontrollers|].
  destruct (Hfailed (RegisterServiceException
                       (missing_return_annotation "WidgetSerializer" "total"))
                    None
                    ltac:(vm_compute; reflexivity)
                    ltac:(vm_compute; reflexivity)
                    ltac:(vm_compute; by eexists)
                    ltac:(vm_compute; reflexivity))
    as (resolved & failing & rest & stored & _ & Hsplit & _ & _ & Hstored & Hnames).
  by exists resolved, failing, rest, stored.
Defined.

(** A registration that returns: the entry of the new name is complete.
    The request message leaves out [total], which is read-only. *)
Example registration_of_widget :
  let response :=
    register_serializer_as_message_if_not_exist
      Example.cfg "shop" Example.widget None false Example.shop in
  let request :=
    register_serializer_as_message_if_not_exist
      Example.cfg "shop" Example.widget None true Example.shop in
  response.2 = Ok "WidgetResponse"
  ∧ message_of response.1 "shop" "WidgetResponse"
    = Some [("name", "string"); ("total", "int32"); ("size", "int32")]
  ∧ request.2 = Ok "WidgetRequest"
  ∧ message_of request.1 "shop" "WidgetRequest"
    = Some [("name", "string"); ("size", "int32")].
Proof. repeat split; vm_compute; reflexivity. Qed.

(** C1, as stated, fails: resolving the second field of the serializer
    raises the registration error, and the entry of the message stays in the
    registry with the first field only, of the three that the response
    message retains. *)
Lemma registration_failure_leaves_partial_entry :
  ∃ reg' msg,
    register_serializer_as_message_if_not_exist
      Example.cfg "shop" Example.unannotated_widget None false Example.shop
    = (reg', Raise (RegisterServiceException msg))
    ∧ message_of Example.shop "shop" "WidgetResponse" = None
    ∧ message_of reg' "shop" "WidgetResponse" = Some [("name", "string")]
    ∧ (List.filter (retained Example.cfg None false)
                   (declared_fields Example.unannotated_widget)).*1
      = ["name"; "total"; "size"].
Proof.
  eexists _, _. split; [vm_compute; reflexivity|].
  repeat split; vm_compute; reflexivity.
Qed.

(** C2: when registering a serializer as a message returns a name, doing it
    again returns the same name and leaves the registry, and so the field
    list stored under the name, as it is.  More generally any serializer
    registered afterwards under that name gets the name back and changes
    nothing: the first registration wins. *)
Theorem register_serializer_twice
    cfg app_name serializer_instance message_name is_request reg reg1 name :
  register_serializer_as_message_if_not_exist
    cfg app_name serializer_instance message_name is_request reg = (reg1, Ok name) →
  (∃ fields,
      message_of reg1 app_name name = Some fields
      ∧ register_serializer_as_message_if_not_exist
          cfg app_name serializer_instance message_name is_request reg1
        = (reg1, Ok name))
  ∧ (∀ other other_name other_request pk,
        serializer_pk_name other = Ok pk →
        registered_name cfg other other_name other_request = name →
        register_serializer_as_message_if_not_exist
          cfg app_name other other_name other_request reg1
        = (reg1, Ok name)).
Proof.
  intros H.
  destruct (register_serializer_ok_pk _ _ _ _ _ _ _ _ H) as [pk Hpk].
  apply register_serializer_registered in H as [-> [fields Hfields]].
  split.
  - exists fields. split; [done|]. eapply register_serializer_existing; eauto.
  - intros other other_name other_request pk' Hpk' Hname.
    rewrite <- Hname. eapply register_serializer_existing; [done|].
    rewrite Hname. eauto.
Qed.

Lemma register_serializer_twice_witness :
  let reg1 :=
    (register_serializer_as_message_if_not_exist
       Example.cfg "shop" Example.widget None false Example.shop).1 in
  message_of reg1 "shop" "WidgetResponse"
  = Some [("name", "string"); ("total", "int32"); ("size", "int32")]
  ∧ register_serializer_as_message_if_not_exist
      Example.cfg "shop" Example.widget None false reg1
    = (reg1, Ok "WidgetResponse").
Proof.
  intros reg1.
  assert (register_serializer_as_message_if_not_exist
            Example.cfg "shop" Example.widget None false Example.shop
          = (reg1, Ok "WidgetResponse")) as Hrun by (vm_compute; reflexivity).
  destruct (register_serializer_twice
              Example.cfg "shop" Example.widget None false Example.shop
              reg1 "WidgetResponse" Hrun)
    as [(fields & Hfields & Hagain) _].
  split; [vm_compute; reflexivity|exact Hagain].
Defined.

(** ** The repeated marker *)

Section repeated_facts.

Context (cfg : settings).
Import PyStr PyStrFacts.

Lemma type_mapping_values name proto_type :
  type_mapping cfg !! name = Some proto_type →
  startswith "repeated " proto_type = false.
Proof.
  unfold type_mapping.
  destruct (django_has_PositiveBigIntegerField cfg);
    rewrite ?lookup_insert; repeat case_decide; intros Hlookup;
    simplify_eq; try done;
    apply elem_of_list_to_map_2 in Hlookup;
    repeat (apply elem_of_cons in Hlookup as [Hlookup|Hlookup];
            [by simplify_eq|]);
    by apply elem_of_nil in Hlookup.
Qed.

Lemma type_mapping_get_not_repeated name fallback :
  startswith "repeated " fallback = false →
  startswith "repeated " (type_mapping_get cfg name fallback) = false.
Proof.
  intros Hfallback. unfold type_mapping_get.
  destruct (type_mapping cfg !! name) as [proto_type|] eqn:H; [|done].
  by eapply type_mapping_values.
Qed.

Lemma message_name_not_repeated f is_request append_type :
  has_space (class_name f) = false →
  startswith "repeated "
    (get_message_name_from_field_or_serializer_instance cfg f is_request append_type)
  = false.
Proof.
  intros Hname. apply not_true_is_false. intros H.
  apply startswith_repeated_has_space in H.
  unfold get_message_name_from_field_or_serializer_instance in H.
  assert (∀ suffix stripped,
             has_space suffix = false →
             (has_space stripped = true → has_space (class_name f) = true) →
             has_space (if SEPARATE_READ_WRITE_MODEL cfg && append_type
                        then stripped +:+ suffix else stripped) = true →
             False) as Hcase.
  { intros suffix stripped Hsuffix Hstripped Hsp.
    destruct (_ && _); [rewrite has_space_app, Hsuffix, orb_false_r in Hsp|];
      apply Hstripped in Hsp; congruence. }
  destruct (contains "ProtoSerializer" (class_name f));
    [|destruct (contains "Serializer" (class_name f))];
    (eapply Hcase; [|
       |exact H]); [by destruct is_request|apply rreplace_has_space
                   |by destruct is_request|apply rreplace_has_space
                   |by destruct is_request|done].
Qed.

Lemma startswith_false_at_most_one t :
  startswith "repeated " t = false → at_most_one_repeated t = true.
Proof.
  intros H. unfold at_most_one_repeated. apply negb_true_iff, not_true_is_false.
  intros Htwice. apply (startswith_app_l "repeated " "repeated ") in Htwice.
  congruence.
Qed.

Lemma wrapped_exactly_one t :
  startswith "repeated " t = false →
  exactly_one_repeated ("repeated " +:+ t) = true.
Proof.
  intros H. unfold exactly_one_repeated, at_most_one_repeated.
  change "repeated repeated " with ("repeated " +:+ "repeated ").
  by rewrite startswith_app, H, startswith_self.
Qed.

Lemma exactly_one_at_most_one t :
  exactly_one_repeated t = true → at_most_one_repeated t = true.
Proof. unfold exactly_one_repeated. by intros [_ ?]%andb_true_iff. Qed.

(** What the many relation branch does to the type of its child. *)
Lemma stripped_not_repeated t :
  at_most_one_repeated t = true →
  startswith "repeated "
    (if startswith "repeated " t then drop 9 t else t) = false.
Proof.
  intros H. destruct (startswith "repeated " t) eqn:Hstarts; [|done].
  apply startswith_split in Hstarts.
  change (String.length "repeated ") with 9 in Hstarts.
  unfold at_most_one_repeated in H. apply negb_true_iff in H.
  rewrite Hstarts in H.
  change "repeated repeated " with ("repeated " +:+ "repeated ") in H.
  by rewrite startswith_app in H.
Qed.

Lemma python_type_at_most_one t proto_type :
  python_type_to_proto_type t = Ok proto_type →
  at_most_one_repeated proto_type = true.
Proof. destruct t; intros [= <-]; reflexivity. Qed.

Lemma inspect_at_most_one f field_name serializer_instance proto_type :
  get_proto_type_from_inspect f field_name serializer_instance = Ok proto_type →
  at_most_one_repeated proto_type = true.
Proof.
  unfold get_proto_type_from_inspect. destruct f as [|cls attributes ? ? ?]; [done|].
  destruct (field_methods _ !! _) as [accessor|]; [|by intros [= <-]].
  destruct (return_annotation accessor); [|done].
  apply python_type_at_most_one.
Qed.

Lemma related_field_not_repeated f proto_type :
  get_pk_from_related_field cfg f = Ok proto_type →
  startswith "repeated " proto_type = false.
Proof.
  unfold get_pk_from_related_field. destruct f as [|cls attributes ? ? ?]; [done|].
  destruct (pk_field attributes) as [[pk|]|];
    [|destruct (queryset_model attributes)|];
    intros [= <-]; by apply type_mapping_get_not_repeated.
Qed.

Lemma slug_related_field_at_most_one f field_name serializer_instance proto_type :
  get_pk_from_slug_related_field cfg f field_name serializer_instance
  = Ok proto_type →
  at_most_one_repeated proto_type = true.
Proof.
  unfold get_pk_from_slug_related_field.
  destruct (field_Meta serializer_instance) as [serializer_meta|]; [|done].
  destruct (meta_model serializer_meta) as [m|]; [|by intros [= <-]].
  destruct (relationships m !! field_name) as [relation|]; [|by intros [= <-]].
  destruct f as [|cls attributes ? ? ?]; [done|].
  destruct (slug_field attributes) as [slug|]; [|done].
  destruct (related_model_fields relation !! slug) as [[slug_class|]|];
    [|done|by intros [= <-]].
  intros [= <-].
  pose proof (type_mapping_get_not_repeated
                slug_class "slug_field type not found" eq_refl) as Hnot.
  destruct (to_many relation).
  - by apply exactly_one_at_most_one, wrapped_exactly_one.
  - by apply startswith_false_at_most_one.
Qed.

Lemma resolved_as_many_relation cls :
  resolved_as cls = Some ManyRelatedField →
  issubclass cls ListProtoSerializer = false
  ∧ issubclass cls BaseProtoSerializer = false
  ∧ issubclass cls SlugRelatedField = false
  ∧ issubclass cls ManyRelatedField = true.
Proof.
  unfold resolved_as, resolution_order. cbn [List.find].
  destruct (issubclass cls ListProtoSerializer); [done|].
  destruct (issubclass cls BaseProtoSerializer); [done|].
  destruct (issubclass cls SlugRelatedField); [done|].
  destruct (issubclass cls ManyRelatedField); [done|].
  intros H. repeat case_match; simplify_eq.
Qed.

End repeated_facts.

(** C3: the type that resolving a field descriptor returns starts with at
    most one ["repeated "]; for a field resolved as a many relation it
    starts with exactly one, whatever the type of its child relation (that
    of a slug relation to many included). *)
Theorem resolved_type_repeated_once
    cfg app_name f field_name serializer_instance is_request reg reg' proto_type :
  field_descriptor f = true →
  get_proto_type cfg app_name f field_name serializer_instance is_request reg
  = (reg', Ok proto_type) →
  at_most_one_repeated proto_type = true
  ∧ (resolved_as (field_class f) = Some ManyRelatedField →
     exactly_one_repeated proto_type = true).
Proof.
  revert app_name field_name serializer_instance is_request reg reg' proto_type.
  induction f as [s|cls attributes child child_relation declared
                    _ IHrelation _] using field_induction;
    intros app_name field_name serializer_instance is_request reg reg' proto_type
           Hdescriptor H; [done|].
  cbn [field_descriptor] in Hdescriptor.
  apply andb_true_iff in Hdescriptor as [[Hcls Hchild]%andb_true_iff Hrelation].
  apply negb_true_iff in Hcls.
  cbn [get_proto_type] in H. cbn [field_class].
  destruct (issubclass cls ManyRelatedField) eqn:Hmany_class.
  2:{ split; [|intros (? & ? & ? & ?)%resolved_as_many_relation; congruence].
      destruct (issubclass cls ListProtoSerializer).
      { destruct child as [child|]; [|done].
        bind_inv H as reg1 name Hregister. pure_inv H.
        apply exactly_one_at_most_one, wrapped_exactly_one.
        apply message_name_not_repeated.
        destruct child as [|child_cls ? ? ? ?]; [done|].
        cbn [field_descriptor] in Hchild.
        by apply andb_true_iff in Hchild
          as [[?%negb_true_iff _]%andb_true_iff _]. }
      destruct (issubclass cls BaseProtoSerializer).
      { bind_inv H as reg1 name Hregister. pure_inv H.
        by apply startswith_false_at_most_one, message_name_not_repeated. }
      destruct (issubclass cls SlugRelatedField).
      { pure_inv H. by eapply slug_related_field_at_most_one. }
      destruct (issubclass cls RelatedField).
      { pure_inv H. by eapply startswith_false_at_most_one, related_field_not_repeated. }
      destruct (issubclass cls ListSerializer); [by pure_inv H|].
      destruct (issubclass cls ModelField).
      { destruct (model_field attributes); pure_inv H.
        by apply startswith_false_at_most_one, type_mapping_get_not_repeated. }
      destruct (issubclass cls ListField).
      { destruct child; pure_inv H.
        by apply exactly_one_at_most_one, wrapped_exactly_one,
                 type_mapping_get_not_repeated. }
      destruct (issubclass cls DictField); [by pure_inv H|].
      destruct (issubclass cls BaseSerializer); [by pure_inv H|].
      destruct (issubclass cls SerializerMethodField).
      { pure_inv H. by eapply inspect_at_most_one. }
      pure_inv H. by apply startswith_false_at_most_one, type_mapping_get_not_repeated. }
  destruct (issubclass cls ListProtoSerializer) eqn:Hlist.
  { split; [|intros (? & ? & ? & ?)%resolved_as_many_relation; congruence].
    destruct child as [child|]; [|done].
    bind_inv H as reg1 name Hregister. pure_inv H.
    apply exactly_one_at_most_one, wrapped_exactly_one.
    apply message_name_not_repeated.
    destruct child as [|child_cls ? ? ? ?]; [done|].
    cbn [field_descriptor] in Hchild.
    by apply andb_true_iff in Hchild as [[?%negb_true_iff _]%andb_true_iff _]. }
  destruct (issubclass cls BaseProtoSerializer) eqn:Hbase.
  { split; [|intros (? & ? & ? & ?)%resolved_as_many_relation; congruence].
    bind_inv H as reg1 name Hregister. pure_inv H.
    by apply startswith_false_at_most_one, message_name_not_repeated. }
  destruct (issubclass cls SlugRelatedField) eqn:Hslug.
  { split; [|intros (? & ? & ? & ?)%resolved_as_many_relation; congruence].
    pure_inv H. by eapply slug_related_field_at_most_one. }
  destruct child_relation as [relation|]; [|done].
  bind_inv H as reg1 child_proto_type Hchild_type. pure_inv H.
  destruct (IHrelation _ _ _ _ _ _ _ Hrelation Hchild_type) as [Hchild_once _].
  pose proof (wrapped_exactly_one _ (stripped_not_repeated _ Hchild_once)) as Honce.
  split; [by apply exactly_one_at_most_one|done].
Qed.

Lemma resolved_type_repeated_once_witness :
  get_proto_type Example.cfg "shop" Example.many_tags "tags"
                 Example.tagged_serializer false Example.shop
  = (Example.shop, Ok "repeated string")
  ∧ exactly_one_repeated "repeated string" = true.
Proof.
  split; [vm_compute; reflexivity|].
  apply (resolved_type_repeated_once
           Example.cfg "shop" Example.many_tags "tags" Example.tagged_serializer
           false Example.shop Example.shop "repeated string");
    vm_compute; reflexivity.
Defined.

(** ** The messages of the conventional methods *)

Section conventional_facts.

Context (cfg : settings).
Import PyStrFacts.

Lemma kept_message app_name exempt reg reg' name fields :
  kept app_name exempt reg reg' →
  Some name ≠ exempt →
  message_of reg app_name name = Some fields →
  message_of reg' app_name name = Some fields.
Proof. intros (_ & _ & Hkept). apply Hkept. Qed.

(** Every app has the controllers it had. *)
Lemma kept_controllers app_name exempt reg reg' :
  kept app_name exempt reg reg' →
  ∀ app, controllers_of reg' app = controllers_of reg app.
Proof.
  intros (Hother & Hcontrollers & _) app.
  destruct (decide (app = app_name)) as [->|Hne]; [done|].
  unfold controllers_of. by rewrite Hother.
Qed.

Lemma set_message_ok app_name name fields reg reg' r :
  set_message app_name name fields reg = (reg', r) →
  is_Some (reg !! app_name) →
  r = Ok tt.
Proof.
  intros [(a & _ & -> & _)|(Hnone & _)]%set_message_inv [a' Ha]; [done|congruence].
Qed.

Lemma register_list_message_inv app_name service_instance base_name
    list_response_field_name child_response_message_name message_name is_request
    reg reg' r :
  register_list_message_of_serializer cfg app_name service_instance base_name
    list_response_field_name child_response_message_name message_name is_request
    reg = (reg', r) →
  let name := list_message_name cfg base_name message_name is_request in
  kept app_name (Some name) reg reg'
  ∧ (∀ returned, r = Ok returned →
       returned = name
       ∧ message_of reg' app_name name
         = Some ([(list_response_field_name,
                   "repeated " +:+ child_response_message_name)]
                 ++ (if pagination_enabled cfg service_instance
                     then [("count", "int32")] else []))).
Proof.
  intros H name. unfold register_list_message_of_serializer in H.
  bind_inv H as reg1 u Hset.
  - pure_inv H. split; [by eapply set_message_kept|].
    intros ? [= <-]. split; [done|]. destruct u. by eapply set_message_stored.
  - split; [by eapply set_message_kept|done].
Qed.

(** The list method: both messages are assigned, whatever was stored
    under their names. *)
Lemma register_list_serializer_inv app_name service_instance serializer_instance
    reg reg' request_message_name response_message_name :
  register_list_serializer_as_message cfg app_name service_instance
    serializer_instance reg
  = (reg', Ok (request_message_name, response_message_name)) →
  let serializer_name :=
    get_message_name_from_field_or_serializer_instance
      cfg serializer_instance false false in
  request_message_name = serializer_name +:+ "ListRequest"
  ∧ response_message_name = serializer_name +:+ "ListResponse"
  ∧ message_of reg' app_name request_message_name = Some []
  ∧ message_of reg' app_name response_message_name
    = Some ([(get_list_response_field_name_from_serializer_instance
                serializer_instance,
              "repeated " +:+ registered_name cfg serializer_instance None false)]
            ++ (if pagination_enabled cfg service_instance
                then [("count", "int32")] else [])).
Proof.
  intros H serializer_name. unfold register_list_serializer_as_message in H.
  fold serializer_name in H.
  bind_inv H as reg1 child Hchild.
  apply register_serializer_registered in Hchild as [-> _].
  bind_inv H as reg2 u Hrequest. destruct u.
  apply set_message_stored in Hrequest.
  bind_inv H as reg3 response Hresponse. pure_inv H.
  apply register_list_message_inv in Hresponse as [Hkept Hresponse].
  destruct (Hresponse _ eq_refl) as [-> Hstored].
  repeat split; [|done].
  eapply kept_message; [done| |done].
  intros [= Heq]. by apply append_inj_l in Heq.
Qed.

(** The retrieve method: the request message is assigned the lookup
    field, whatever was stored under its name, and the registration of
    the response message that follows keeps it. *)
Lemma register_retrieve_serializer_inv app_name service_instance
    serializer_instance retrieve_field_name reg reg' r lookup_field :
  get_lookup_field_from_serializer cfg serializer_instance service_instance
                                   retrieve_field_name = Ok lookup_field →
  is_Some (reg !! app_name) →
  register_retrieve_serializer_as_message cfg app_name service_instance
    serializer_instance retrieve_field_name reg = (reg', r) →
  let request_message_name :=
    get_message_name_from_field_or_serializer_instance
      cfg serializer_instance false false +:+ "RetrieveRequest" in
  message_of reg' app_name request_message_name = Some [lookup_field]
  ∧ ∀ names, r = Ok names → names.1 = request_message_name.
Proof.
  intros Hlookup Happ H name. unfold register_retrieve_serializer_as_message in H.
  rewrite Hlookup in H.
  bind_inv H as reg1 found Hfound; pure_inv Hfound.
  bind_inv H as reg2 u Hrequest;
    pose proof (set_message_ok _ _ _ _ _ _ Hrequest Happ) as Hok; [|done].
  destruct u. apply set_message_stored in Hrequest.
  bind_inv H as reg3 response Hresponse;
    apply register_serializer_kept in Hresponse.
  - pure_inv H. split; [by eapply kept_message|]. by intros ? [= <-].
  - split; [by eapply kept_message|done].
Qed.

Lemma register_destroy_serializer_inv app_name service_instance
    serializer_instance destroy_field_name reg reg' r lookup_field :
  get_lookup_field_from_serializer cfg serializer_instance service_instance
                                   destroy_field_name = Ok lookup_field →
  is_Some (reg !! app_name) →
  register_destroy_serializer_as_message cfg app_name service_instance
    serializer_instance destroy_field_name reg = (reg', r) →
  let request_message_name :=
    get_message_name_from_field_or_serializer_instance
      cfg serializer_instance false false +:+ "DestroyRequest" in
  message_of reg' app_name request_message_name = Some [lookup_field]
  ∧ r = Ok (request_message_name, "google.protobuf.Empty").
Proof.
  intros Hlookup Happ H name. unfold register_destroy_serializer_as_message in H.
  rewrite Hlookup in H.
  bind_inv H as reg1 found Hfound; pure_inv Hfound.
  bind_inv H as reg2 u Hrequest;
    pose proof (set_message_ok _ _ _ _ _ _ Hrequest Happ) as Hok; [|done].
  destruct u. apply set_message_stored in Hrequest. by pure_inv H.
Qed.

Lemma register_stream_serializer_inv app_name serializer_instance reg reg' r :
  is_Some (reg !! app_name) →
  register_stream_serializer_as_message cfg app_name serializer_instance reg
  = (reg', r) →
  let request_message_name :=
    get_message_name_from_field_or_serializer_instance
      cfg serializer_instance false false +:+ "StreamRequest" in
  message_of reg' app_name request_message_name = Some []
  ∧ ∀ names, r = Ok names → names.1 = request_message_name.
Proof.
  intros Happ H name. unfold register_stream_serializer_as_message in H.
  bind_inv H as reg2 u Hrequest;
    pose proof (set_message_ok _ _ _ _ _ _ Hrequest Happ) as Hok; [|done].
  destruct u. apply set_message_stored in Hrequest.
  bind_inv H as reg3 response Hresponse;
    apply register_serializer_kept in Hresponse.
  - pure_inv H. split; [by eapply kept_message|]. by intros ? [= <-].
  - split; [by eapply kept_message|done].
Qed.

(** A lookup field that the serializer lacks is a registration error that
    names the field and the serializer. *)
Lemma get_lookup_field_missing serializer_instance service_instance field_name
    fields :
  serializer_fields serializer_instance = Ok fields →
  fields_lookup
    (default (get_lookup_request_field service_instance) field_name) fields
  = None →
  get_lookup_field_from_serializer cfg serializer_instance service_instance
                                   field_name
  = Raise (RegisterServiceException
             (lookup_field_missing
                (default (get_lookup_request_field service_instance) field_name)
                (class_name serializer_instance))).
Proof.
  intros Hfields Hlookup. unfold get_lookup_field_from_serializer.
  rewrite Hfields.
  by destruct field_name; simpl in *; rewrite Hlookup.
Qed.

Lemma get_lookup_field_found serializer_instance service_instance field_name
    fields lookup_field :
  serializer_fields serializer_instance = Ok fields →
  fields_lookup
    (default (get_lookup_request_field service_instance) field_name) fields
  = Some lookup_field →
  get_lookup_field_from_serializer cfg serializer_instance service_instance
                                   field_name
  = Ok (default (get_lookup_request_field service_instance) field_name,
        type_mapping_get cfg (class_name lookup_field)
                         "lookup_field_type_not_found").
Proof.
  intros Hfields Hlookup. unfold get_lookup_field_from_serializer.
  rewrite Hfields.
  by destruct field_name; simpl in *; rewrite Hlookup.
Qed.

Lemma lookup_field_missing_mentions field_name serializer_class :
  PyStr.mentions (lookup_field_missing field_name serializer_class) field_name
  ∧ PyStr.mentions (lookup_field_missing field_name serializer_class)
                   serializer_class.
Proof.
  unfold lookup_field_missing. split.
  - apply mentions_middle.
  - rewrite <- append_assoc, <- append_assoc. apply mentions_end.
Qed.

End conventional_facts.

(** C4: with separate request and response models, the list method of a
    service whose serializer is [WidgetSerializer] (with no
    [message_list_attr]) gets the request message [WidgetListRequest], with
    no field, and the response message [WidgetListResponse], whose first
    field is [results] of type [repeated WidgetResponse], followed by the
    [int32] field [count] exactly when pagination is enabled: when the
    service has a pagination class or the settings have a default one. *)
Theorem list_method_messages
    cfg app_name service_instance reg reg' request_message_name
    response_message_name :
  let serializer_instance :=
    get_serializer_class service_instance KnowMethods.LIST in
  SEPARATE_READ_WRITE_MODEL cfg = true →
  class_name serializer_instance = "WidgetSerializer" →
  (∀ serializer_meta,
      field_Meta serializer_instance = Some serializer_meta →
      message_list_attr serializer_meta = None) →
  register_default_message_from_method
    cfg app_name KnowMethods.LIST service_instance reg
  = (reg', Ok (request_message_name, response_message_name)) →
  request_message_name = "WidgetListRequest"
  ∧ message_of reg' app_name request_message_name = Some []
  ∧ response_message_name = "WidgetListResponse"
  ∧ message_of reg' app_name response_message_name
    = Some (("results", "repeated WidgetResponse")
            :: (if pagination_enabled cfg service_instance
                then [("count", "int32")] else []))
  ∧ (pagination_enabled cfg service_instance = true
     ↔ is_Some (pagination_class service_instance)
       ∨ is_Some (DEFAULT_PAGINATION_CLASS cfg)).
Proof.
  intros serializer_instance Hseparate Hclass Hattr H.
  change (register_list_serializer_as_message
            cfg app_name service_instance serializer_instance reg
          = (reg', Ok (request_message_name, response_message_name))) in H.
  apply register_list_serializer_inv in H as (-> & -> & Hrequest & Hresponse).
  assert (get_message_name_from_field_or_serializer_instance
            cfg serializer_instance false false = "Widget") as Hname.
  { unfold get_message_name_from_field_or_serializer_instance.
    by rewrite Hclass, Hseparate. }
  assert (registered_name cfg serializer_instance None false = "WidgetResponse")
    as Hchild.
  { unfold registered_name, get_message_name_from_field_or_serializer_instance.
    by rewrite Hclass, Hseparate. }
  assert (get_list_response_field_name_from_serializer_instance serializer_instance
          = "results") as Hresults.
  { unfold get_list_response_field_name_from_serializer_instance.
    destruct (field_Meta serializer_instance) as [serializer_meta|]; [|done].
    by rewrite (Hattr _ eq_refl). }
  rewrite Hname, Hchild, Hresults in *.
  repeat split; try done.
  - unfold pagination_enabled. destruct (pagination_class service_instance).
    + left. eauto.
    + intros ?%bool_decide_eq_true. by right.
  - unfold pagination_enabled. intros [[? Hsome]|Hsome].
    + by rewrite Hsome.
    + destruct (pagination_class service_instance); [done|].
      by apply bool_decide_eq_true.
Qed.

Lemma list_method_messages_witness :
  let reg' :=
    (register_default_message_from_method
       Example.cfg "shop" "List"
       (Example.widget_service (Some "PageNumberPagination")) Example.shop).1 in
  message_of reg' "shop" "WidgetListRequest" = Some []
  ∧ message_of reg' "shop" "WidgetListResponse"
    = Some [("results", "repeated WidgetResponse"); ("count", "int32")].
Proof.
  destruct (list_method_messages
              Example.cfg "shop"
              (Example.widget_service (Some "PageNumberPagination")) Example.shop
              _ "WidgetListRequest" "WidgetListResponse"
              eq_refl eq_refl
              ltac:(by intros ? [= <-])
              ltac:(vm_compute; reflexivity))
    as (_ & Hrequest & _ & Hresponse & _).
  split; [exact Hrequest|exact Hresponse].
Defined.

(** Without a pagination class, of the service or of the settings, the
    response of the list method has no [count]. *)
Example list_method_without_pagination :
  let reg' :=
    (register_default_message_from_method
       Example.cfg "shop" "List" (Example.widget_service None) Example.shop).1 in
  message_of reg' "shop" "WidgetListResponse"
  = Some [("results", "repeated WidgetResponse")].
Proof. vm_compute. reflexivity. Qed.

(** C7: when the lookup field of the service is not among the [fields] of
    the serializer, registering the retrieve or the destroy method raises a
    registration error whose message names the field and the serializer,
    and registers nothing; when it is, the request message of the method
    has that field and no other.  The [fields] of the serializer are those
    of [get_fields()], bound to the serializer. *)
Theorem lookup_field_of_retrieve_and_destroy
    cfg app_name method service_instance fields reg reg' r :
  let serializer_instance := get_serializer_class service_instance method in
  let field_name := get_lookup_request_field service_instance in
  method = KnowMethods.RETRIEVE ∨ method = KnowMethods.DESTROY →
  serializer_fields serializer_instance = Ok fields →
  register_default_message_from_method cfg app_name method service_instance reg
  = (reg', r) →
  (fields_lookup field_name fields = None →
   reg' = reg
   ∧ ∃ msg, r = Raise (RegisterServiceException msg)
            ∧ PyStr.mentions msg field_name
            ∧ PyStr.mentions msg (class_name serializer_instance))
  ∧ (∀ lookup_field,
        fields_lookup field_name fields = Some lookup_field →
        is_Some (reg !! app_name) →
        let request_message_name :=
          get_message_name_from_field_or_serializer_instance
            cfg serializer_instance false false +:+ method +:+ "Request" in
        (∃ proto_type,
            message_of reg' app_name request_message_name
            = Some [(field_name, proto_type)])
        ∧ ∀ names, r = Ok names → names.1 = request_message_name).
Proof.
  intros serializer_instance field_name Hmethod Hfields H. split.
  - intros Hmissing.
    pose proof (get_lookup_field_missing cfg serializer_instance service_instance
                  None fields Hfields Hmissing) as Hraise.
    assert (reg' = reg
            ∧ r = Raise (RegisterServiceException
                           (lookup_field_missing
                              field_name (class_name serializer_instance))))
      as [-> ->].
    { destruct Hmethod as [-> | ->].
      - change (register_retrieve_serializer_as_message
                  cfg app_name service_instance serializer_instance None reg
                = (reg', r)) in H.
        unfold register_retrieve_serializer_as_message in H.
        rewrite Hraise in H. by injection H as <- <-.
      - change (register_destroy_serializer_as_message
                  cfg app_name service_instance serializer_instance None reg
                = (reg', r)) in H.
        unfold register_destroy_serializer_as_message in H.
        rewrite Hraise in H. by injection H as <- <-. }
    split; [done|]. eexists. split; [done|].
    apply lookup_field_missing_mentions.
  - intros lookup_field Hfound Happ request_message_name.
    pose proof (get_lookup_field_found cfg serializer_instance service_instance
                  None fields lookup_field Hfields Hfound) as Hlookup.
    destruct Hmethod as [-> | ->].
    + change (register_retrieve_serializer_as_message
                cfg app_name service_instance serializer_instance None reg
              = (reg', r)) in H.
      apply (register_retrieve_serializer_inv _ _ _ _ _ _ _ _ _ Hlookup Happ)
        in H as [Hstored Hname].
      split; [|done]. eexists. exact Hstored.
    + change (register_destroy_serializer_as_message
                cfg app_name service_instance serializer_instance None reg
              = (reg', r)) in H.
      apply (register_destroy_serializer_inv _ _ _ _ _ _ _ _ _ Hlookup Happ)
        in H as [Hstored ->].
      split; [|by intros ? [= <-]]. eexists. exact Hstored.
Qed.

Lemma lookup_field_of_retrieve_and_destroy_witness :
  let outcome :=
    register_default_message_from_method
      Example.cfg "shop" "Retrieve" (Example.widget_service None) Example.shop in
  ∃ proto_type,
    message_of outcome.1 "shop" "WidgetRetrieveRequest"
    = Some [("name", proto_type)].
Proof.
  intros outcome.
  destruct (lookup_field_of_retrieve_and_destroy
              Example.cfg "shop" "Retrieve" (Example.widget_service None)
              Example.widget_fields Example.shop outcome.1 outcome.2
              ltac:(by left) eq_refl ltac:(vm_compute; reflexivity))
    as [_ Hfound].
  destruct (Hfound (Example.leaf "CharField" []) eq_refl ltac:(by eexists))
    as [Hstored _].
  exact Hstored.
Defined.

(** The retrieve method of the widget service: its two messages. *)
Example retrieve_method_of_widget :
  let outcome :=
    register_default_message_from_method
      Example.cfg "shop" "Retrieve" (Example.widget_service None) Example.shop in
  message_of outcome.1 "shop" "WidgetRetrieveRequest" = Some [("name", "string")]
  ∧ outcome.2 = Ok ("WidgetRetrieveRequest", "WidgetResponse").
Proof. split; vm_compute; reflexivity. Qed.

(** A lookup field that [WidgetSerializer] lacks: the error of the retrieve
    method, and the registry left as it was. *)
Example lookup_field_missing_from_widget :
  let service_instance :=
    {| service_module := "shop.services";
       get_service_name := "Widget";
       service_methods := KnowMethods.get_as_list;
       get_serializer_class := fun _ => Example.widget;
       get_lookup_request_field := "uuid";
       pagination_class := None |} in
  register_default_message_from_method
    Example.cfg "shop" "Retrieve" service_instance Example.shop
  = (Example.shop,
     Raise (RegisterServiceException
              "Trying to build a Retrieve or Destroy request with retrieve field named: uuid but this field is not existing in the serializer: WidgetSerializer")).
Proof. vm_compute. reflexivity. Qed.

(** A serializer whose [get_fields()] holds a [str] has no [fields]: binding
    the [str] is an [AttributeError], which the retrieve and the destroy
    methods raise before they look for the lookup field; they register
    nothing. *)
Example lookup_field_of_unbound_fields :
  let serializer_instance :=
    PyField Example.widget_class (Example.serializer_attrs ∅) None None
            [ ("name", Example.leaf "CharField" []);
              ("price", PyStrField "double") ] in
  let service_instance :=
    {| service_module := "shop.services";
       get_service_name := "Widget";
       service_methods := KnowMethods.get_as_list;
       get_serializer_class := fun _ => serializer_instance;
       get_lookup_request_field := "name";
       pagination_class := None |} in
  get_fields serializer_instance
  = Ok [("name", Example.leaf "CharField" []); ("price", PyStrField "double")]
  ∧ serializer_fields serializer_instance = Raise (AttributeError "bind")
  ∧ register_default_message_from_method
      Example.cfg "shop" "Retrieve" service_instance Example.shop
    = (Example.shop, Raise (AttributeError "bind"))
  ∧ register_default_message_from_method
      Example.cfg "shop" "Destroy" service_instance Example.shop
    = (Example.shop, Raise (AttributeError "bind")).
Proof. repeat split; vm_compute; reflexivity. Qed.

(** C10: the messages that the conventional methods make themselves (the
    request of the list, retrieve, destroy and stream methods, and the
    response of the list method) are assigned under their name whatever the
    registry holds there, so a later registration replaces the field list
    of an earlier one; a message made from a serializer keeps the field
    list it was first given. *)
Theorem conventional_messages_are_assigned
    cfg app_name service_instance serializer_instance reg :
  is_Some (reg !! app_name) →
  let serializer_name :=
    get_message_name_from_field_or_serializer_instance
      cfg serializer_instance false false in
  (∀ reg' names,
      register_list_serializer_as_message
        cfg app_name service_instance serializer_instance reg = (reg', Ok names) →
      names.1 = serializer_name +:+ "ListRequest"
      ∧ message_of reg' app_name names.1 = Some []
      ∧ names.2 = serializer_name +:+ "ListResponse"
      ∧ message_of reg' app_name names.2
        = Some ([(get_list_response_field_name_from_serializer_instance
                    serializer_instance,
                  "repeated " +:+ registered_name cfg serializer_instance None false)]
                ++ (if pagination_enabled cfg service_instance
                    then [("count", "int32")] else [])))
  ∧ (∀ lookup_field reg' names,
        get_lookup_field_from_serializer cfg serializer_instance service_instance
                                         None = Ok lookup_field →
        register_retrieve_serializer_as_message
          cfg app_name service_instance serializer_instance None reg
        = (reg', Ok names) →
        names.1 = serializer_name +:+ "RetrieveRequest"
        ∧ message_of reg' app_name names.1 = Some [lookup_field])
  ∧ (∀ lookup_field reg' names,
        get_lookup_field_from_serializer cfg serializer_instance service_instance
                                         None = Ok lookup_field →
        register_destroy_serializer_as_message
          cfg app_name service_instance serializer_instance None reg
        = (reg', Ok names) →
        names.1 = serializer_name +:+ "DestroyRequest"
        ∧ message_of reg' app_name names.1 = Some [lookup_field])
  ∧ (∀ reg' names,
        register_stream_serializer_as_message cfg app_name serializer_instance reg
        = (reg', Ok names) →
        names.1 = serializer_name +:+ "StreamRequest"
        ∧ message_of reg' app_name names.1 = Some [])
  ∧ (∀ message_name is_request reg' name fields,
        register_serializer_as_message_if_not_exist
          cfg app_name serializer_instance message_name is_request reg
        = (reg', Ok name) →
        message_of reg app_name name = Some fields →
        message_of reg' app_name name = Some fields).
Proof.
  intros Happ serializer_name. split; [|split; [|split; [|split]]].
  - intros reg' [request_message_name response_message_name] H.
    by apply register_list_serializer_inv in H as (-> & -> & ? & ?).
  - intros lookup_field reg' names Hlookup H.
    apply (register_retrieve_serializer_inv _ _ _ _ _ _ _ _ _ Hlookup Happ) in H
      as [Hstored Hname].
    by rewrite (Hname _ eq_refl).
  - intros lookup_field reg' names Hlookup H.
    apply (register_destroy_serializer_inv _ _ _ _ _ _ _ _ _ Hlookup Happ) in H
      as [Hstored Hnames].
    injection Hnames as ->. done.
  - intros reg' names H.
    apply (register_stream_serializer_inv _ _ _ _ _ _ Happ) in H
      as [Hstored Hname].
    by rewrite (Hname _ eq_refl).
  - intros message_name is_request reg' name fields H Hfields.
    apply register_serializer_kept in H. by eapply kept_message.
Qed.

Lemma conventional_messages_are_assigned_witness :
  let reg :=
    (register_message_for_custom_action
       Example.cfg "shop" "Widget" "Search"
       (SpecList [("query", "string")]) true (Some "WidgetListRequest")
       Example.shop).1 in
  let reg' :=
    (register_list_serializer_as_message
       Example.cfg "shop" (Example.widget_service None) Example.widget reg).1 in
  message_of reg "shop" "WidgetListRequest" = Some [("query", "string")]
  ∧ message_of reg' "shop" "WidgetListRequest" = Some [].
Proof.
  intros reg reg'. split; [vm_compute; reflexivity|].
  destruct (conventional_messages_are_assigned
              Example.cfg "shop" (Example.widget_service None) Example.widget reg
              ltac:(vm_compute; by eexists))
    as [Hlist _].
  destruct (Hlist reg' ("WidgetListRequest", "WidgetListResponse")
                  ltac:(vm_compute; reflexivity))
    as (_ & Hrequest & _).
  exact Hrequest.
Defined.

(** ** Degraded and failed resolutions *)

(** Decides the tests of [get_proto_type] from the kind a class is
    resolved as. *)
Ltac resolve_kind H :=
  unfold resolved_as, resolution_order in H; cbn [List.find] in H;
  cbn [get_proto_type];
  repeat match type of H with
         | context [issubclass ?cls ?k] =>
             destruct (issubclass cls k); try discriminate H
         end.

(** C9: for a field resolved as a [SerializerMethodField], when the
    serializer has no accessor of the expected name the type is ["string"]
    and nothing is raised; the registration error for a missing return
    annotation is raised exactly when the accessor exists and has no
    return annotation. *)
Theorem method_field_accessor
    cfg app_name cls a child child_relation declared field_name
    serializer_instance is_request reg :
  let field_type := PyField cls a child child_relation declared in
  let accessor := field_methods serializer_instance !! accessor_name a field_name in
  resolved_as cls = Some SerializerMethodField →
  (accessor = None →
   get_proto_type cfg app_name field_type field_name serializer_instance
                  is_request reg
   = (reg, Ok "string"))
  ∧ (∀ reg' msg,
        get_proto_type cfg app_name field_type field_name serializer_instance
                       is_request reg
        = (reg', Raise (RegisterServiceException msg))
        ↔ reg' = reg
          ∧ msg = missing_return_annotation (class_name serializer_instance)
                                            field_name
          ∧ ∃ method, accessor = Some method ∧ return_annotation method = None).
Proof.
  intros field_type accessor Hkind.
  assert (get_proto_type cfg app_name field_type field_name serializer_instance
                         is_request reg
          = (reg,
             match accessor with
             | None => Ok "string"
             | Some method =>
                 match return_annotation method with
                 | None =>
                     Raise (RegisterServiceException
                              (missing_return_annotation
                                 (class_name serializer_instance) field_name))
                 | Some t => python_type_to_proto_type t
                 end
             end)) as ->.
  { unfold field_type, accessor, accessor_name. resolve_kind Hkind.
    unfold lift, get_proto_type_from_inspect. by destruct (method_name a). }
  split.
  - by intros ->.
  - intros reg' msg. split.
    + intros [= <- Hraise]. split; [done|].
      destruct accessor as [method|]; [|done].
      destruct (return_annotation method) as [t|] eqn:Hannotation.
      * by destruct t.
      * injection Hraise as <-. eauto.
    + intros (-> & -> & method & -> & ->). done.
Qed.

Lemma method_field_accessor_witness :
  get_proto_type Example.cfg "shop"
    (Example.read_only_leaf "SerializerMethodField" [SerializerMethodField])
    "price" Example.widget false Example.shop
  = (Example.shop, Ok "string").
Proof.
  apply (method_field_accessor
           Example.cfg "shop"
           {| cls_name := "SerializerMethodField";
              cls_bases := [SerializerMethodField] |}
           Example.read_only_attrs None None [] "price" Example.widget false
           Example.shop);
    vm_compute; reflexivity.
Defined.

(** The registration error of an accessor without return annotation. *)
Example method_field_without_annotation :
  ∃ msg,
    get_proto_type Example.cfg "shop"
      (Example.read_only_leaf "SerializerMethodField" [SerializerMethodField])
      "total" Example.unannotated_widget false Example.shop
    = (Example.shop, Raise (RegisterServiceException msg))
    ∧ PyStr.mentions msg "total" ∧ PyStr.mentions msg "WidgetSerializer".
Proof.
  eexists. split; [vm_compute; reflexivity|].
  split; [by exists "You are trying to register the serializer WidgetSerializer with a SerializerMethodField on the field ", ". But the method associated does'nt have a return annotations. Please look at the example: https://github.com/socotecio/django-socio-grpc/blob/master/django_socio_grpc/tests/fakeapp/serializers.py#L83. And the python doc: https://docs.python.org/3.8/library/typing.html"|].
  by exists "You are trying to register the serializer ", " with a SerializerMethodField on the field total. But the method associated does'nt have a return annotations. Please look at the example: https://github.com/socotecio/django-socio-grpc/blob/master/django_socio_grpc/tests/fakeapp/serializers.py#L83. And the python doc: https://docs.python.org/3.8/library/typing.html".
Qed.

(** C6, as the code has it: a type identifier that the vocabulary lacks
    raises no error wherever the vocabulary is consulted, and gives
    ["string"] for a field resolved by its own class, for the model field of
    a [ModelField] and for the child of a [ListField]; it gives
    ["related_not_found"] for the primary key of a plain relation that has
    a [pk_field] attribute (the identifier is the class of its [pk_field],
    or of the primary key of the model of its queryset when [pk_field] is
    [None]), ["slug_field type not found"] for the target of a slug
    relation (the class of the [field] of the slug attribute of the related
    model), and ["lookup_field_type_not_found"] for the lookup field of the
    retrieve and destroy methods, found in the [fields] of the serializer. *)
Theorem unknown_type_identifier cfg unknown :
  type_mapping cfg !! unknown = None →
  (∀ app_name cls a child child_relation declared field_name serializer_instance
     is_request reg,
      resolved_as cls = None →
      cls_name cls = unknown →
      get_proto_type cfg app_name (PyField cls a child child_relation declared)
                     field_name serializer_instance is_request reg
      = (reg, Ok "string"))
  ∧ (∀ app_name cls a child child_relation declared field_name
       serializer_instance is_request reg inner,
        resolved_as cls = Some ModelField →
        model_field a = Some inner →
        cls_name inner = unknown →
        get_proto_type cfg app_name (PyField cls a child child_relation declared)
                       field_name serializer_instance is_request reg
        = (reg, Ok "string"))
  ∧ (∀ app_name cls a child child_relation declared field_name
       serializer_instance is_request reg,
        resolved_as cls = Some ListField →
        class_name <$> child = Some unknown →
        get_proto_type cfg app_name (PyField cls a child child_relation declared)
                       field_name serializer_instance is_request reg
        = (reg, Ok "repeated string"))
  ∧ (∀ app_name cls a child child_relation declared field_name
       serializer_instance is_request reg,
        resolved_as cls = Some RelatedField →
        match pk_field a with
        | Some (Some pk) => Some (cls_name pk)
        | Some None => pk_class <$> queryset_model a
        | None => None
        end = Some unknown →
        get_proto_type cfg app_name (PyField cls a child child_relation declared)
                       field_name serializer_instance is_request reg
        = (reg, Ok "related_not_found"))
  ∧ (∀ app_name cls a child child_relation declared field_name
       serializer_instance is_request reg serializer_meta m relation slug,
        resolved_as cls = Some SlugRelatedField →
        field_Meta serializer_instance = Some serializer_meta →
        meta_model serializer_meta = Some m →
        relationships m !! field_name = Some relation →
        slug_field a = Some slug →
        related_model_fields relation !! slug = Some (Some unknown) →
        get_proto_type cfg app_name (PyField cls a child child_relation declared)
                       field_name serializer_instance is_request reg
        = (reg, Ok (if to_many relation
                    then "repeated slug_field type not found"
                    else "slug_field type not found")))
  ∧ (∀ serializer_instance service_instance field_name fields lookup_field,
        serializer_fields serializer_instance = Ok fields →
        fields_lookup
          (default (get_lookup_request_field service_instance) field_name) fields
        = Some lookup_field →
        class_name lookup_field = unknown →
        get_lookup_field_from_serializer cfg serializer_instance service_instance
                                         field_name
        = Ok (default (get_lookup_request_field service_instance) field_name,
              "lookup_field_type_not_found")).
Proof.
  intros Hunknown.
  assert (∀ fallback, type_mapping_get cfg unknown fallback = fallback) as Hget.
  { intros fallback. unfold type_mapping_get. by rewrite Hunknown. }
  repeat split.
  - intros ?????????? Hkind <-. resolve_kind Hkind. by rewrite Hget.
  - intros ??????????? Hkind Hinner <-. resolve_kind Hkind.
    by rewrite Hinner, Hget.
  - intros ?????????? Hkind Hchild. resolve_kind Hkind.
    destruct child as [child|]; [|done]. injection Hchild as Hchild.
    by rewrite Hchild, Hget.
  - intros ?????????? Hkind Hpk. resolve_kind Hkind.
    unfold lift, get_pk_from_related_field.
    destruct (pk_field a) as [[pk|]|]; [| |done].
    + injection Hpk as ->. by rewrite Hget.
    + destruct (queryset_model a) as [m|]; [|done].
      injection Hpk as ->. by rewrite Hget.
  - intros ?????????????? Hkind Hmeta Hmodel Hrelation Hslug Hrelated.
    resolve_kind Hkind. unfold lift, get_pk_from_slug_related_field.
    rewrite Hmeta, Hmodel, Hrelation, Hslug, Hrelated, Hget.
    by destruct (to_many relation).
  - intros ????? Hfields Hfound <-.
    by rewrite (get_lookup_field_found _ _ _ _ _ _ Hfields Hfound), Hget.
Qed.

Lemma unknown_type_identifier_witness :
  get_proto_type Example.cfg "shop" (Example.leaf "MoneyField" []) "price"
                 Example.widget true Example.shop
  = (Example.shop, Ok "string").
Proof.
  destruct (unknown_type_identifier Example.cfg "MoneyField"
              ltac:(vm_compute; reflexivity)) as [Hown _].
  apply Hown; vm_compute; reflexivity.
Defined.

(** A relation that has no [pk_field] attribute raises the
    [AttributeError] of reading it, whatever its queryset and the
    vocabulary. *)
Example related_field_without_pk_field :
  let related_field :=
    PyField {| cls_name := "HyperlinkedRelatedField";
               cls_bases := [RelatedField] |}
      {| read_only := false; write_only := false; pk_field := None;
         queryset_model := Some Example.tagged; model_field := None;
         slug_field := None; method_name := None; Meta := None;
         methods := ∅ |}
      None None [] in
  get_proto_type Example.cfg "shop" related_field "owner" Example.widget true
                 Example.shop
  = (Example.shop, Raise (AttributeError "pk_field")).
Proof. vm_compute. reflexivity. Qed.

(** C6, as stated, fails: a relation by primary key whose [pk_field] is of
    a class that the vocabulary lacks does not resolve to ["string"]. *)
Lemma unknown_pk_field_is_not_string :
  let related_field :=
    PyField {| cls_name := "PrimaryKeyRelatedField"; cls_bases := [RelatedField] |}
      {| read_only := false; write_only := false;
         pk_field := Some (Some {| cls_name := "MoneyField"; cls_bases := [] |});
         queryset_model := Some Example.tagged; model_field := None;
         slug_field := None;
         method_name := None; Meta := None; methods := ∅ |}
      None None [] in
  type_mapping Example.cfg !! "MoneyField" = None
  ∧ get_proto_type Example.cfg "shop" related_field "owner" Example.widget true
                   Example.shop
    = (Example.shop, Ok "related_not_found")
  ∧ get_proto_type Example.cfg "shop" related_field "owner" Example.widget true
                   Example.shop
    ≠ (Example.shop, Ok "string").
Proof. repeat split; [vm_compute; reflexivity..|]. vm_compute. discriminate. Qed.

(** ** Controllers and methods *)

Create HintDb controllers discriminated.

Section controller_facts.

Context (cfg : settings).

Lemma keeps_controllers_ret {A} (a : A) : keeps_controllers (ret a).
Proof. by intros reg reg' r [= <- _]. Qed.

Lemma keeps_controllers_raise {A} e : keeps_controllers (@raise A e).
Proof. by intros reg reg' r [= <- _]. Qed.

Lemma keeps_controllers_lift {A} (x : result A) : keeps_controllers (lift x).
Proof. by intros reg reg' r [= <- _]. Qed.

Lemma keeps_controllers_bind {A B} (m : M A) (k : A → M B) :
  keeps_controllers m → (∀ a, keeps_controllers (k a)) →
  keeps_controllers (bind m k).
Proof.
  intros Hm Hk reg reg' r H app.
  apply bind_inv in H as [(reg1 & a & Hfirst & Hthen)|(e & Hfirst & _)].
  - by rewrite (Hk _ _ _ _ Hthen), (Hm _ _ _ Hfirst).
  - by rewrite (Hm _ _ _ Hfirst).
Qed.

Lemma keeps_controllers_kept {A} (m : M A) app_name :
  (∀ reg reg' r, m reg = (reg', r) → ∃ exempt, kept app_name exempt reg reg') →
  keeps_controllers m.
Proof.
  intros Hkept reg reg' r H. destruct (Hkept _ _ _ H) as [exempt Hk].
  by eapply kept_controllers.
Qed.

Lemma keeps_controllers_set_message app_name name fields :
  keeps_controllers (set_message app_name name fields).
Proof.
  apply (keeps_controllers_kept _ app_name). intros reg reg' r H.
  eexists. by eapply set_message_kept.
Qed.

Lemma keeps_controllers_register_serializer app_name serializer_instance
    message_name is_request :
  keeps_controllers
    (register_serializer_as_message_if_not_exist
       cfg app_name serializer_instance message_name is_request).
Proof.
  apply (keeps_controllers_kept _ app_name). intros reg reg' r H.
  eexists. by eapply register_serializer_kept.
Qed.

Lemma keeps_controllers_if {A} (b : bool) (m1 m2 : M A) :
  keeps_controllers m1 → keeps_controllers m2 →
  keeps_controllers (if b then m1 else m2).
Proof. by destruct b. Qed.

Hint Resolve keeps_controllers_ret keeps_controllers_raise keeps_controllers_lift
  keeps_controllers_set_message keeps_controllers_register_serializer
  : controllers.
Hint Extern 2 (keeps_controllers (bind _ _)) =>
  apply keeps_controllers_bind; [|intros ?] : controllers.
Hint Extern 2 (keeps_controllers (if _ then _ else _)) =>
  apply keeps_controllers_if : controllers.

Lemma keeps_controllers_list_message app_name service_instance base_name
    list_response_field_name child_response_message_name message_name is_request :
  keeps_controllers
    (register_list_message_of_serializer cfg app_name service_instance base_name
       list_response_field_name child_response_message_name message_name
       is_request).
Proof. unfold register_list_message_of_serializer. auto with controllers. Qed.

Hint Resolve keeps_controllers_list_message : controllers.

(** Registering the messages of a known method leaves the controllers
    alone. *)
Lemma keeps_controllers_default_messages app_name method service_instance :
  keeps_controllers
    (register_default_message_from_method cfg app_name method service_instance).
Proof.
  unfold register_default_message_from_method,
    register_list_serializer_as_message, register_retrieve_serializer_as_message,
    register_destroy_serializer_as_message, register_stream_serializer_as_message.
  auto 10 with controllers.
Qed.

Lemma method_of_controllers reg reg' app_name controller_name method :
  controllers_of reg' app_name = controllers_of reg app_name →
  method_of reg' app_name controller_name method
  = method_of reg app_name controller_name method.
Proof.
  unfold controllers_of, method_of. intros H.
  destruct (reg' !! app_name), (reg !! app_name); simplify_eq/=; congruence.
Qed.

Lemma set_controller_method_of app_name controller_name entries reg reg' r :
  set_controller app_name controller_name entries reg = (reg', r) →
  (r = Ok tt
   ∧ ∀ method,
       method_of reg' app_name controller_name method = entries !! method)
  ∨ (reg' = reg ∧ ∃ e, r = Raise e).
Proof.
  intros [(a & Ha & -> & ->)|(_ & -> & ->)]%set_controller_inv; [left|by eauto].
  split; [done|]. intros method. unfold method_of.
  rewrite lookup_insert_eq. simpl. by rewrite lookup_insert_eq.
Qed.

Lemma set_method_inv app_name controller_name method entry reg reg' r :
  set_method app_name controller_name method entry reg = (reg', r) →
  (r = Ok tt
   ∧ ∀ other,
       method_of reg' app_name controller_name other
       = if decide (other = method) then Some entry
         else method_of reg app_name controller_name other)
  ∨ (reg' = reg ∧ ∃ e, r = Raise e).
Proof.
  unfold set_method, get_controller. intros H.
  bind_inv H as reg1 controller Hcontroller; [|right].
  - bind_inv Hcontroller as reg2 a Ha.
    apply get_app_inv in Ha as [-> [(a' & Ha & [= <-])|[_ [=]]]].
    destruct (registered_controllers a !! controller_name) as [found|] eqn:Hfound;
      pure_inv Hcontroller.
    apply set_controller_method_of in H as [[-> Hstored]|[-> ?]]; [left|by right].
    split; [done|]. intros other. rewrite Hstored.
    destruct (decide (other = method)) as [->|Hne].
    + apply lookup_insert_eq.
    + rewrite lookup_insert_ne by done. unfold method_of.
      rewrite Ha. simpl. by rewrite Hfound.
  - apply bind_inv in Hcontroller
      as [(reg2 & a & Ha & Hcontroller)|(e & Ha & _)].
    + apply get_app_inv in Ha as [-> _].
      destruct (registered_controllers a !! controller_name);
        pure_inv Hcontroller. eauto.
    + apply get_app_inv in Ha as [-> _]. eauto.
Qed.

(** The loop over the known methods keeps an invariant that each of its
    steps keeps. *)
Lemma for_each_invariant {A} (invariant : registry → Prop) (body : A → M unit)
    items :
  (∀ item reg reg' r, invariant reg → body item reg = (reg', r) → invariant reg') →
  ∀ reg reg' r,
    invariant reg → for_each body items reg = (reg', r) → invariant reg'.
Proof.
  intros Hbody. induction items as [|item rest IH]; intros reg reg' r Hreg H.
  - by pure_inv H.
  - cbn [for_each] in H.
    apply bind_inv in H as [(reg1 & u & Hitem & H)|(e & Hitem & _)]; eauto.
Qed.

End controller_facts.

(** What [register_default_method] records. *)
Lemma register_default_method_inv
    app_name controller_name method request_message_name response_message_name
    reg reg' r :
  register_default_method app_name controller_name method request_message_name
                          response_message_name reg = (reg', r) →
  (∃ entry,
      is_stream (request entry) = false
      ∧ is_stream (response entry) = bool_decide (method = KnowMethods.STREAM)
      ∧ message (request entry) = request_message_name
      ∧ message (response entry) = response_message_name
      ∧ ∀ other,
          method_of reg' app_name controller_name other
          = if decide (other = method) then Some entry
            else method_of reg app_name controller_name other)
  ∨ reg' = reg.
Proof.
  unfold register_default_method. intros H.
  case_bool_decide as Hplain.
  - apply set_method_inv in H as [[_ Hstored]|[-> _]]; [left|by right].
    refine (ex_intro _ _ (conj _ (conj _ (conj _ (conj _ Hstored)))));
      [done| |done..]. simpl.
    symmetry. apply bool_decide_eq_false. intros ->.
    revert Hplain. unfold KnowMethods.get_methods_no_stream.
    rewrite !elem_of_cons, elem_of_nil. by intros [|[|[|[|[|[|]]]]]].
  - case_bool_decide as Hstream.
    + apply set_method_inv in H as [[_ Hstored]|[-> _]]; [left|by right].
      refine (ex_intro _ _ (conj _ (conj _ (conj _ (conj _ Hstored)))));
        done.
    + pure_inv H. by right.
Qed.

(** C8: after a service is registered, a method entry of its controller
    that was not there before has a request that is no stream, and a
    response that is a stream if and only if the method is the server
    stream one. *)
Theorem conventional_methods_stream_flags
    cfg app_name service_class reg reg' r method entry :
  let controller_name := get_service_name service_class +:+ "Controller" in
  register_service cfg app_name service_class reg = (reg', r) →
  method_of reg' app_name controller_name method = Some entry →
  method_of reg app_name controller_name method = Some entry
  ∨ (is_stream (request entry) = false
     ∧ (is_stream (response entry) = true ↔ method = KnowMethods.STREAM)).
Proof.
  intros controller_name H. revert method entry.
  set (invariant := fun current : registry =>
         ∀ method entry,
           method_of current app_name controller_name method = Some entry →
           method_of reg app_name controller_name method = Some entry
           ∨ (is_stream (request entry) = false
              ∧ (is_stream (response entry) = true ↔ method = KnowMethods.STREAM))).
  change (invariant reg').
  assert (invariant reg) as Hreg by (intros ???; by left).
  unfold register_service in H.
  bind_inv H as reg1 registered Hregistered; [|by injection Hregistered].
  injection Hregistered as <- <-.
  assert (∀ reg2 u,
             (if bool_decide (is_Some (reg !! app_name))
              then ret tt else init_app app_name) reg = (reg2, u) →
             invariant reg2) as Hinit.
  { intros reg2 u Hinit. case_bool_decide; [by pure_inv Hinit|].
    injection Hinit as <- _. intros method entry Hentry.
    unfold method_of in Hentry. rewrite lookup_insert_eq in Hentry.
    simpl in Hentry. by rewrite lookup_empty in Hentry. }
  bind_inv H as reg2 u Hinitialised; apply Hinit in Hinitialised; [|done].
  clear Hinit Hreg.
  unfold set_controller_and_messages in H. fold controller_name in H.
  bind_inv H as reg3 a Ha;
    apply get_app_inv in Ha as [-> Ha]; [|done].
  assert (∀ reg4 u,
             (if bool_decide (is_Some (registered_controllers a !! controller_name))
              then ret tt else set_controller app_name controller_name ∅) reg2
             = (reg4, u) →
             invariant reg4) as Hcontroller.
  { intros reg4 v Hcontroller. case_bool_decide; [by pure_inv Hcontroller|].
    apply set_controller_method_of in Hcontroller as [[_ Hstored]|[-> _]]; [|done].
    intros method entry Hentry. rewrite Hstored in Hentry.
    by rewrite lookup_empty in Hentry. }
  bind_inv H as reg4 v Hcontrol; apply Hcontroller in Hcontrol; [|done].
  revert H. apply for_each_invariant; [|done].
  clear. intros item current current' r Hcurrent H.
  unfold register_known_method in H.
  destruct (negb _); [by pure_inv H|].
  bind_inv H as reg1 controller Hget.
  2:{ unfold get_controller in Hget.
      apply bind_inv in Hget as [(reg2 & a & Ha & Hget)|(e & Ha & _)];
        apply get_app_inv in Ha as [-> _]; [|done].
      destruct (registered_controllers a !! controller_name); by pure_inv Hget. }
  assert (reg1 = current) as ->.
  { unfold get_controller in Hget. bind_inv Hget as reg2 a Ha.
    apply get_app_inv in Ha as [-> _].
    destruct (registered_controllers a !! controller_name); by pure_inv Hget. }
  case_bool_decide; [by pure_inv H|].
  apply bind_inv in H as [(reg2 & names & Hmessages & H)|(e & Hmessages & _)];
    apply keeps_controllers_default_messages in Hmessages.
  2:{ intros method entry Hentry. apply Hcurrent.
      by rewrite <- (method_of_controllers _ _ _ _ _ (Hmessages app_name)). }
  apply register_default_method_inv in H
    as [(recorded & Hrequest & Hresponse & _ & _ & Hstored)| ->].
  - intros method entry Hentry. rewrite Hstored in Hentry.
    destruct (decide (method = item)) as [->|Hne].
    + injection Hentry as <-. right. split; [done|].
      rewrite Hresponse. by rewrite bool_decide_eq_true.
    + apply Hcurrent.
      by rewrite <- (method_of_controllers _ _ _ _ _ (Hmessages app_name)).
  - intros method entry Hentry. apply Hcurrent.
    by rewrite <- (method_of_controllers _ _ _ _ _ (Hmessages app_name)).
Qed.

Lemma conventional_methods_stream_flags_witness :
  let reg' := (register_service Example.cfg "shop"
                 (Example.widget_service None) ∅).1 in
  let entry :=
    {| request := {| is_stream := false; message := "WidgetStreamRequest" |};
       response := {| is_stream := true; message := "WidgetResponse" |} |} in
  method_of reg' "shop" "WidgetController" "Stream" = Some entry
  ∧ (method_of (∅ : registry) "shop" "WidgetController" "Stream" = Some entry
     ∨ (is_stream (request entry) = false
        ∧ (is_stream (response entry) = true ↔ "Stream" = KnowMethods.STREAM))).
Proof.
  intros reg' entry. split; [vm_compute; reflexivity|].
  apply (conventional_methods_stream_flags
           Example.cfg "shop" (Example.widget_service None) ∅ reg'
           (register_service Example.cfg "shop"
              (Example.widget_service None) ∅).2 "Stream" entry);
    vm_compute; reflexivity.
Defined.

(** The entries of the seven known methods of the widget service. *)
Example widget_controller_flags :
  let reg' := (register_service Example.cfg "shop"
                 (Example.widget_service None) ∅).1 in
  (λ method,
     (λ entry, (is_stream (request entry), is_stream (response entry)))
       <$> method_of reg' "shop" "WidgetController" method)
    <$> KnowMethods.get_as_list
  = [ Some (false, false); Some (false, false); Some (false, false);
      Some (false, false); Some (false, false); Some (false, false);
      Some (false, true) ].
Proof. vm_compute. reflexivity. Qed.

(** ** Custom actions *)

Lemma custom_message_name
    cfg app_name service_name function_name spec is_request name reg reg'
    returned list_name :
  register_message_for_custom_action cfg app_name service_name function_name
    spec is_request (Some name) reg = (reg', Ok (returned, list_name)) →
  makes_message spec = true →
  returned = name.
Proof.
  unfold register_message_for_custom_action.
  destruct spec as [[|item items]| |serializer_instance|]; try done; intros H _.
  - bind_inv H as reg1 u Hset. by pure_inv H.
  - bind_inv H as reg1 registered Hregister. pure_inv H.
    by apply register_serializer_registered in Hregister as [-> _].
Qed.

Lemma register_method_for_custom_action_inv
    app_name service_name function_name request_message_name
    response_message_name request_stream response_stream reg reg' :
  register_method_for_custom_action app_name service_name function_name
    request_message_name response_message_name request_stream response_stream reg
  = (reg', Ok tt) →
  method_of reg' app_name (service_name +:+ "Controller") function_name
  = Some {| request := {| is_stream := request_stream;
                          message := request_message_name |};
            response := {| is_stream := response_stream;
                           message := response_message_name |} |}.
Proof.
  unfold register_method_for_custom_action. intros H.
  bind_inv H as reg1 a Ha. bind_inv H as reg2 u Hcontroller.
  apply set_method_inv in H as [[_ Hstored]|[_ [e [=]]]].
  rewrite Hstored. by rewrite decide_True.
Qed.

(** C5, as the code has it: the method entry that a custom action records
    has the explicit response name, when one is given, as the name of its
    response message, also when [use_response_list] wraps the response.  It
    has the explicit request name as the name of its request message when
    the request is a field list that is not empty or a serializer, and
    [use_request_list] is off.  With [use_request_list] the request
    message recorded is the list message, named after the explicit name
    with [List] inserted. *)
Theorem custom_action_explicit_names
    cfg service_class function_name request_spec response_spec request_name
    response_name request_stream response_stream use_request_list
    use_response_list reg reg' :
  register_custom_action cfg service_class function_name request_spec
    response_spec request_name response_name request_stream response_stream
    use_request_list use_response_list reg = (reg', Ok tt) →
  ∃ entry,
    method_of reg' (get_app_name_from_service_class service_class)
              (get_service_name service_class +:+ "Controller") function_name
    = Some entry
    ∧ (∀ name,
          response_name = Some name → name ≠ "" →
          message (response entry) = name)
    ∧ (∀ name,
          request_name = Some name → use_request_list = false →
          makes_message request_spec = true →
          message (request entry) = name)
    ∧ (∀ name base_name,
          request_name = Some name → name ≠ "" → use_request_list = true →
          message (request entry)
          = list_message_name cfg base_name (Some name) true).
Proof.
  unfold register_custom_action. intros H.
  set (app_name := get_app_name_from_service_class service_class) in *.
  set (service_name := get_service_name service_class) in *.
  bind_inv H as reg1 registered Hregistered.
  bind_inv H as reg2 u Hinit.
  bind_inv H as reg3 registered_request Hrequest.
  destruct registered_request as [request_message list_name].
  bind_inv H as reg4 request_message_name Hrequest_list.
  bind_inv H as reg5 registered_response Hresponse.
  destruct registered_response as [response_message response_list_name].
  bind_inv H as reg6 response_message_name Hresponse_list.
  apply register_method_for_custom_action_inv in H.
  eexists. split; [exact H|]. cbn [request response message].
  split; [|split].
  - intros name -> Hname. by destruct name.
  - intros name -> -> Hmakes. pure_inv Hrequest_list.
    by eapply custom_message_name.
  - intros name base_name -> Hname ->.
    apply register_list_message_inv in Hrequest_list as [_ Hreturned].
    destruct (Hreturned _ eq_refl) as [-> _]. by destruct name.
Qed.

Lemma custom_action_explicit_names_witness :
  let reg' :=
    (register_custom_action Example.cfg (Example.widget_service None) "Search"
       (SpecList [("query", "string")]) (SpecSerializer Example.widget)
       (Some "SearchQuery") (Some "SearchResults") false false false true
       Example.shop).1 in
  ∃ entry,
    method_of reg' "shop" "WidgetController" "Search" = Some entry
    ∧ message (request entry) = "SearchQuery"
    ∧ message (response entry) = "SearchResults".
Proof.
  intros reg'.
  destruct (custom_action_explicit_names
              Example.cfg (Example.widget_service None) "Search"
              (SpecList [("query", "string")]) (SpecSerializer Example.widget)
              (Some "SearchQuery") (Some "SearchResults") false false false true
              Example.shop reg' ltac:(vm_compute; reflexivity))
    as (entry & Hentry & Hresponse & Hrequest & _).
  exists entry. split; [exact Hentry|]. split.
  - by apply Hrequest.
  - by apply Hresponse.
Defined.

(** C5, as stated, fails for the request: with [use_request_list] the
    entry records the list message made for the request, not the explicit
    request name; and for a request given as a type name the explicit
    request name is not used at all. *)
Lemma explicit_request_name_not_recorded :
  (∃ reg' entry,
      register_custom_action Example.cfg (Example.widget_service None) "Search"
        (SpecList [("query", "string")]) (SpecStr "google.protobuf.Empty")
        (Some "SearchRequest") None false false true false Example.shop
      = (reg', Ok tt)
      ∧ method_of reg' "shop" "WidgetController" "Search" = Some entry
      ∧ message (request entry) = "SearchListRequest"
      ∧ message (request entry) ≠ "SearchRequest")
  ∧ (∃ reg' entry,
        register_custom_action Example.cfg (Example.widget_service None) "Ping"
          (SpecStr "google.protobuf.Struct") (SpecStr "google.protobuf.Empty")
          (Some "PingRequest") None false false false false Example.shop
        = (reg', Ok tt)
        ∧ method_of reg' "shop" "WidgetController" "Ping" = Some entry
        ∧ message (request entry) = "google.protobuf.Struct"
        ∧ message (request entry) ≠ "PingRequest").
Proof.
  split; eexists _, _;
    (split; [vm_compute; reflexivity|]);
    (split; [vm_compute; reflexivity|]);
    (split; [reflexivity|discriminate]).
Qed.

(** ** Registering a service *)

Create HintDb preserves discriminated.

Section preserves_facts.

Context (R : relation registry) `{!PreOrder R}.

Lemma preserves_ret {A} (a : A) : preserves R (ret a).
Proof. by intros reg reg' r [= <- _]. Qed.

Lemma preserves_raise {A} e : preserves R (@raise A e).
Proof. by intros reg reg' r [= <- _]. Qed.

Lemma preserves_lift {A} (x : result A) : preserves R (lift x).
Proof. by intros reg reg' r [= <- _]. Qed.

Lemma preserves_get_app app_name : preserves R (get_app app_name).
Proof. intros reg reg' r H. by apply get_app_inv in H as [-> _]. Qed.

Lemma preserves_has_app app_name : preserves R (has_app app_name).
Proof. by intros reg reg' r [= <- _]. Qed.

Lemma preserves_get_controller app_name controller_name :
  preserves R (get_controller app_name controller_name).
Proof.
  intros reg reg' r H. unfold get_controller in H.
  apply bind_inv in H as [(reg1 & a & Ha & H)|(e & Ha & _)];
    apply get_app_inv in Ha as [-> _]; [|done].
  destruct (registered_controllers a !! controller_name); by injection H as <- _.
Qed.

Lemma preserves_bind {A B} (m : M A) (k : A → M B) :
  preserves R m → (∀ a, preserves R (k a)) → preserves R (bind m k).
Proof.
  intros Hm Hk reg reg' r H.
  apply bind_inv in H as [(reg1 & a & Hfirst & Hthen)|(e & Hfirst & _)].
  - etransitivity; [by eapply Hm|by eapply Hk].
  - by eapply Hm.
Qed.

Lemma preserves_for_each {A} (body : A → M unit) items :
  (∀ item, preserves R (body item)) → preserves R (for_each body items).
Proof.
  intros Hbody. induction items as [|item rest IH]; [apply preserves_ret|].
  cbn [for_each]. apply preserves_bind; [apply Hbody|by intros _].
Qed.

End preserves_facts.

#[global] Instance same_elsewhere_preorder app_name :
  PreOrder (same_elsewhere app_name).
Proof.
  split; [by intros reg app|].
  intros reg1 reg2 reg3 H1 H2 app Hne. by rewrite H2, H1.
Qed.

#[global] Hint Extern 1 (preserves _ (ret _)) =>
  apply preserves_ret; tc_solve : preserves.
#[global] Hint Extern 1 (preserves _ (raise _)) =>
  apply preserves_raise; tc_solve : preserves.
#[global] Hint Extern 1 (preserves _ (lift _)) =>
  apply preserves_lift; tc_solve : preserves.
#[global] Hint Extern 1 (preserves _ (get_app _)) =>
  apply preserves_get_app; tc_solve : preserves.
#[global] Hint Extern 1 (preserves _ (has_app _)) =>
  apply preserves_has_app; tc_solve : preserves.
#[global] Hint Extern 1 (preserves _ (get_controller _ _)) =>
  apply preserves_get_controller; tc_solve : preserves.
#[global] Hint Extern 2 (preserves _ (bind _ _)) =>
  apply preserves_bind; [tc_solve| |intros ?] : preserves.
#[global] Hint Extern 3 (preserves _ (match ?scrutinee with _ => _ end)) =>
  destruct scrutinee : preserves.
#[global] Hint Extern 2 (preserves _ (for_each _ _)) =>
  apply preserves_for_each; [tc_solve|intros ?; cbv beta] : preserves.

Section elsewhere_facts.

Context (cfg : settings).

Lemma elsewhere_kept {A} (m : M A) app_name :
  (∀ reg reg' r, m reg = (reg', r) → ∃ exempt, kept app_name exempt reg reg') →
  preserves (same_elsewhere app_name) m.
Proof.
  intros Hkept reg reg' r H. by destruct (Hkept _ _ _ H) as [exempt [Hother _]].
Qed.

Lemma elsewhere_set_message app_name name fields :
  preserves (same_elsewhere app_name) (set_message app_name name fields).
Proof.
  apply elsewhere_kept. intros reg reg' r H. eexists. by eapply set_message_kept.
Qed.

Lemma elsewhere_register_serializer app_name serializer_instance message_name
    is_request :
  preserves (same_elsewhere app_name)
    (register_serializer_as_message_if_not_exist
       cfg app_name serializer_instance message_name is_request).
Proof.
  apply elsewhere_kept. intros reg reg' r H.
  eexists. by eapply register_serializer_kept.
Qed.

Lemma elsewhere_init_app app_name :
  preserves (same_elsewhere app_name) (init_app app_name).
Proof. intros reg reg' r [= <- _] app Hne. by rewrite lookup_insert_ne. Qed.

Lemma elsewhere_set_controller app_name controller_name entries :
  preserves (same_elsewhere app_name)
    (set_controller app_name controller_name entries).
Proof.
  intros reg reg' r [(a & _ & _ & ->)|(_ & -> & _)]%set_controller_inv app Hne;
    [by rewrite lookup_insert_ne|done].
Qed.

Hint Resolve elsewhere_set_message elsewhere_register_serializer
  elsewhere_init_app elsewhere_set_controller : preserves.

Lemma elsewhere_set_method app_name controller_name method entry :
  preserves (same_elsewhere app_name)
    (set_method app_name controller_name method entry).
Proof. unfold set_method. auto 10 with preserves. Qed.

Hint Resolve elsewhere_set_method : preserves.

Lemma elsewhere_list_message app_name service_instance base_name
    list_response_field_name child_response_message_name message_name is_request :
  preserves (same_elsewhere app_name)
    (register_list_message_of_serializer cfg app_name service_instance base_name
       list_response_field_name child_response_message_name message_name
       is_request).
Proof. unfold register_list_message_of_serializer. auto with preserves. Qed.

Hint Resolve elsewhere_list_message : preserves.

Lemma elsewhere_default_messages app_name method service_instance :
  preserves (same_elsewhere app_name)
    (register_default_message_from_method cfg app_name method service_instance).
Proof.
  unfold register_default_message_from_method,
    register_list_serializer_as_message, register_retrieve_serializer_as_message,
    register_destroy_serializer_as_message, register_stream_serializer_as_message.
  auto 10 with preserves.
Qed.

Lemma elsewhere_default_method app_name controller_name method
    request_message_name response_message_name :
  preserves (same_elsewhere app_name)
    (register_default_method app_name controller_name method request_message_name
                             response_message_name).
Proof. unfold register_default_method. auto 10 with preserves. Qed.

Hint Resolve elsewhere_default_messages elsewhere_default_method : preserves.

Lemma elsewhere_known_method app_name controller_name service_instance method :
  preserves (same_elsewhere app_name)
    (register_known_method cfg app_name controller_name service_instance method).
Proof. unfold register_known_method. auto 10 with preserves. Qed.

Hint Resolve elsewhere_known_method : preserves.

Lemma elsewhere_register_service app_name service_class :
  preserves (same_elsewhere app_name) (register_service cfg app_name service_class).
Proof.
  unfold register_service, set_controller_and_messages. auto 20 with preserves.
Qed.

Lemma elsewhere_custom_message app_name service_name function_name message
    is_request message_name :
  preserves (same_elsewhere app_name)
    (register_message_for_custom_action cfg app_name service_name function_name
       message is_request message_name).
Proof.
  unfold register_message_for_custom_action.
  destruct message as [[|item items]| | |]; auto 10 with preserves.
Qed.

Lemma elsewhere_custom_method app_name service_name function_name
    request_message_name response_message_name request_stream response_stream :
  preserves (same_elsewhere app_name)
    (register_method_for_custom_action app_name service_name function_name
       request_message_name response_message_name request_stream response_stream).
Proof. unfold register_method_for_custom_action. auto 10 with preserves. Qed.

Hint Resolve elsewhere_custom_message elsewhere_custom_method : preserves.

Lemma elsewhere_custom_action service_class function_name request_spec
    response_spec request_name response_name request_stream response_stream
    use_request_list use_response_list :
  preserves (same_elsewhere (get_app_name_from_service_class service_class))
    (register_custom_action cfg service_class function_name request_spec
       response_spec request_name response_name request_stream response_stream
       use_request_list use_response_list).
Proof.
  unfold register_custom_action. auto 20 with preserves.
Qed.

End elsewhere_facts.

(** ** The entries of a registered service *)

#[global] Instance service_registered_preorder service_instance app_name
    controller_name :
  PreOrder (service_registered service_instance app_name controller_name).
Proof.
  split.
  - intros reg. split; [done|]. split; [done|].
    intros method. destruct (method_of _ _ _ _); by eauto.
  - intros reg1 reg2 reg3 (Hother1 & Hstays1 & Hmethods1)
           (Hother2 & Hstays2 & Hmethods2).
    split; [|split].
    + intros other Hne. by rewrite Hother2, Hother1.
    + auto.
    + intros method. specialize (Hmethods1 method). specialize (Hmethods2 method).
      destruct (method_of reg1 _ _ method) as [entry|].
      * by rewrite Hmethods1 in Hmethods2.
      * destruct Hmethods1 as [Hnone|(? & ? & entry & Hentry & ?)].
        -- by rewrite Hnone in Hmethods2.
        -- rewrite Hentry in Hmethods2. right. by eauto.
Qed.

Section service_facts.

Context (cfg : settings).

Lemma method_of_controller reg app_name controller_name method :
  method_of reg app_name controller_name method
  = controller_of reg app_name controller_name ≫= fun c => c !! method.
Proof. unfold method_of, controller_of. by destruct (reg !! app_name). Qed.

Lemma controller_of_controllers reg reg' app_name controller_name :
  controllers_of reg' app_name = controllers_of reg app_name →
  controller_of reg' app_name controller_name
  = controller_of reg app_name controller_name.
Proof.
  unfold controllers_of, controller_of. intros H.
  destruct (reg' !! app_name), (reg !! app_name); simplify_eq/=; congruence.
Qed.

(** An operation that leaves the controllers alone changes nothing that
    registering a service may change. *)
Lemma service_registered_controllers {A} (m : M A) service_instance app_name
    controller_name :
  keeps_controllers m →
  preserves (service_registered service_instance app_name controller_name) m.
Proof.
  intros Hkeeps reg reg' r H. specialize (Hkeeps _ _ _ H app_name).
  split; [|split].
  - intros other _. by apply controller_of_controllers.
  - by rewrite (controller_of_controllers _ _ _ _ Hkeeps).
  - intros method. rewrite !method_of_controller.
    rewrite (controller_of_controllers _ _ _ _ Hkeeps).
    destruct (_ ≫= _); by eauto.
Qed.

Lemma get_controller_inv app_name controller_name reg reg' r :
  get_controller app_name controller_name reg = (reg', r) →
  reg' = reg
  ∧ ((∃ controller,
         controller_of reg app_name controller_name = Some controller
         ∧ r = Ok controller)
     ∨ (controller_of reg app_name controller_name = None ∧ ∃ e, r = Raise e)).
Proof.
  unfold get_controller, controller_of. intros H.
  apply bind_inv in H as [(reg1 & a & Ha & H)|(e & Ha & ->)];
    apply get_app_inv in Ha as [-> [(a' & Ha & Heq)|[Ha Heq]]]; simplify_eq.
  - rewrite Ha. simpl.
    destruct (registered_controllers a' !! controller_name) as [controller|];
      injection H as <- <-; by eauto.
  - rewrite Ha. by eauto.
Qed.

Lemma set_controller_spec app_name controller_name entries reg reg' r :
  set_controller app_name controller_name entries reg = (reg', r) →
  (r = Ok tt
   ∧ controller_of reg' app_name controller_name = Some entries
   ∧ ∀ other, other ≠ controller_name →
              controller_of reg' app_name other = controller_of reg app_name other)
  ∨ (reg' = reg ∧ ∃ e, r = Raise e).
Proof.
  intros [(a & Ha & -> & ->)|(_ & -> & ->)]%set_controller_inv; [left|by eauto].
  split; [done|]. unfold controller_of. rewrite lookup_insert_eq, Ha. simpl.
  split; [apply lookup_insert_eq|]. intros other Hne. by rewrite lookup_insert_ne.
Qed.

Lemma set_method_spec app_name controller_name method entry reg reg' r :
  set_method app_name controller_name method entry reg = (reg', r) →
  (∃ controller,
      controller_of reg app_name controller_name = Some controller
      ∧ r = Ok tt
      ∧ controller_of reg' app_name controller_name
        = Some (<[method := entry]> controller)
      ∧ ∀ other, other ≠ controller_name →
                 controller_of reg' app_name other
                 = controller_of reg app_name other)
  ∨ (reg' = reg ∧ ∃ e, r = Raise e).
Proof.
  unfold set_method. intros H.
  apply bind_inv in H as [(reg1 & controller & Hget & H)|(e & Hget & ->)];
    apply get_controller_inv in Hget as [-> Hget]; [|by eauto].
  destruct Hget as [(found & Hfound & [= <-])|[_ [e [=]]]].
  apply set_controller_spec in H as [(-> & Hstored & Hother)|[-> ?]];
    [left|by right].
  by eauto.
Qed.

Lemma register_default_method_spec
    app_name controller_name method request_message_name response_message_name
    reg reg' r :
  register_default_method app_name controller_name method request_message_name
                          response_message_name reg = (reg', r) →
  (∃ controller entry,
      controller_of reg app_name controller_name = Some controller
      ∧ r = Ok tt
      ∧ method ∈ KnowMethods.get_as_list
      ∧ conventional_entry method entry
      ∧ controller_of reg' app_name controller_name
        = Some (<[method := entry]> controller)
      ∧ ∀ other, other ≠ controller_name →
                 controller_of reg' app_name other
                 = controller_of reg app_name other)
  ∨ (reg' = reg ∧ ∃ e, r = Raise e).
Proof.
  unfold register_default_method. intros H.
  assert ("Stream" ∉ KnowMethods.get_methods_no_stream) as Hstream.
  { unfold KnowMethods.get_methods_no_stream.
    rewrite !elem_of_cons, elem_of_nil. by intros [|[|[|[|[|[|]]]]]]. }
  case_bool_decide as Hplain.
  - apply set_method_spec in H
      as [(controller & Hcontroller & -> & Hstored & Hother)|?]; [left|by right].
    eexists _, _. split; [done|]. split; [done|]. split; [|split; [|by split]].
    + revert Hplain. unfold KnowMethods.get_methods_no_stream,
        KnowMethods.get_as_list. rewrite !elem_of_cons, !elem_of_nil. tauto.
    + split; [done|]. simpl. symmetry. apply bool_decide_eq_false.
      by intros ->.
  - case_bool_decide as Hmethod.
    + apply set_method_spec in H
        as [(controller & Hcontroller & -> & Hstored & Hother)|?];
        [left|by right].
      eexists _, _. split; [done|]. split; [done|]. split; [|split; [|by split]].
      * rewrite Hmethod. unfold KnowMethods.get_as_list.
        rewrite !elem_of_cons. tauto.
      * split; [done|]. simpl. symmetry. by apply bool_decide_eq_true.
    + injection H as <- <-. right. by eauto.
Qed.

(** One turn of the loop over the known methods. *)
Lemma register_known_method_registered app_name controller_name service_instance
    method :
  preserves (service_registered service_instance app_name controller_name)
    (register_known_method cfg app_name controller_name service_instance method).
Proof.
  intros reg reg' r H. unfold register_known_method in H.
  destruct (negb _) eqn:Himplemented; [injection H as <- _; reflexivity|].
  apply negb_false_iff, bool_decide_eq_true in Himplemented.
  apply bind_inv in H as [(reg1 & controller & Hget & H)|(e & Hget & _)];
    apply get_controller_inv in Hget as [-> Hget]; [|reflexivity].
  destruct Hget as [(found & Hfound & [= <-])|[_ [e [=]]]].
  case_bool_decide as Hpresent; [injection H as <- _; reflexivity|].
  apply eq_None_not_Some in Hpresent.
  apply bind_inv in H as [(reg2 & names & Hmessages & H)|(e & Hmessages & _)].
  2:{ revert Hmessages. apply service_registered_controllers.
      apply keeps_controllers_default_messages. }
  pose proof (keeps_controllers_default_messages cfg _ _ _ _ _ _
                Hmessages app_name) as Hsame.
  apply (controller_of_controllers _ _ _ controller_name) in Hsame as Hsame_here.
  apply register_default_method_spec in H
    as [(controller' & entry & Hcontroller' & -> & Hknown & Hflags & Hstored
         & Hother)|[-> _]].
  2:{ revert Hmessages. apply service_registered_controllers.
      apply keeps_controllers_default_messages. }
  rewrite Hsame_here, Hfound in Hcontroller'. injection Hcontroller' as <-.
  split; [|split].
  - intros other Hne. rewrite Hother by done. by apply controller_of_controllers.
  - intros _. by rewrite Hstored.
  - intros other. rewrite !method_of_controller, Hfound, Hstored. simpl.
    destruct (decide (other = method)) as [->|Hne].
    + rewrite Hpresent, lookup_insert_eq. right. by eauto 6.
    + rewrite lookup_insert_ne by done. destruct (_ !! other); by eauto.
Qed.

(** A turn that returns leaves an entry for its method, if the service
    has the method. *)
Lemma register_known_method_recorded app_name controller_name service_instance
    method reg reg' :
  register_known_method cfg app_name controller_name service_instance method reg
  = (reg', Ok tt) →
  method ∈ service_methods service_instance →
  is_Some (method_of reg' app_name controller_name method).
Proof.
  intros H Himplemented. unfold register_known_method in H.
  rewrite bool_decide_eq_true_2 in H by done. simpl in H.
  apply bind_inv in H as [(reg1 & controller & Hget & H)|(e & _ & [=])].
  apply get_controller_inv in Hget as [-> Hget].
  destruct Hget as [(found & Hfound & [= <-])|[_ [e [=]]]].
  case_bool_decide as Hpresent.
  { injection H as <-. by rewrite method_of_controller, Hfound. }
  apply bind_inv in H as [(reg2 & names & Hmessages & H)|(e & _ & [=])].
  apply register_default_method_spec in H
    as [(controller' & entry & _ & _ & _ & _ & Hstored & _)|[_ [e [=]]]].
  rewrite method_of_controller, Hstored. simpl. rewrite lookup_insert_eq. eauto.
Qed.

Lemma for_each_recorded {A} (body : A → M unit) (recorded : A → registry → Prop)
    items :
  (∀ item reg reg', body item reg = (reg', Ok tt) → recorded item reg') →
  (∀ item other reg reg' r,
      recorded item reg → body other reg = (reg', r) → recorded item reg') →
  ∀ reg reg',
    for_each body items reg = (reg', Ok tt) →
    ∀ item, item ∈ items → recorded item reg'.
Proof.
  intros Hrecord Hstays.
  induction items as [|first rest IH]; intros reg reg' H item Hitem.
  { by apply elem_of_nil in Hitem. }
  cbn [for_each] in H.
  apply bind_inv in H as [(reg1 & u & Hfirst & H)|(e & _ & [=])]. destruct u.
  apply elem_of_cons in Hitem as [->|Hitem]; [|by eapply IH].
  apply Hrecord in Hfirst. revert H. generalize (Ok ()) at 1. intros r H.
  revert reg1 Hfirst H. clear IH.
  induction rest as [|next rest IH]; intros reg1 Hfirst H.
  - by injection H as <- _.
  - cbn [for_each] in H.
    apply bind_inv in H as [(reg2 & u & Hnext & H)|(e & Hnext & _)]; eauto.
Qed.

Lemma bind_ok {A B} (m : M A) (k : A → M B) reg reg1 a :
  m reg = (reg1, Ok a) → bind m k reg = k a reg1.
Proof. unfold bind. by intros ->. Qed.

Lemma for_each_nothing {A} (body : A → M unit) items reg :
  (∀ item, item ∈ items → body item reg = (reg, Ok tt)) →
  for_each body items reg = (reg, Ok tt).
Proof.
  induction items as [|first rest IH]; intros Hbody; [done|].
  cbn [for_each]. unfold bind. rewrite (Hbody first) by apply list_elem_of_here.
  apply IH. intros item Hitem. apply Hbody. by apply list_elem_of_further.
Qed.

(** What registering a service does: the other apps are left alone, the
    controller of the service is there afterwards, and the controllers of
    the app change as [service_registered] says; when the registration
    returns, each known method that the service has has an entry. *)
Lemma register_service_inv app_name service_class reg reg' r :
  register_service cfg app_name service_class reg = (reg', r) →
  let controller_name := get_service_name service_class +:+ "Controller" in
  same_elsewhere app_name reg reg'
  ∧ is_Some (controller_of reg' app_name controller_name)
  ∧ service_registered service_class app_name controller_name reg reg'
  ∧ (r = Ok tt →
     ∀ method,
       method ∈ KnowMethods.get_as_list →
       method ∈ service_methods service_class →
       is_Some (method_of reg' app_name controller_name method)).
Proof.
  intros H controller_name.
  split; [by eapply elsewhere_register_service|].
  unfold register_service in H.
  apply bind_inv in H as [(reg0 & registered & Hregistered & H)|(e & [=] & _)].
  injection Hregistered as <- <-.
  assert (∃ reg1 u,
             (if bool_decide (is_Some (reg !! app_name))
              then ret tt else init_app app_name) reg = (reg1, Ok u)
             ∧ is_Some (reg1 !! app_name)
             ∧ service_registered service_class app_name controller_name reg reg1)
    as (reg1 & u & Hinit & Happ & Hinitial).
  { case_bool_decide as Hhas.
    - exists reg, tt. split; [done|]. split; [done|reflexivity].
    - eexists _, tt. split; [reflexivity|]. split; [by rewrite lookup_insert_eq|].
      apply eq_None_not_Some in Hhas.
      assert (∀ c, controller_of reg app_name c = None) as Hbefore.
      { intros c. unfold controller_of. by rewrite Hhas. }
      assert (∀ c, controller_of
                     (<[app_name := {| registered_controllers := ∅;
                                       registered_messages := ∅ |}]> reg)
                     app_name c = None) as Hafter.
      { intros c. unfold controller_of. rewrite lookup_insert_eq. simpl.
        apply lookup_empty. }
      split; [|split].
      + intros other _. by rewrite Hbefore, Hafter.
      + rewrite Hbefore. by intros [? ?].
      + intros method. rewrite !method_of_controller, Hbefore, Hafter. by left. }
  unfold bind at 1 in H. rewrite Hinit in H. clear Hinit.
  unfold set_controller_and_messages in H. fold controller_name in H.
  destruct Happ as [a Ha].
  unfold bind at 1 in H. unfold get_app in H. rewrite Ha in H.
  assert (∃ reg2 v,
             (if bool_decide
                   (is_Some (registered_controllers a !! controller_name))
              then ret tt else set_controller app_name controller_name ∅) reg1
             = (reg2, Ok v)
             ∧ is_Some (controller_of reg2 app_name controller_name)
             ∧ service_registered service_class app_name controller_name
                                  reg1 reg2)
    as (reg2 & v & Hensure & Hcontroller & Hensured).
  { assert (controller_of reg1 app_name controller_name
            = registered_controllers a !! controller_name) as Hhere.
    { unfold controller_of. by rewrite Ha. }
    case_bool_decide as Hhas.
    - exists reg1, tt. split; [done|]. split; [by rewrite Hhere|reflexivity].
    - apply eq_None_not_Some in Hhas. rewrite <- Hhere in Hhas.
      destruct (set_controller app_name controller_name ∅ reg1)
        as [reg2 r2] eqn:Hset.
      pose proof Hset as Hspec.
      apply set_controller_spec in Hspec as [(-> & Hstored & Hother)|[_ [e ->]]].
      2:{ unfold set_controller, bind, get_app in Hset. by rewrite Ha in Hset. }
      exists reg2, tt. split; [done|]. split; [by rewrite Hstored|].
      split; [done|]. split; [by rewrite Hstored|].
      intros method. rewrite !method_of_controller, Hhas, Hstored. simpl.
      left. apply lookup_empty. }
  unfold bind at 1 in H. rewrite Hensure in H. clear Hensure.
  pose proof (preserves_for_each
                (service_registered service_class app_name controller_name)
                (register_known_method cfg app_name controller_name service_class)
                KnowMethods.get_as_list
                (register_known_method_registered _ _ _) _ _ _ H) as Hloop.
  split; [by apply Hloop|]. split.
  - etransitivity; [done|]. by etransitivity.
  - intros -> method Hknown Himplemented.
    pose proof (for_each_recorded
                  (register_known_method cfg app_name controller_name
                                         service_class)
                  (fun item current =>
                     item ∈ service_methods service_class →
                     is_Some (method_of current app_name controller_name item))
                  KnowMethods.get_as_list) as Hrecorded.
    apply (Hrecorded) with (reg := reg2); try done.
    + intros item current current' Hitem Hin.
      by eapply register_known_method_recorded.
    + intros item other current current' r Hitem Hother Hin.
      apply register_known_method_registered in Hother as (_ & _ & Hmethods).
      specialize (Hmethods item). destruct (Hitem Hin) as [entry Hentry].
      rewrite Hentry in Hmethods. by rewrite Hmethods.
Qed.

(** Nothing is left to do for a service whose controller is there with an
    entry for each known method that the service has. *)
Lemma register_service_nothing app_name service_class reg :
  let controller_name := get_service_name service_class +:+ "Controller" in
  is_Some (controller_of reg app_name controller_name) →
  (∀ method,
      method ∈ KnowMethods.get_as_list →
      method ∈ service_methods service_class →
      is_Some (method_of reg app_name controller_name method)) →
  register_service cfg app_name service_class reg = (reg, Ok tt).
Proof.
  intros controller_name [controller Hcontroller] Hmethods.
  unfold controller_of in Hcontroller.
  destruct (reg !! app_name) as [a|] eqn:Ha; [|done]. simpl in Hcontroller.
  assert (get_app app_name reg = (reg, Ok a)) as Happ.
  { unfold get_app. by rewrite Ha. }
  assert (get_controller app_name controller_name reg = (reg, Ok controller))
    as Hget.
  { unfold get_controller. rewrite (bind_ok _ _ _ _ _ Happ).
    by rewrite Hcontroller. }
  unfold register_service.
  rewrite (bind_ok _ _ reg reg true)
    by (unfold has_app; rewrite bool_decide_eq_true_2; [done|by rewrite Ha]).
  rewrite (bind_ok _ _ reg reg tt) by done.
  unfold set_controller_and_messages. fold controller_name.
  rewrite (bind_ok _ _ _ _ _ Happ).
  rewrite (bind_ok _ _ reg reg tt)
    by (rewrite Hcontroller, bool_decide_eq_true_2; [done|by eauto]).
  apply for_each_nothing. intros method Hknown.
  unfold register_known_method. case_bool_decide as Himplemented; [|done].
  cbn [negb]. rewrite (bind_ok _ _ _ _ _ Hget).
  specialize (Hmethods method Hknown Himplemented).
  rewrite method_of_controller in Hmethods. unfold controller_of in Hmethods.
  rewrite Ha in Hmethods. simpl in Hmethods. rewrite Hcontroller in Hmethods.
  by rewrite bool_decide_eq_true_2.
Qed.

End service_facts.

(** ** Properties of the conventional path *)

(** X1: registering a service changes no entry that its controller had, so
    a method declared by a custom action keeps the entry of the custom
    action; it changes no other controller of the app and no other app. *)
Theorem register_service_keeps_entries cfg app_name service_class reg reg' r :
  register_service cfg app_name service_class reg = (reg', r) →
  let controller_name := get_service_name service_class +:+ "Controller" in
  (∀ method entry,
      method_of reg app_name controller_name method = Some entry →
      method_of reg' app_name controller_name method = Some entry)
  ∧ (∀ other, other ≠ controller_name →
              controller_of reg' app_name other = controller_of reg app_name other)
  ∧ (∀ other_app, other_app ≠ app_name → reg' !! other_app = reg !! other_app).
Proof.
  intros H controller_name.
  apply register_service_inv in H as (Helsewhere & _ & (Hother & _ & Hmethods) & _).
  split; [|by split].
  intros method entry Hentry. specialize (Hmethods method).
  fold controller_name in Hmethods. by rewrite Hentry in Hmethods.
Qed.

Lemma register_service_keeps_entries_witness :
  let declared :=
    (register_custom_action Example.cfg (Example.widget_service None) "List"
       (SpecList []) (SpecStr "google.protobuf.Struct") None None
       true false false false ∅).1 in
  let reg' :=
    (register_service Example.cfg "shop" (Example.widget_service None)
                      declared).1 in
  let entry :=
    {| request := {| is_stream := true; message := "google.protobuf.Empty" |};
       response := {| is_stream := false;
                      message := "google.protobuf.Struct" |} |} in
  method_of declared "shop" "WidgetController" "List" = Some entry
  ∧ method_of reg' "shop" "WidgetController" "List" = Some entry.
Proof.
  intros declared reg' entry.
  assert (method_of declared "shop" "WidgetController" "List" = Some entry)
    as Hdeclared by (vm_compute; reflexivity).
  split; [exact Hdeclared|].
  destruct (register_service_keeps_entries
              Example.cfg "shop" (Example.widget_service None) declared reg'
              (register_service Example.cfg "shop" (Example.widget_service None)
                                declared).2
              ltac:(vm_compute; reflexivity)) as [Hkept _].
  exact (Hkept "List" entry Hdeclared).
Defined.



(** X3: when registering a service returns, each known method that the
    service has has an entry in its controller, and registering the service
    again returns and changes nothing. *)
Theorem register_service_twice cfg app_name service_class reg reg1 :
  register_service cfg app_name service_class reg = (reg1, Ok tt) →
  (∀ method,
      method ∈ KnowMethods.get_as_list →
      method ∈ service_methods service_class →
      is_Some (method_of reg1 app_name
                         (get_service_name service_class +:+ "Controller")
                         method))
  ∧ register_service cfg app_name service_class reg1 = (reg1, Ok tt).
Proof.
  intros H.
  apply register_service_inv in H as (_ & Hcontroller & _ & Hrecorded).
  specialize (Hrecorded eq_refl).
  split; [done|]. by apply register_service_nothing.
Qed.

Lemma register_service_twice_witness :
  let reg1 :=
    (register_service Example.cfg "shop" (Example.widget_service None) ∅).1 in
  register_service Example.cfg "shop" (Example.widget_service None) reg1
  = (reg1, Ok tt).
Proof.
  intros reg1.
  apply (register_service_twice
           Example.cfg "shop" (Example.widget_service None) ∅ reg1).
  vm_compute. reflexivity.
Defined.

(** X4: registering a service registers its app and its controller when
    they are not there, before anything can fail: the controller is there
    afterwards even when the registration raises. *)
Theorem register_service_makes_controller cfg app_name service_class reg reg' r :
  register_service cfg app_name service_class reg = (reg', r) →
  is_Some (controller_of reg' app_name
             (get_service_name service_class +:+ "Controller")).
Proof. intros H. by apply register_service_inv in H as (_ & ? & _). Qed.

Lemma register_service_makes_controller_witness :
  let service_class :=
    {| service_module := "shop.services";
       get_service_name := "Widget";
       service_methods := ["List"];
       get_serializer_class := fun _ => Example.unannotated_widget;
       get_lookup_request_field := "name";
       pagination_class := None |} in
  let outcome := register_service Example.cfg "shop" service_class ∅ in
  (∃ msg, outcome.2 = Raise (RegisterServiceException msg))
  ∧ is_Some (controller_of outcome.1 "shop" "WidgetController").
Proof.
  intros service_class outcome.
  split; [eexists; vm_compute; reflexivity|].
  apply (register_service_makes_controller
           Example.cfg "shop" service_class ∅ outcome.1 outcome.2).
  vm_compute. reflexivity.
Defined.

(** ** Custom actions: what is recorded, and what is left alone *)

#[global] Instance same_controllers_preorder : PreOrder same_controllers.
Proof.
  split; [by intros reg app controller|].
  intros reg1 reg2 reg3 H1 H2 app controller. by rewrite H2, H1.
Qed.

#[global] Instance same_messages_preorder : PreOrder same_messages.
Proof.
  split; [by intros reg app name|].
  intros reg1 reg2 reg3 H1 H2 app name. by rewrite H2, H1.
Qed.

Section custom_facts.

Context (cfg : settings).

Lemma same_controllers_keeps {A} (m : M A) :
  keeps_controllers m → preserves same_controllers m.
Proof.
  intros Hkeeps reg reg' r H app controller.
  apply controller_of_controllers. by eapply Hkeeps.
Qed.

Lemma same_controllers_method_of reg reg' app_name controller_name method :
  same_controllers reg reg' →
  method_of reg' app_name controller_name method
  = method_of reg app_name controller_name method.
Proof. intros Hsame. by rewrite !method_of_controller, Hsame. Qed.

Lemma keeps_controllers_custom_message app_name service_name function_name
    message is_request message_name :
  keeps_controllers
    (register_message_for_custom_action cfg app_name service_name function_name
       message is_request message_name).
Proof.
  unfold register_message_for_custom_action.
  destruct message as [[|item items]| | |];
    repeat first
      [ apply keeps_controllers_ret | apply keeps_controllers_raise
      | apply keeps_controllers_set_message
      | apply keeps_controllers_register_serializer
      | apply keeps_controllers_bind; [|intros ?] ].
Qed.

Lemma same_messages_set_controller app_name controller_name entries :
  preserves same_messages (set_controller app_name controller_name entries).
Proof.
  intros reg reg' r [(a & Ha & _ & ->)|(_ & -> & _)]%set_controller_inv;
    [|done].
  intros app name. unfold message_of.
  destruct (decide (app = app_name)) as [->|Hne].
  - by rewrite lookup_insert_eq, Ha.
  - by rewrite lookup_insert_ne.
Qed.

Hint Resolve same_messages_set_controller : preserves.

Lemma same_messages_set_method app_name controller_name method entry :
  preserves same_messages (set_method app_name controller_name method entry).
Proof. unfold set_method. auto 10 with preserves. Qed.

Hint Resolve same_messages_set_method : preserves.

Lemma same_messages_custom_method app_name service_name function_name
    request_message_name response_message_name request_stream response_stream :
  preserves same_messages
    (register_method_for_custom_action app_name service_name function_name
       request_message_name response_message_name request_stream
       response_stream).
Proof. unfold register_method_for_custom_action. auto 10 with preserves. Qed.

Lemma same_messages_default_method app_name controller_name method
    request_message_name response_message_name :
  preserves same_messages
    (register_default_method app_name controller_name method
       request_message_name response_message_name).
Proof. unfold register_default_method. auto 10 with preserves. Qed.

(** The two statements that register the app when it is not there. *)
Lemma init_if_absent app_name reg reg1 registered reg2 r :
  has_app app_name reg = (reg1, Ok registered) →
  (if registered then ret tt else init_app app_name) reg1 = (reg2, r) →
  r = Ok tt
  ∧ is_Some (reg2 !! app_name)
  ∧ (is_Some (reg !! app_name) → reg2 = reg)
  ∧ same_controllers reg reg2
  ∧ same_messages reg reg2
  ∧ same_elsewhere app_name reg reg2.
Proof.
  intros [= <- <-]. case_bool_decide as Happ.
  - intros [= <- <-]. by repeat split.
  - intros [= <- <-]. apply eq_None_not_Some in Happ.
    split; [done|]. split; [by rewrite lookup_insert_eq|].
    split; [by intros [? ?]; simplify_eq|].
    split; [|split].
    + intros app controller. unfold controller_of.
      destruct (decide (app = app_name)) as [->|Hne].
      * by rewrite lookup_insert_eq, Happ.
      * by rewrite lookup_insert_ne.
    + intros app name. unfold message_of.
      destruct (decide (app = app_name)) as [->|Hne].
      * by rewrite lookup_insert_eq, Happ.
      * by rewrite lookup_insert_ne.
    + intros app Hne. by rewrite lookup_insert_ne.
Qed.

Lemma set_method_ok app_name controller_name method entry reg reg' r controller :
  controller_of reg app_name controller_name = Some controller →
  set_method app_name controller_name method entry reg = (reg', r) →
  r = Ok tt.
Proof.
  unfold controller_of, set_method, get_controller, set_controller, bind, get_app.
  destruct (reg !! app_name) as [a|] eqn:Ha; [|done]. cbn.
  intros ->. cbn. rewrite Ha. by intros [= _ <-].
Qed.

(** Recording the method of a custom action: its entry replaces the one
    the controller had for the function, in a controller that starts empty
    when it is not there. *)
Lemma register_method_for_custom_action_spec
    app_name service_name function_name request_message_name
    response_message_name request_stream response_stream reg reg' r :
  register_method_for_custom_action app_name service_name function_name
    request_message_name response_message_name request_stream response_stream reg
  = (reg', r) →
  is_Some (reg !! app_name) →
  let controller_name := service_name +:+ "Controller" in
  r = Ok tt
  ∧ controller_of reg' app_name controller_name
    = Some (<[function_name :=
                {| request := {| is_stream := request_stream;
                                 message := request_message_name |};
                   response := {| is_stream := response_stream;
                                  message := response_message_name |} |}]>
              (default ∅ (controller_of reg app_name controller_name)))
  ∧ ∀ other, other ≠ controller_name →
             controller_of reg' app_name other = controller_of reg app_name other.
Proof.
  intros H [a Ha] controller_name.
  unfold register_method_for_custom_action in H. fold controller_name in H.
  assert (controller_of reg app_name controller_name
          = registered_controllers a !! controller_name) as Hcontroller
      by (unfold controller_of; by rewrite Ha).
  apply bind_inv in H as [(reg1 & a' & Hget & H)|(e & Hget & _)];
    apply get_app_inv in Hget as [-> [(? & ? & ?)|[? ?]]]; simplify_eq.
  rewrite <- Hcontroller in H.
  assert (∃ reg2,
             set_method app_name controller_name function_name
               {| request := {| is_stream := request_stream;
                                message := request_message_name |};
                  response := {| is_stream := response_stream;
                                 message := response_message_name |} |} reg2
             = (reg', r)
             ∧ controller_of reg2 app_name controller_name
               = Some (default ∅ (controller_of reg app_name controller_name))
             ∧ ∀ other, other ≠ controller_name →
                        controller_of reg2 app_name other
                        = controller_of reg app_name other)
    as (reg2 & Hset & Hthere & Hothers).
  { case_bool_decide as Hhas.
    - destruct Hhas as [controller Hhas].
      apply bind_inv in H as [(reg2 & u & [= <- _] & H)|(e & [=] & _)].
      exists reg. by rewrite Hhas.
    - apply eq_None_not_Some in Hhas. rewrite Hhas.
      apply bind_inv in H as [(reg2 & u & Hmake & H)|(e & Hmake & _)];
        apply set_controller_inv in Hmake as Hinv;
        destruct Hinv as [(? & _ & ? & _)|(? & _ & _)]; simplify_eq.
      apply set_controller_spec in Hmake
          as [(_ & Hempty & Hsame)|(_ & ? & [=])].
      by exists reg2. }
  pose proof (set_method_ok _ _ _ _ _ _ _ _ Hthere Hset) as ->.
  apply set_method_spec in Hset
      as [(controller & Hhas & _ & Hstored & Hother)|(_ & ? & [=])].
  rewrite Hthere in Hhas. injection Hhas as <-.
  split; [done|]. split; [done|].
  intros other Hne. by rewrite Hother, Hothers.
Qed.

(** A step that registers messages of [app_name]: the app stays
    registered, and the controllers and the other apps are as they were at
    [reg0]. *)
Lemma messages_step {A} (m : M A) app_name reg0 reg reg' r :
  keeps_controllers m → preserves (same_elsewhere app_name) m →
  m reg = (reg', r) →
  is_Some (reg !! app_name) ∧ same_controllers reg0 reg
  ∧ same_elsewhere app_name reg0 reg →
  is_Some (reg' !! app_name) ∧ same_controllers reg0 reg'
  ∧ same_elsewhere app_name reg0 reg'.
Proof.
  intros Hkeeps Helsewhere H (Happ & Hcontrollers & Hothers).
  split; [|split].
  - specialize (Hkeeps _ _ _ H app_name). unfold controllers_of in Hkeeps.
    destruct Happ as [a Ha]. rewrite Ha in Hkeeps.
    by destruct (reg' !! app_name).
  - etransitivity; [done|]. by eapply same_controllers_keeps.
  - etransitivity; [done|]. by eapply Helsewhere.
Qed.

Lemma custom_message_returned app_name service_name function_name spec
    is_request message_name reg reg' child list_field :
  register_message_for_custom_action cfg app_name service_name function_name
    spec is_request message_name reg = (reg', Ok (child, list_field)) →
  spec ≠ SpecOther
  ∧ ∀ name, names_message spec = Some name → child = name ∧ reg' = reg.
Proof.
  unfold register_message_for_custom_action.
  destruct spec as [[|item items]|given|serializer_instance|]; intros H;
    try discriminate H; (split; [done|]); intros chosen [=]; subst;
    by injection H as <- <-.
Qed.

(** A custom action, step by step: the messages first, which leave the
    controllers and the other apps alone, then the method, under the names
    that the messages were given. *)
Lemma register_custom_action_inv
    service_class function_name request_spec response_spec request_name
    response_name request_stream response_stream use_request_list
    use_response_list reg reg' r :
  register_custom_action cfg service_class function_name request_spec
    response_spec request_name response_name request_stream response_stream
    use_request_list use_response_list reg = (reg', r) →
  let app_name := get_app_name_from_service_class service_class in
  let service_name := get_service_name service_class in
  ∃ reg1,
    is_Some (reg1 !! app_name)
    ∧ same_controllers reg reg1
    ∧ same_elsewhere app_name reg reg1
    ∧ ((reg' = reg1 ∧ ∃ e, r = Raise e)
       ∨ (∃ child_request child_response,
             request_spec ≠ SpecOther ∧ response_spec ≠ SpecOther
             ∧ (∀ name, names_message request_spec = Some name →
                        child_request = name)
             ∧ (∀ name, names_message response_spec = Some name →
                        child_response = name)
             ∧ register_method_for_custom_action app_name service_name
                 function_name
                 (if use_request_list
                  then list_message_name cfg
                         (get_base_name_for_list_message
                            service_name function_name child_request true)
                         request_name true
                  else child_request)
                 (explicit_or response_name
                    (if use_response_list
                     then list_message_name cfg
                            (get_base_name_for_list_message
                               service_name function_name child_response false)
                            response_name false
                     else child_response))
                 request_stream response_stream reg1
               = (reg', r))).
Proof.
  intros H app_name service_name. unfold register_custom_action in H.
  fold app_name service_name in H.
  apply bind_inv in H as [(reg0 & registered & Hregistered & H)|(e & [=] & _)].
  apply bind_inv in H as [(reg2 & u & Hinit & H)|(e & Hinit & _)];
    destruct (init_if_absent _ _ _ _ _ _ Hregistered Hinit)
      as (Hok & Happ & _ & Hcontrollers & _ & Hothers); [|done].
  assert (is_Some (reg2 !! app_name) ∧ same_controllers reg reg2
          ∧ same_elsewhere app_name reg reg2) as Hstart by done.
  clear Hregistered Hinit Hok Happ Hcontrollers Hothers.
  apply bind_inv in H as [(reg3 & [child_request list_field] & Hrequest & H)
                         |(e & Hrequest & ->)];
    (eapply messages_step in Hstart as Hthen;
       [|apply keeps_controllers_custom_message
        |apply elsewhere_custom_message|exact Hrequest]);
    [|exists reg'; destruct Hthen as (? & ? & ?); eauto 10].
  clear Hstart.
  apply custom_message_returned in Hrequest as [Hrequest_spec Hrequest_name].
  apply bind_inv in H as [(reg4 & request_message & Hrequest_list & H)
                         |(e & Hrequest_list & ->)];
    (eapply messages_step in Hthen as Hlisted;
       [| |
        |exact Hrequest_list];
       [|apply keeps_controllers_if;
           [apply keeps_controllers_list_message|apply keeps_controllers_ret]
        |destruct use_request_list;
           [apply elsewhere_list_message|apply preserves_ret; tc_solve]]);
    [|exists reg'; destruct Hlisted as (? & ? & ?); eauto 10].
  clear Hthen.
  assert (request_message
          = if use_request_list
            then list_message_name cfg
                   (get_base_name_for_list_message
                      service_name function_name child_request true)
                   request_name true
            else child_request) as ->.
  { destruct use_request_list; [|by injection Hrequest_list].
    apply register_list_message_inv in Hrequest_list as [_ Hreturned].
    by destruct (Hreturned _ eq_refl). }
  clear Hrequest_list.
  apply bind_inv in H as [(reg5 & [child_response response_field] & Hresponse & H)
                         |(e & Hresponse & ->)];
    (eapply messages_step in Hlisted as Hresponded;
       [|apply keeps_controllers_custom_message
        |apply elsewhere_custom_message|exact Hresponse]);
    [|exists reg'; destruct Hresponded as (? & ? & ?); eauto 10].
  clear Hlisted.
  apply custom_message_returned in Hresponse as [Hresponse_spec Hresponse_name].
  apply bind_inv in H as [(reg6 & response_message & Hresponse_list & H)
                         |(e & Hresponse_list & ->)];
    (eapply messages_step in Hresponded as Hend;
       [| |
        |exact Hresponse_list];
       [|apply keeps_controllers_if;
           [apply keeps_controllers_list_message|apply keeps_controllers_ret]
        |destruct use_response_list;
           [apply elsewhere_list_message|apply preserves_ret; tc_solve]]);
    [|exists reg'; destruct Hend as (? & ? & ?); eauto 10].
  assert (response_message
          = if use_response_list
            then list_message_name cfg
                   (get_base_name_for_list_message
                      service_name function_name child_response false)
                   response_name false
            else child_response) as ->.
  { destruct use_response_list; [|by injection Hresponse_list].
    apply register_list_message_inv in Hresponse_list as [_ Hreturned].
    by destruct (Hreturned _ eq_refl). }
  exists reg6. destruct Hend as (? & ? & ?).
  split; [done|]. split; [done|]. split; [done|]. right.
  exists child_request, child_response.
  split; [done|]. split; [done|].
  split; [intros name Hname; by destruct (Hrequest_name _ Hname)|].
  split; [intros name Hname; by destruct (Hresponse_name _ Hname)|].
  exact H.
Qed.

Lemma custom_message_of_name app_name service_name function_name spec
    is_request message_name name reg :
  names_message spec = Some name →
  register_message_for_custom_action cfg app_name service_name function_name
    spec is_request message_name reg
  = (reg, Ok (name, DEFAULT_LIST_FIELD_NAME)).
Proof.
  by destruct spec as [[|item items]|given|serializer_instance|]; intros [= <-].
Qed.

End custom_facts.

(** ** Properties of the custom actions *)

(** X5: a custom action that returns records its entry with the stream
    flags it was given, replacing the entry that the controller had for the
    function, if any; the other methods of the controller, the other
    controllers of the app and the other apps are as they were. *)
Theorem custom_action_records_entry
    cfg service_class function_name request_spec response_spec request_name
    response_name request_stream response_stream use_request_list
    use_response_list reg reg' :
  register_custom_action cfg service_class function_name request_spec
    response_spec request_name response_name request_stream response_stream
    use_request_list use_response_list reg = (reg', Ok tt) →
  let app_name := get_app_name_from_service_class service_class in
  let controller_name := get_service_name service_class +:+ "Controller" in
  (∃ entry,
      method_of reg' app_name controller_name function_name = Some entry
      ∧ is_stream (request entry) = request_stream
      ∧ is_stream (response entry) = response_stream)
  ∧ (∀ method,
        method ≠ function_name →
        method_of reg' app_name controller_name method
        = method_of reg app_name controller_name method)
  ∧ (∀ other,
        other ≠ controller_name →
        controller_of reg' app_name other = controller_of reg app_name other)
  ∧ (∀ other_app, other_app ≠ app_name → reg' !! other_app = reg !! other_app).
Proof.
  intros H app_name controller_name.
  pose proof (elsewhere_custom_action _ _ _ _ _ _ _ _ _ _ _ _ _ _ H) as Hothers.
  apply register_custom_action_inv in H
      as (reg1 & Happ & Hcontrollers & _
          & [[_ [e [=]]]|(child_request & child_response & _ & _ & _ & _ & H)]).
  apply register_method_for_custom_action_spec in H
      as (_ & Hstored & Hother); [|done].
  fold app_name controller_name in Hstored, Hother.
  rewrite Hcontrollers in Hstored.
  split; [|split; [|split]].
  - eexists. rewrite method_of_controller, Hstored. cbn.
    by rewrite lookup_insert_eq.
  - intros method Hne. rewrite !method_of_controller, Hstored. cbn.
    rewrite lookup_insert_ne by done.
    by destruct (controller_of reg app_name controller_name).
  - intros other Hne. by rewrite Hother, Hcontrollers.
  - exact Hothers.
Qed.

Lemma custom_action_records_entry_witness :
  let conventional :=
    (register_service Example.cfg "shop" (Example.widget_service None) ∅).1 in
  let reg' :=
    (register_custom_action Example.cfg (Example.widget_service None) "List"
       (SpecStr "google.protobuf.Empty") (SpecStr "google.protobuf.Struct")
       None None true true false false conventional).1 in
  method_of conventional "shop" "WidgetController" "List"
  = Some {| request := {| is_stream := false; message := "WidgetListRequest" |};
            response := {| is_stream := false;
                           message := "WidgetListResponse" |} |}
  ∧ (∃ entry,
        method_of reg' "shop" "WidgetController" "List" = Some entry
        ∧ is_stream (request entry) = true
        ∧ is_stream (response entry) = true)
  ∧ method_of reg' "shop" "WidgetController" "Create"
    = method_of conventional "shop" "WidgetController" "Create".
Proof.
  intros conventional reg'.
  split; [vm_compute; reflexivity|].
  destruct (custom_action_records_entry
              Example.cfg (Example.widget_service None) "List"
              (SpecStr "google.protobuf.Empty") (SpecStr "google.protobuf.Struct")
              None None true true false false conventional reg'
              ltac:(vm_compute; reflexivity))
    as (Hentry & Hmethods & _).
  split; [exact Hentry|]. by apply Hmethods.
Defined.

(** X6: a custom action whose request or response is neither a list, a
    [str] nor a serializer class raises, and no controller of any app
    changes: no method is recorded.  When it is the request, as with the
    default [None], the exception is the [RegisterServiceException] that
    names the function and the app. *)
Theorem custom_action_unsupported_message
    cfg service_class function_name request_spec response_spec request_name
    response_name request_stream response_stream use_request_list
    use_response_list reg reg' r :
  request_spec = SpecOther ∨ response_spec = SpecOther →
  register_custom_action cfg service_class function_name request_spec
    response_spec request_name response_name request_stream response_stream
    use_request_list use_response_list reg = (reg', r) →
  (∃ e, r = Raise e)
  ∧ (∀ app_name controller_name,
        controller_of reg' app_name controller_name
        = controller_of reg app_name controller_name)
  ∧ (request_spec = SpecOther →
     r = Raise (RegisterServiceException
                  (unsupported_message
                     true function_name
                     (get_app_name_from_service_class service_class)))).
Proof.
  intros Hspec H. pose proof H as Hrun.
  apply register_custom_action_inv in H
      as (reg1 & _ & Hcontrollers & _
          & [[-> Hraise]
            |(child_request & child_response & Hrequest & Hresponse & _)]);
    [|by destruct Hspec].
  split; [done|]. split; [done|].
  intros ->. unfold register_custom_action in Hrun.
  apply bind_inv in Hrun
      as [(reg0 & registered & Hregistered & Hrun)|(e & [=] & _)].
  apply bind_inv in Hrun as [(reg2 & u & Hinit & Hrun)|(e & Hinit & _)];
    destruct (init_if_absent _ _ _ _ _ _ Hregistered Hinit) as [Hok _];
    [|done].
  by injection Hrun as _ <-.
Qed.

Lemma custom_action_unsupported_message_witness :
  let outcome :=
    register_custom_action Example.cfg (Example.widget_service None) "Search"
      SpecOther (SpecStr "google.protobuf.Struct") None None
      false false false false ∅ in
  outcome.2
  = Raise (RegisterServiceException
             "Request message for function Search in app shop is not a list, a serializer or a string")
  ∧ controller_of outcome.1 "shop" "WidgetController" = None.
Proof.
  intros outcome.
  assert (register_custom_action
            Example.cfg (Example.widget_service None) "Search"
            SpecOther (SpecStr "google.protobuf.Struct") None None
            false false false false ∅ = (outcome.1, outcome.2)) as Hrun
      by (vm_compute; reflexivity).
  destruct (custom_action_unsupported_message
              Example.cfg (Example.widget_service None) "Search"
              SpecOther (SpecStr "google.protobuf.Struct") None None
              false false false false ∅ outcome.1 outcome.2
              (or_introl eq_refl) Hrun)
    as (_ & Hcontrollers & Hrequest).
  split; [exact (Hrequest eq_refl)|]. exact (Hcontrollers _ _).
Defined.

(** X7: a custom action whose request and response are each an empty list
    or a [str], without list wrappers, always returns and registers no
    message: the messages of every app are as they were.  Its entry names
    [google.protobuf.Empty] for an empty list and the [str] as it is; an
    explicit request name is not used, an explicit response name that is
    not empty replaces the name of the response. *)
Theorem custom_action_of_names
    cfg service_class function_name request_spec response_spec request_name
    response_name request_stream response_stream request_message
    response_message reg reg' r :
  names_message request_spec = Some request_message →
  names_message response_spec = Some response_message →
  register_custom_action cfg service_class function_name request_spec
    response_spec request_name response_name request_stream response_stream
    false false reg = (reg', r) →
  r = Ok tt
  ∧ (∀ app_name message_name,
        message_of reg' app_name message_name
        = message_of reg app_name message_name)
  ∧ method_of reg' (get_app_name_from_service_class service_class)
              (get_service_name service_class +:+ "Controller") function_name
    = Some {| request := {| is_stream := request_stream;
                            message := request_message |};
              response := {| is_stream := response_stream;
                             message := explicit_or response_name
                                                    response_message |} |}.
Proof.
  intros Hrequest Hresponse H. unfold register_custom_action in H.
  set (app_name := get_app_name_from_service_class service_class) in *.
  apply bind_inv in H as [(reg0 & registered & Hregistered & H)|(e & [=] & _)].
  apply bind_inv in H as [(reg2 & u & Hinit & H)|(e & Hinit & _)];
    destruct (init_if_absent _ _ _ _ _ _ Hregistered Hinit)
      as (Hok & Happ & _ & _ & Hmessages & _); [|done].
  cbv beta in H.
  erewrite bind_ok in H by by apply custom_message_of_name.
  cbv beta iota in H. erewrite bind_ok in H by reflexivity.
  erewrite bind_ok in H by by apply custom_message_of_name.
  cbv beta iota in H. erewrite bind_ok in H by reflexivity.
  pose proof (same_messages_custom_method _ _ _ _ _ _ _ _ _ _ H) as Hkept.
  apply register_method_for_custom_action_spec in H
      as (-> & Hstored & _); [|done].
  split; [done|]. split.
  - intros app message_name. by rewrite Hkept, Hmessages.
  - rewrite method_of_controller. fold app_name. rewrite Hstored. cbn.
    by rewrite lookup_insert_eq.
Qed.

Lemma custom_action_of_names_witness :
  let outcome :=
    register_custom_action Example.cfg (Example.widget_service None) "Ping"
      (SpecList []) (SpecStr "google.protobuf.Struct") (Some "PingRequest")
      (Some "Pong") false true false false ∅ in
  outcome.2 = Ok tt
  ∧ message_of outcome.1 "shop" "PingRequest" = None
  ∧ message_of outcome.1 "shop" "Pong" = None
  ∧ method_of outcome.1 "shop" "WidgetController" "Ping"
    = Some {| request := {| is_stream := false;
                            message := "google.protobuf.Empty" |};
              response := {| is_stream := true; message := "Pong" |} |}.
Proof.
  intros outcome.
  assert (register_custom_action
            Example.cfg (Example.widget_service None) "Ping"
            (SpecList []) (SpecStr "google.protobuf.Struct")
            (Some "PingRequest") (Some "Pong") false true false false ∅
          = (outcome.1, outcome.2)) as Hrun
      by (vm_compute; reflexivity).
  destruct (custom_action_of_names
              Example.cfg (Example.widget_service None) "Ping"
              (SpecList []) (SpecStr "google.protobuf.Struct")
              (Some "PingRequest") (Some "Pong") false true
              "google.protobuf.Empty" "google.protobuf.Struct"
              ∅ outcome.1 outcome.2 eq_refl eq_refl Hrun)
    as (Hok & Hmessages & Hentry).
  split; [exact Hok|]. split; [exact (Hmessages "shop" "PingRequest")|].
  split; [exact (Hmessages "shop" "Pong")|]. exact Hentry.
Defined.

(** X8: with [use_request_list] and no explicit request name, the request
    of the entry is the list message made for it, and the name of that list
    message ends with [ListResponse], not [ListRequest]: the generated name
    of a list message takes the response suffix on both sides. *)
Theorem custom_request_list_takes_response_suffix
    cfg service_class function_name request_spec response_spec response_name
    request_stream response_stream use_response_list reg reg' :
  register_custom_action cfg service_class function_name request_spec
    response_spec None response_name request_stream response_stream
    true use_response_list reg = (reg', Ok tt) →
  ∃ entry child,
    method_of reg' (get_app_name_from_service_class service_class)
              (get_service_name service_class +:+ "Controller") function_name
    = Some entry
    ∧ message (request entry)
      = get_base_name_for_list_message
          (get_service_name service_class) function_name child true
        +:+ "ListResponse".
Proof.
  intros H.
  apply register_custom_action_inv in H
      as (reg1 & Happ & _ & _
          & [[_ [e [=]]]|(child_request & child_response & _ & _ & _ & _ & H)]).
  apply register_method_for_custom_action_spec in H
      as (_ & Hstored & _); [|done].
  eexists _, child_request. rewrite method_of_controller, Hstored. cbn.
  by rewrite lookup_insert_eq.
Qed.

Lemma custom_request_list_takes_response_suffix_witness :
  let reg' :=
    (register_custom_action Example.cfg (Example.widget_service None) "Search"
       (SpecSerializer Example.widget) (SpecStr "google.protobuf.Empty")
       None None false false true false ∅).1 in
  ∃ entry base,
    method_of reg' "shop" "WidgetController" "Search" = Some entry
    ∧ message (request entry) = base +:+ "ListResponse"
    ∧ message_of reg' "shop" (message (request entry))
      = Some [("results", "repeated WidgetRequest")].
Proof.
  intros reg'.
  assert (register_custom_action
            Example.cfg (Example.widget_service None) "Search"
            (SpecSerializer Example.widget) (SpecStr "google.protobuf.Empty")
            None None false false true false ∅ = (reg', Ok tt)) as Hrun
      by (vm_compute; reflexivity).
  destruct (custom_request_list_takes_response_suffix
              Example.cfg (Example.widget_service None) "Search"
              (SpecSerializer Example.widget) (SpecStr "google.protobuf.Empty")
              None false false false ∅ reg' Hrun)
    as (entry & child & Hentry & Hname).
  exists entry, (get_base_name_for_list_message
                   "Widget" "Search" child true).
  split; [exact Hentry|]. split; [exact Hname|].
  change (method_of reg' "shop" "WidgetController" "Search" = Some entry)
    in Hentry.
  assert (method_of reg' "shop" "WidgetController" "Search"
          = Some {| request := {| is_stream := false;
                                  message := "WidgetListResponse" |};
                    response := {| is_stream := false;
                                   message := "google.protobuf.Empty" |} |})
    as Hcomputed by (vm_compute; reflexivity).
  rewrite Hcomputed in Hentry. injection Hentry as <-.
  vm_compute. reflexivity.
Defined.

(** ** Properties of the names of the list messages *)

Section slice_facts.

Import PyStrFacts.

Lemma length_app a b :
  String.length (a +:+ b) = String.length a + String.length b.
Proof.
  induction a as [|c a IH]; [done|].
  rewrite append_cons. cbn [String.length]. by rewrite IH.
Qed.

Lemma take_app a b : PyStr.take (String.length a) (a +:+ b) = a.
Proof.
  induction a as [|c a IH]; [done|].
  rewrite append_cons. cbn [String.length PyStr.take]. by rewrite IH.
Qed.

Lemma drop_app a b : PyStr.drop (String.length a) (a +:+ b) = b.
Proof.
  induction a as [|c a IH]; [done|].
  rewrite append_cons. by cbn [String.length PyStr.drop].
Qed.

Lemma endswith_app a suffix : PyStr.endswith suffix (a +:+ suffix) = true.
Proof.
  unfold PyStr.endswith. rewrite length_app, Nat.add_sub, drop_app.
  rewrite String.eqb_refl, bool_decide_eq_true_2; [done|lia].
Qed.

Lemma slice_until_neg_app a suffix :
  suffix ≠ "" →
  PyStr.slice_until_neg (String.length suffix) (a +:+ suffix) = a.
Proof.
  intros Hsuffix. unfold PyStr.slice_until_neg.
  destruct suffix as [|c suffix]; [done|]. cbn [String.length].
  rewrite length_app. cbn [String.length].
  replace (String.length a + S (String.length suffix) - S (String.length suffix))
    with (String.length a) by lia.
  apply take_app.
Qed.

Lemma slice_from_neg_app a suffix :
  suffix ≠ "" →
  PyStr.slice_from_neg (String.length suffix) (a +:+ suffix) = suffix.
Proof.
  intros Hsuffix. unfold PyStr.slice_from_neg.
  destruct suffix as [|c suffix]; [done|].
  cbn [String.length]. rewrite length_app. cbn [String.length].
  replace (String.length a + S (String.length suffix)
           - S (String.length suffix))
    with (String.length a) by lia.
  apply drop_app.
Qed.

End slice_facts.

Section list_name_facts.

Context (cfg : settings).

Lemma register_list_message_ok app_name service_instance base_name
    list_response_field_name child_response_message_name message_name is_request
    reg reg' r :
  is_Some (reg !! app_name) →
  register_list_message_of_serializer cfg app_name service_instance base_name
    list_response_field_name child_response_message_name message_name is_request
    reg = (reg', r) →
  r = Ok (list_message_name cfg base_name message_name is_request).
Proof.
  intros Happ H. unfold register_list_message_of_serializer in H.
  apply bind_inv in H as [(reg1 & u & Hset & H)|(e & Hset & _)].
  - by injection H as _ <-.
  - by apply set_message_ok in Hset.
Qed.

End list_name_facts.

(** X9: with separate request and response messages, a list message
    registered under an explicit name that ends with the suffix of its
    side is named with [List] inserted before the suffix, and holds the
    repeated field of the child message, followed by [count] when the
    service paginates. *)
Theorem explicit_list_name_inserts_list
    cfg app_name service_instance base_name list_response_field_name
    child_response_message_name stem (is_request : bool) (reg : registry)
    reg' r :
  SEPARATE_READ_WRITE_MODEL cfg = true →
  is_Some (reg !! app_name) →
  let suffix := if is_request then REQUEST_SUFFIX else RESPONSE_SUFFIX in
  register_list_message_of_serializer cfg app_name service_instance base_name
    list_response_field_name child_response_message_name
    (Some (stem +:+ suffix)) is_request reg = (reg', r) →
  r = Ok (stem +:+ "List" +:+ suffix)
  ∧ message_of reg' app_name (stem +:+ "List" +:+ suffix)
    = Some ((list_response_field_name,
             "repeated " +:+ child_response_message_name)
            :: (if pagination_enabled cfg service_instance
                then [("count", "int32")] else [])).
Proof.
  intros Hseparate Happ suffix H.
  assert (list_message_name cfg base_name (Some (stem +:+ suffix)) is_request
          = stem +:+ "List" +:+ suffix) as Hname.
  { unfold list_message_name. rewrite Hseparate.
    destruct (stem +:+ suffix) as [|c rest] eqn:Hfull.
    { destruct stem; [by destruct is_request|done]. }
    rewrite <- Hfull. subst suffix.
    destruct is_request; cbn [andb negb]; rewrite endswith_app;
      by rewrite slice_until_neg_app, slice_from_neg_app. }
  pose proof (register_list_message_ok _ _ _ _ _ _ _ _ _ _ _ Happ H) as ->.
  apply register_list_message_inv in H as [_ Hstored].
  destruct (Hstored _ eq_refl) as [_ Hmessage].
  rewrite Hname in *. by split.
Qed.

Lemma explicit_list_name_inserts_list_witness :
  let outcome :=
    register_list_message_of_serializer Example.cfg "shop"
      (Example.widget_service (Some "PageNumberPagination")) "Widget" "results"
      "WidgetResponse" (Some "CatalogueResponse") false Example.shop in
  outcome.2 = Ok "CatalogueListResponse"
  ∧ message_of outcome.1 "shop" "CatalogueListResponse"
    = Some [("results", "repeated WidgetResponse"); ("count", "int32")].
Proof.
  intros outcome.
  apply (explicit_list_name_inserts_list
           Example.cfg "shop"
           (Example.widget_service (Some "PageNumberPagination")) "Widget"
           "results" "WidgetResponse" "Catalogue" false Example.shop
           outcome.1 outcome.2);
    vm_compute; eauto.
Defined.

(** X10: a list message registered under an explicit name that does not
    end with the suffix of its side is named, with separate request and
    response messages, [List] followed by the explicit name (the two
    slices by a zero suffix length put the whole name after [List]); with
    a single message for both it is named the explicit name followed by
    [List]. *)
Theorem explicit_list_name_without_suffix
    cfg app_name service_instance base_name list_response_field_name
    child_response_message_name name is_request reg reg' returned :
  name ≠ "" →
  register_list_message_of_serializer cfg app_name service_instance base_name
    list_response_field_name child_response_message_name (Some name) is_request
    reg = (reg', Ok returned) →
  (SEPARATE_READ_WRITE_MODEL cfg = false → returned = name +:+ "List")
  ∧ (SEPARATE_READ_WRITE_MODEL cfg = true →
     PyStr.endswith (if is_request then REQUEST_SUFFIX else RESPONSE_SUFFIX) name
     = false →
     returned = "List" +:+ name).
Proof.
  intros Hname H.
  apply register_list_message_inv in H as [_ Hreturned].
  destruct (Hreturned _ eq_refl) as [-> _].
  unfold list_message_name. destruct name as [|c rest]; [done|].
  split; intros ->; [done|].
  intros Hends. by destruct is_request; cbn [andb negb]; rewrite Hends.
Qed.

Lemma explicit_list_name_without_suffix_witness :
  let outcome :=
    register_list_message_of_serializer Example.cfg "shop"
      (Example.widget_service None) "Widget" "results" "WidgetResponse"
      (Some "Catalogue") false Example.shop in
  ∃ returned, outcome.2 = Ok returned ∧ returned = "ListCatalogue".
Proof.
  intros outcome.
  assert (register_list_message_of_serializer Example.cfg "shop"
            (Example.widget_service None) "Widget" "results" "WidgetResponse"
            (Some "Catalogue") false Example.shop
          = (outcome.1, Ok "ListCatalogue")) as Hrun
      by (vm_compute; reflexivity).
  exists "ListCatalogue". split; [vm_compute; reflexivity|].
  exact (proj2 (explicit_list_name_without_suffix
                  Example.cfg "shop" (Example.widget_service None) "Widget"
                  "results" "WidgetResponse" "Catalogue" false Example.shop
                  outcome.1 "ListCatalogue" ltac:(discriminate) Hrun)
               eq_refl eq_refl).
Defined.

(** ** Properties of the registered fields *)

Section retained_facts.

Context (cfg : settings).

Lemma retained_names pk is_request fields name :
  name ∈ (List.filter (retained cfg pk is_request) fields).*1 ↔
  ∃ field_type,
    (name, field_type) ∈ fields
    ∧ retained cfg pk is_request (name, field_type) = true.
Proof.
  rewrite list_elem_of_fmap. split.
  - intros ([field_name field_type] & -> & Hin).
    apply list_elem_of_In, filter_In in Hin as [Hin Hretained].
    exists field_type. by rewrite list_elem_of_In.
  - intros (field_type & Hin & Hretained).
    exists (name, field_type). split; [done|].
    apply list_elem_of_In, filter_In. by rewrite <- list_elem_of_In.
Qed.

(** What a message registered for the first time holds. *)
Lemma register_serializer_fresh app_name serializer_instance message_name
    is_request reg reg' name :
  message_of reg app_name
             (registered_name cfg serializer_instance message_name is_request)
  = None →
  register_serializer_as_message_if_not_exist
    cfg app_name serializer_instance message_name is_request reg
  = (reg', Ok name) →
  name = registered_name cfg serializer_instance message_name is_request
  ∧ ∃ pk stored,
      serializer_pk_name serializer_instance = Ok pk
      ∧ message_of reg' app_name name = Some stored
      ∧ stored.*1
        = (List.filter (retained cfg pk is_request)
                       (declared_fields serializer_instance)).*1.
Proof.
  intros Hfresh H. apply register_serializer_inv in H as [_ H].
  destruct (H _ eq_refl) as [-> [[[? Hsome] _]|[_ Hstored]]]; [congruence|done].
Qed.

End retained_facts.

(** X11: with a single message for requests and responses, the message
    registered for a serializer holds the declared fields that are not
    hidden, all of them and in the order of their declaration, read-only
    and write-only fields included. *)
Theorem single_message_holds_declared_fields
    cfg app_name serializer_instance message_name is_request reg reg' name :
  SEPARATE_READ_WRITE_MODEL cfg = false →
  message_of reg app_name
             (registered_name cfg serializer_instance message_name is_request)
  = None →
  register_serializer_as_message_if_not_exist
    cfg app_name serializer_instance message_name is_request reg
  = (reg', Ok name) →
  ∃ stored,
    message_of reg' app_name name = Some stored
    ∧ stored.*1
      = (List.filter
           (fun item => negb (issubclass (field_class item.2) HiddenField))
           (declared_fields serializer_instance)).*1.
Proof.
  intros Hsingle Hfresh H.
  apply register_serializer_fresh in H
      as (_ & pk & stored & _ & Hstored & Hnames); [|done].
  exists stored. split; [done|]. rewrite Hnames. f_equal.
  apply filter_ext. intros [field_name field_type].
  unfold retained, field_is_filtered. rewrite Hsingle. cbn.
  by rewrite andb_true_r.
Qed.

Lemma single_message_holds_declared_fields_witness :
  let single :=
    {| SEPARATE_READ_WRITE_MODEL := false;
       DEFAULT_PAGINATION_CLASS := None;
       django_has_PositiveBigIntegerField := true |} in
  let reg' :=
    (register_serializer_as_message_if_not_exist
       single "shop" ItemExample.item None true Example.shop).1 in
  ∃ stored,
    message_of reg' "shop" "Item" = Some stored
    ∧ stored.*1 = ["id"; "slug"; "name"; "secret"].
Proof.
  intros single reg'.
  apply (single_message_holds_declared_fields
           single "shop" ItemExample.item None true Example.shop reg' "Item");
    vm_compute; reflexivity.
Defined.

(** X12: with separate request and response messages, a field of the
    message registered for a serializer is a declared field that is not
    hidden and that is the primary key of the model, or is not read-only
    (in a request), not write-only (in a response).  The primary key, when
    it is declared and not hidden, is in the message, read-only or not. *)
Theorem registered_fields_are_filtered
    cfg app_name serializer_instance message_name (is_request : bool)
    reg reg' name :
  message_of reg app_name
             (registered_name cfg serializer_instance message_name is_request)
  = None →
  register_serializer_as_message_if_not_exist
    cfg app_name serializer_instance message_name is_request reg
  = (reg', Ok name) →
  ∃ pk stored,
    serializer_pk_name serializer_instance = Ok pk
    ∧ message_of reg' app_name name = Some stored
    ∧ (SEPARATE_READ_WRITE_MODEL cfg = true →
       ∀ field_name,
         field_name ∈ stored.*1 →
         ∃ field_type,
           (field_name, field_type) ∈ declared_fields serializer_instance
           ∧ issubclass (field_class field_type) HiddenField = false
           ∧ (pk = Some field_name
              ∨ (if is_request then field_type_is_read_only field_type
                 else field_type_is_write_only field_type) = Ok false))
    ∧ (∀ field_name field_type,
          pk = Some field_name →
          (field_name, field_type) ∈ declared_fields serializer_instance →
          issubclass (field_class field_type) HiddenField = false →
          field_name ∈ stored.*1).
Proof.
  intros Hfresh H.
  apply register_serializer_fresh in H
      as (_ & pk & stored & Hpk & Hstored & Hnames); [|done].
  exists pk, stored. split; [done|]. split; [done|]. rewrite Hnames. split.
  - intros Hdual field_name (field_type & Hin & Hretained)%retained_names.
    exists field_type. split; [done|].
    unfold retained, field_is_filtered in Hretained. rewrite Hdual in Hretained.
    cbn in Hretained.
    apply andb_true_iff in Hretained as [Hhidden%negb_true_iff Hretained].
    split; [done|].
    case_bool_decide as Hkey; [by left|right]. cbn in Hretained.
    destruct is_request;
      by destruct (_ field_type) as [[]|] in Hretained |- *.
  - intros field_name field_type -> Hin Hhidden.
    apply retained_names. exists field_type. split; [done|].
    unfold retained, field_is_filtered. cbn. rewrite Hhidden.
    rewrite bool_decide_eq_true_2 by done. cbn. by rewrite andb_false_r.
Qed.

Lemma registered_fields_are_filtered_witness :
  let reg' :=
    (register_serializer_as_message_if_not_exist
       Example.cfg "shop" ItemExample.item None true Example.shop).1 in
  ∃ stored,
    message_of reg' "shop" "ItemRequest" = Some stored
    ∧ stored.*1 = ["id"; "name"; "secret"]
    ∧ "id" ∈ stored.*1.
Proof.
  intros reg'.
  destruct (registered_fields_are_filtered
              Example.cfg "shop" ItemExample.item None true Example.shop reg'
              "ItemRequest" ltac:(vm_compute; reflexivity)
              ltac:(vm_compute; reflexivity))
    as (pk & stored & Hpk & Hstored & _ & Hkey).
  exists stored. split; [exact Hstored|]. split.
  - assert (message_of reg' "shop" "ItemRequest"
            = Some [("id", "string"); ("name", "string"); ("secret", "string")])
      as Hcomputed by (vm_compute; reflexivity).
    rewrite Hcomputed in Hstored. by injection Hstored as <-.
  - injection Hpk as <-.
    apply (Hkey "id" (ItemExample.flagged "ReadOnlyField" [ReadOnlyField]
                                          true false));
      [reflexivity|apply list_elem_of_here|reflexivity].
Defined.

(** X13: a type that the resolver returns for a serializer field names a
    registered message: resolving a field that is a proto serializer, or a
    list of them, returns the message name of the serializer, after
    [repeated] for a list, and this message is registered in the app when
    the resolution returns. *)
Theorem nested_serializer_is_registered
    cfg app_name cls attributes child child_relation declared field_name
    serializer_instance is_request reg reg' proto_type :
  let field_type := PyField cls attributes child child_relation declared in
  issubclass cls ListProtoSerializer || issubclass cls BaseProtoSerializer
  = true →
  get_proto_type cfg app_name field_type field_name serializer_instance
                 is_request reg = (reg', Ok proto_type) →
  ∃ nested,
    from_option (eq nested) (nested = field_type)
      (if issubclass cls ListProtoSerializer then child else None)
    ∧ proto_type
      = (if issubclass cls ListProtoSerializer then "repeated " else "")
        +:+ registered_name cfg nested None is_request
    ∧ is_Some (message_of reg' app_name
                 (registered_name cfg nested None is_request)).
Proof.
  intros field_type Hclass H. unfold field_type in H.
  cbn [get_proto_type] in H.
  destruct (issubclass cls ListProtoSerializer).
  - destruct child as [nested|]; [|by pure_inv H].
    bind_inv H as reg1 name Hregister. pure_inv H.
    apply (register_serializer_registered cfg) in Hregister as [-> Hsome].
    by exists nested.
  - cbn in Hclass. rewrite Hclass in H.
    bind_inv H as reg1 name Hregister. pure_inv H.
    apply (register_serializer_registered cfg) in Hregister as [-> Hsome].
    by exists field_type.
Qed.

Lemma nested_serializer_is_registered_witness :
  let outcome :=
    get_proto_type Example.cfg "shop"
      (PyField ItemExample.item_list_class Example.field_attrs
               (Some ItemExample.item) None [])
      "items" ItemExample.order false Example.shop in
  outcome.2 = Ok "repeated ItemResponse"
  ∧ is_Some (message_of outcome.1 "shop" "ItemResponse").
Proof.
  intros outcome.
  assert (get_proto_type Example.cfg "shop"
            (PyField ItemExample.item_list_class Example.field_attrs
                     (Some ItemExample.item) None [])
            "items" ItemExample.order false Example.shop
          = (outcome.1, Ok "repeated ItemResponse")) as Hrun
      by (vm_compute; reflexivity).
  split; [vm_compute; reflexivity|].
  destruct (nested_serializer_is_registered
              Example.cfg "shop" ItemExample.item_list_class
              Example.field_attrs (Some ItemExample.item) None [] "items"
              ItemExample.order false Example.shop outcome.1
              "repeated ItemResponse" eq_refl Hrun)
    as (nested & Hnested & _ & Hregistered).
  change (nested = ItemExample.item) in Hnested. subst nested.
  exact Hregistered.
Defined.

(** X14: registering a serializer in an app that is not registered raises
    [KeyError] with the name of the app and registers nothing, where
    registering a service or a custom action would register the app; and a
    serializer without [Meta] raises [AttributeError] before the registry
    is read. *)
Theorem register_serializer_needs_app_and_meta
    cfg app_name serializer_instance message_name is_request (reg : registry) :
  (field_Meta serializer_instance = None →
   register_serializer_as_message_if_not_exist
     cfg app_name serializer_instance message_name is_request reg
   = (reg, Raise (AttributeError "Meta")))
  ∧ (is_Some (field_Meta serializer_instance) →
     reg !! app_name = None →
     register_serializer_as_message_if_not_exist
       cfg app_name serializer_instance message_name is_request reg
     = (reg, Raise (KeyError app_name))).
Proof.
  unfold register_serializer_as_message_if_not_exist, register_serializer_with,
    serializer_pk_name.
  split.
  - by intros ->.
  - intros [serializer_meta ->] Happ. cbn. unfold bind, lift, get_app. cbn.
    by rewrite Happ.
Qed.

Lemma register_serializer_needs_app_and_meta_witness :
  register_serializer_as_message_if_not_exist
    Example.cfg "shop" (Example.leaf "CharField" []) None true Example.shop
  = (Example.shop, Raise (AttributeError "Meta"))
  ∧ register_serializer_as_message_if_not_exist
      Example.cfg "depot" Example.widget None true Example.shop
    = (Example.shop, Raise (KeyError "depot")).
Proof.
  destruct (register_serializer_needs_app_and_meta
              Example.cfg "shop" (Example.leaf "CharField" []) None true
              Example.shop) as [Hmeta _].
  destruct (register_serializer_needs_app_and_meta
              Example.cfg "depot" Example.widget None true Example.shop)
    as [_ Happ].
  split; [by apply Hmeta|]. apply Happ; [by eexists|reflexivity].
Defined.

(** ** The exceptions of the conventional path *)

Create HintDb raises discriminated.

Section raises_facts.

Context (allowed : exn → Prop).

Lemma raises_only_ret {A} (a : A) : raises_only allowed (ret a).
Proof. intros reg reg' e H. by apply lift_inv in H as [_ [=]]. Qed.

Lemma raises_only_raise {A} e : allowed e → raises_only allowed (@raise A e).
Proof. intros He reg reg' e' H. by apply lift_inv in H as [_ [= <-]]. Qed.

Lemma raises_only_lift {A} (x : result A) :
  (∀ e, x = Raise e → allowed e) → raises_only allowed (lift x).
Proof. intros Hx reg reg' e H. apply lift_inv in H as [_ ->]. by apply Hx. Qed.

Lemma raises_only_bind {A B} (m : M A) (k : A → M B) :
  raises_only allowed m → (∀ a, raises_only allowed (k a)) →
  raises_only allowed (bind m k).
Proof.
  intros Hm Hk reg reg' e H.
  apply bind_inv in H as [(reg1 & a & _ & Hthen)|(e' & Hfirst & [= <-])].
  - by eapply Hk.
  - by eapply Hm.
Qed.

Lemma raises_only_for_each {A} (body : A → M unit) items :
  (∀ item, item ∈ items → raises_only allowed (body item)) →
  raises_only allowed (for_each body items).
Proof.
  induction items as [|item rest IH]; intros Hbody; [apply raises_only_ret|].
  cbn [for_each]. apply raises_only_bind.
  - apply Hbody, list_elem_of_here.
  - intros _. apply IH. intros other Hother.
    by apply Hbody, list_elem_of_further.
Qed.

Lemma raises_only_has_app app_name : raises_only allowed (has_app app_name).
Proof. by intros reg reg' e [=]. Qed.

Lemma raises_only_init_app app_name : raises_only allowed (init_app app_name).
Proof. by intros reg reg' e [=]. Qed.

Context (Hkey : ∀ key, allowed (KeyError key)).

Lemma raises_only_get_app app_name : raises_only allowed (get_app app_name).
Proof.
  intros reg reg' e H.
  by apply get_app_inv in H as [_ [(a & _ & [=])|[_ [= ->]]]].
Qed.

Lemma raises_only_set_message app_name name fields :
  raises_only allowed (set_message app_name name fields).
Proof.
  intros reg reg' e H.
  by apply set_message_inv in H as [(a & _ & [=] & _)|(_ & _ & [= ->])].
Qed.

Lemma raises_only_set_controller app_name controller_name entries :
  raises_only allowed (set_controller app_name controller_name entries).
Proof.
  intros reg reg' e H.
  by apply set_controller_inv in H as [(a & _ & [=] & _)|(_ & _ & [= ->])].
Qed.

Lemma raises_only_get_controller app_name controller_name :
  raises_only allowed (get_controller app_name controller_name).
Proof.
  unfold get_controller. apply raises_only_bind; [apply raises_only_get_app|].
  intros a. destruct (registered_controllers a !! controller_name).
  - apply raises_only_ret.
  - by apply raises_only_raise.
Qed.

Lemma raises_only_append_to_message app_name name item :
  raises_only allowed (append_to_message app_name name item).
Proof.
  unfold append_to_message.
  apply raises_only_bind; [apply raises_only_get_app|].
  intros a. destruct (registered_messages a !! name).
  - apply raises_only_set_message.
  - by apply raises_only_raise.
Qed.

Lemma raises_only_set_method app_name controller_name method entry :
  raises_only allowed (set_method app_name controller_name method entry).
Proof.
  unfold set_method.
  apply raises_only_bind; [apply raises_only_get_controller|].
  intros c. apply raises_only_set_controller.
Qed.

End raises_facts.

#[global] Hint Resolve raises_only_ret raises_only_has_app raises_only_init_app
  raises_only_get_app raises_only_set_message raises_only_set_controller
  raises_only_get_controller raises_only_append_to_message raises_only_set_method
  : raises.
#[global] Hint Extern 2 (raises_only _ (bind _ _)) =>
  apply raises_only_bind; [|intros ?] : raises.
#[global] Hint Extern 3 (raises_only _ (match ?scrutinee with _ => _ end)) =>
  destruct scrutinee : raises.
#[global] Hint Extern 1 (conventional_error (KeyError _)) => exact I : raises.
#[global] Hint Extern 1 (conventional_error (AttributeError _)) =>
  exact I : raises.

Section conventional_errors.

Context (cfg : settings).

Ltac pure_error :=
  intros e H;
  repeat first [progress simplify_eq | progress cbn in * | case_match];
  try exact I.

Lemma field_is_filtered_error pk is_request field_name field_type :
  ∀ e, field_is_filtered cfg pk is_request field_name field_type = Raise e →
       conventional_error e.
Proof.
  unfold field_is_filtered, field_type_is_read_only, field_type_is_write_only.
  pure_error.
Qed.

Lemma serializer_pk_name_error serializer_instance :
  ∀ e, serializer_pk_name serializer_instance = Raise e → conventional_error e.
Proof. unfold serializer_pk_name. pure_error. Qed.

Lemma get_pk_from_related_field_error related_field :
  ∀ e, get_pk_from_related_field cfg related_field = Raise e →
       conventional_error e.
Proof. unfold get_pk_from_related_field. pure_error. Qed.

Lemma get_pk_from_slug_related_field_error slug_related_field field_name
    serializer_instance :
  ∀ e, get_pk_from_slug_related_field cfg slug_related_field field_name
         serializer_instance = Raise e →
       conventional_error e.
Proof. unfold get_pk_from_slug_related_field. pure_error. Qed.

Lemma get_proto_type_from_inspect_error field_type field_name
    serializer_instance :
  ∀ e, get_proto_type_from_inspect field_type field_name serializer_instance
       = Raise e →
       conventional_error e.
Proof.
  unfold get_proto_type_from_inspect, python_type_to_proto_type.
  pure_error; left; by eexists _, _.
Qed.

Lemma bind_fields_error fields :
  ∀ e, bind_fields fields = Raise e → e = AttributeError "bind".
Proof.
  induction fields as [|[name [s|cls a child child_relation declared]] rest IH];
    intros e H; cbn [bind_fields] in H; [done|by injection H|].
  destruct (bind_fields rest); [done|]. injection H as <-. by apply IH.
Qed.

Lemma serializer_fields_error serializer_instance :
  ∀ e, serializer_fields serializer_instance = Raise e → conventional_error e.
Proof.
  destruct serializer_instance as [s|cls a child child_relation declared];
    intros e H; [by injection H as <-|].
  by rewrite (bind_fields_error _ _ H).
Qed.

Lemma get_lookup_field_from_serializer_error serializer_instance
    service_instance field_name :
  ∀ e, get_lookup_field_from_serializer cfg serializer_instance
         service_instance field_name = Raise e →
       conventional_error e.
Proof.
  unfold get_lookup_field_from_serializer. intros e H.
  destruct (serializer_fields serializer_instance) as [fields|e'] eqn:Hfields.
  - destruct (fields_lookup _ fields); [done|].
    injection H as <-. right. by eexists _, _.
  - injection H as <-. by eapply serializer_fields_error.
Qed.

Hint Extern 1 (raises_only _ (lift _)) =>
  apply raises_only_lift;
  first [ apply field_is_filtered_error | apply serializer_pk_name_error
        | apply get_pk_from_related_field_error
        | apply get_pk_from_slug_related_field_error
        | apply get_proto_type_from_inspect_error
        | apply get_lookup_field_from_serializer_error ] : raises.
Hint Extern 1 (raises_only _ (raise _)) =>
  apply raises_only_raise : raises.

Section registrar_errors.

Variable resolve : string → field → string → field → bool → M string.

Lemma register_fields_raises app_name message_name pk serializer_instance
    is_request fields :
  Forall (fun item => resolver_raises conventional_error resolve item.2) fields →
  raises_only conventional_error
    (register_fields cfg resolve app_name message_name pk serializer_instance
                     is_request fields).
Proof.
  induction 1 as [|[field_name field_type] rest Hitem _ IH];
    [apply raises_only_ret|].
  cbn [register_fields].
  destruct (issubclass (field_class field_type) HiddenField); [done|].
  apply raises_only_bind; [auto with raises|].
  intros [|]; [done|].
  apply raises_only_bind; [apply Hitem|].
  intros proto_type. apply raises_only_bind; [|done].
  by apply raises_only_append_to_message.
Qed.

Lemma register_serializer_with_raises app_name serializer_instance message_name
    is_request :
  Forall (fun item => resolver_raises conventional_error resolve item.2)
         (declared_fields serializer_instance) →
  raises_only conventional_error
    (register_serializer_with cfg resolve app_name serializer_instance
                              message_name is_request).
Proof.
  intros Hdeclared. unfold register_serializer_with.
  apply raises_only_bind; [auto with raises|].
  intros pk. apply raises_only_bind; [auto with raises|].
  intros a. case_bool_decide; [auto with raises|].
  apply raises_only_bind; [auto with raises|].
  intros _. destruct serializer_instance as [s|cls attributes child relation
                                               declared]; [auto with raises|].
  apply raises_only_bind; [by apply register_fields_raises|].
  auto with raises.
Qed.

End registrar_errors.

Lemma get_proto_type_raises_nested f :
  resolver_raises conventional_error (get_proto_type cfg) f
  ∧ Forall (fun item =>
              resolver_raises conventional_error (get_proto_type cfg) item.2)
           (declared_fields f).
Proof.
  induction f as [s|cls attributes child child_relation declared
                    IHchild IHrelation IHdeclared] using field_induction.
  { split; [|constructor]. intros ????. apply raises_only_ret. }
  assert (Forall (fun item =>
                    resolver_raises conventional_error (get_proto_type cfg)
                                    item.2) declared) as Hdeclared.
  { eapply Forall_impl; [exact IHdeclared|]. by intros ? []. }
  split; [|done].
  intros app_name field_name serializer_instance is_request.
  cbn [get_proto_type].
  destruct (issubclass cls ListProtoSerializer).
  { destruct child as [child|]; [|auto with raises].
    destruct IHchild as [_ IHchild].
    apply raises_only_bind; [|auto with raises].
    by apply register_serializer_with_raises. }
  destruct (issubclass cls BaseProtoSerializer).
  { apply raises_only_bind; [|auto with raises].
    by apply register_serializer_with_raises. }
  destruct (issubclass cls SlugRelatedField); [auto with raises|].
  destruct (issubclass cls ManyRelatedField).
  { destruct child_relation as [relation|]; [|auto with raises].
    destruct IHrelation as [IHrelation _].
    apply raises_only_bind; [apply IHrelation|auto with raises]. }
  destruct (issubclass cls RelatedField); [auto with raises|].
  destruct (issubclass cls ListSerializer); [auto with raises|].
  destruct (issubclass cls ModelField).
  { destruct (model_field attributes); auto with raises. }
  destruct (issubclass cls ListField).
  { destruct child; auto with raises. }
  destruct (issubclass cls DictField); [auto with raises|].
  destruct (issubclass cls BaseSerializer); [auto with raises|].
  destruct (issubclass cls SerializerMethodField); auto with raises.
Qed.

Lemma register_serializer_raises app_name serializer_instance message_name
    is_request :
  raises_only conventional_error
    (register_serializer_as_message_if_not_exist
       cfg app_name serializer_instance message_name is_request).
Proof.
  apply register_serializer_with_raises, Forall_forall.
  intros item _. apply get_proto_type_raises_nested.
Qed.

Hint Resolve register_serializer_raises : raises.

Lemma register_list_message_raises app_name service_instance base_name
    list_response_field_name child_response_message_name message_name
    is_request :
  raises_only conventional_error
    (register_list_message_of_serializer cfg app_name service_instance base_name
       list_response_field_name child_response_message_name message_name
       is_request).
Proof. unfold register_list_message_of_serializer. auto with raises. Qed.

Hint Resolve register_list_message_raises : raises.

Lemma known_method_cases (P : string → Prop) :
  P KnowMethods.LIST → P KnowMethods.CREATE → P KnowMethods.RETRIEVE →
  P KnowMethods.UPDATE → P KnowMethods.PARTIAL_UPDATE →
  P KnowMethods.DESTROY → P KnowMethods.STREAM →
  ∀ method, method ∈ KnowMethods.get_as_list → P method.
Proof.
  intros ??????? method Hin. unfold KnowMethods.get_as_list in Hin.
  repeat (apply elem_of_cons in Hin as [->|Hin]; [done|]).
  by apply elem_of_nil in Hin.
Qed.

(** Evaluates the tests on a method that is given. *)
Ltac decide_method :=
  repeat match goal with
         | |- context [bool_decide ?P] =>
             let b := eval vm_compute in (bool_decide P) in
             change (bool_decide P) with b
         end;
  cbv iota.

Lemma register_default_message_raises app_name method service_instance :
  method ∈ KnowMethods.get_as_list →
  raises_only conventional_error
    (register_default_message_from_method cfg app_name method service_instance).
Proof.
  revert method. apply known_method_cases;
    unfold register_default_message_from_method;
    decide_method;
    unfold register_list_serializer_as_message,
      register_retrieve_serializer_as_message,
      register_destroy_serializer_as_message,
      register_stream_serializer_as_message;
    auto 10 with raises.
Qed.

Lemma register_default_method_raises app_name controller_name method
    request_message_name response_message_name :
  method ∈ KnowMethods.get_as_list →
  raises_only conventional_error
    (register_default_method app_name controller_name method
                             request_message_name response_message_name).
Proof.
  revert method. apply known_method_cases;
    unfold register_default_method;
    decide_method;
    auto with raises.
Qed.

Lemma register_known_method_raises app_name controller_name service_instance
    method :
  method ∈ KnowMethods.get_as_list →
  raises_only conventional_error
    (register_known_method cfg app_name controller_name service_instance method).
Proof.
  intros Hknown. unfold register_known_method.
  destruct (negb _); [auto with raises|].
  apply raises_only_bind; [auto with raises|].
  intros controller. case_bool_decide; [auto with raises|].
  apply raises_only_bind; [by apply register_default_message_raises|].
  intros names. by apply register_default_method_raises.
Qed.

Lemma register_service_raises app_name service_class :
  raises_only conventional_error (register_service cfg app_name service_class).
Proof.
  unfold register_service, set_controller_and_messages.
  apply raises_only_bind; [auto with raises|].
  intros registered. apply raises_only_bind; [auto with raises|].
  intros _. apply raises_only_bind; [auto with raises|].
  intros a. apply raises_only_bind; [auto with raises|].
  intros _. apply raises_only_for_each.
  intros method Hknown. by apply register_known_method_raises.
Qed.

End conventional_errors.

(** X15: a [RegisterServiceException] that registering a service raises is
    the one of an accessor without return annotation or the one of a
    lookup field that the serializer has not.  It is never the exception
    of a method outside the supported ones: the methods of a service that
    are not known methods are passed over. *)
Theorem register_service_registration_errors
    cfg app_name service_class reg reg' msg :
  register_service cfg app_name service_class reg
  = (reg', Raise (RegisterServiceException msg)) →
  ((∃ serializer_class field_name,
       msg = missing_return_annotation serializer_class field_name)
   ∨ (∃ field_name serializer_class,
         msg = lookup_field_missing field_name serializer_class))
  ∧ ∀ method, msg ≠ unsupported_method method.
Proof.
  intros H. apply register_service_raises in H. split; [exact H|].
  intros method ->.
  by destruct H as [(? & ? & [=])|(? & ? & [=])].
Qed.

Lemma register_service_registration_errors_witness :
  let service_class :=
    {| service_module := "shop.services";
       get_service_name := "Widget";
       service_methods := ["Retrieve"; "Search"];
       get_serializer_class := fun _ => Example.widget;
       get_lookup_request_field := "uuid";
       pagination_class := None |} in
  let outcome := register_service Example.cfg "shop" service_class ∅ in
  outcome.2
  = Raise (RegisterServiceException
             (lookup_field_missing "uuid" "WidgetSerializer"))
  ∧ ∀ method, lookup_field_missing "uuid" "WidgetSerializer"
              ≠ unsupported_method method.
Proof.
  intros service_class outcome.
  assert (register_service Example.cfg "shop" service_class ∅
          = (outcome.1,
             Raise (RegisterServiceException
                      (lookup_field_missing "uuid" "WidgetSerializer"))))
    as Hrun by (vm_compute; reflexivity).
  split; [vm_compute; reflexivity|].
  exact (proj2 (register_service_registration_errors
                  Example.cfg "shop" service_class ∅ outcome.1
                  (lookup_field_missing "uuid" "WidgetSerializer") Hrun)).
Defined.

(** ** The messages that the conventional entries name *)

#[global] Instance messages_stay_preorder : PreOrder messages_stay.
Proof.
  split; [by intros reg app name|].
  intros reg1 reg2 reg3 H1 H2 app name Hsome. by apply H2, H1.
Qed.

#[global] Instance entries_named_preorder app_name controller_name :
  PreOrder (entries_named app_name controller_name).
Proof.
  split.
  - intros reg. split; [reflexivity|].
    intros method. by destruct (method_of _ _ _ _).
  - intros reg1 reg2 reg3 [Hstay1 H1] [Hstay2 H2].
    split; [by etransitivity|].
    intros method. specialize (H1 method). specialize (H2 method).
    destruct (method_of reg1 _ _ _) as [entry|].
    + by rewrite H1 in H2.
    + destruct (method_of reg2 _ _ _) as [entry|] eqn:Hmethod; [|done].
      intros entry' Hentry'. rewrite H2 in Hentry'. injection Hentry' as <-.
      destruct (H1 _ eq_refl) as [Hrequest Hresponse].
      split; [by apply Hstay2|].
      destruct Hresponse as [Hresponse|Hempty]; [left|by right].
      by apply Hstay2.
Qed.

Section named_facts.

Context (cfg : settings).

Lemma messages_stay_same reg reg' : same_messages reg reg' → messages_stay reg reg'.
Proof. intros Hsame app name. by rewrite Hsame. Qed.

Lemma messages_stay_kept app_name reg reg' :
  kept app_name None reg reg' → messages_stay reg reg'.
Proof.
  intros (Hother & _ & Hkept) app name [fields Hfields].
  destruct (decide (app = app_name)) as [->|Hne].
  - exists fields. by apply Hkept.
  - exists fields. unfold message_of in *. by rewrite Hother.
Qed.

Lemma messages_stay_set_message app_name name fields :
  preserves messages_stay (set_message app_name name fields).
Proof.
  intros reg reg' r [(a & Ha & _ & ->)|(_ & -> & _)]%set_message_inv;
    [|reflexivity].
  intros app other. unfold message_of.
  destruct (decide (app = app_name)) as [->|Hne].
  - rewrite lookup_insert_eq, Ha. cbn.
    destruct (decide (other = name)) as [->|Hother].
    + by rewrite lookup_insert_eq.
    + by rewrite lookup_insert_ne.
  - by rewrite lookup_insert_ne.
Qed.

Lemma messages_stay_register_serializer app_name serializer_instance
    message_name is_request :
  preserves messages_stay
    (register_serializer_as_message_if_not_exist
       cfg app_name serializer_instance message_name is_request).
Proof.
  intros reg reg' r H. eapply messages_stay_kept.
  by eapply register_serializer_kept.
Qed.

Hint Resolve messages_stay_set_message messages_stay_register_serializer
  : preserves.

Lemma messages_stay_list_message app_name service_instance base_name
    list_response_field_name child_response_message_name message_name
    is_request :
  preserves messages_stay
    (register_list_message_of_serializer cfg app_name service_instance base_name
       list_response_field_name child_response_message_name message_name
       is_request).
Proof. unfold register_list_message_of_serializer. auto with preserves. Qed.

Hint Resolve messages_stay_list_message : preserves.

Lemma messages_stay_default_messages app_name method service_instance :
  preserves messages_stay
    (register_default_message_from_method cfg app_name method service_instance).
Proof.
  unfold register_default_message_from_method,
    register_list_serializer_as_message, register_retrieve_serializer_as_message,
    register_destroy_serializer_as_message, register_stream_serializer_as_message.
  auto 10 with preserves.
Qed.

(** The entries are as they were and the messages stay. *)
Lemma entries_named_methods app_name controller_name reg reg' :
  (∀ method, method_of reg' app_name controller_name method
             = method_of reg app_name controller_name method) →
  messages_stay reg reg' →
  entries_named app_name controller_name reg reg'.
Proof.
  intros Hmethods Hstay. split; [done|].
  intros method.
  destruct (method_of reg _ _ _) eqn:Hmethod; [by rewrite Hmethods|].
  intros entry. by rewrite Hmethods, Hmethod.
Qed.

(** The names that the messages of a known method are given are
    registered, where the response of [Destroy] is
    [google.protobuf.Empty]. *)
Lemma default_messages_named app_name method service_instance reg reg' names :
  register_default_message_from_method cfg app_name method service_instance reg
  = (reg', Ok names) →
  is_Some (message_of reg' app_name names.1)
  ∧ (is_Some (message_of reg' app_name names.2)
     ∨ names.2 = "google.protobuf.Empty").
Proof.
  unfold register_default_message_from_method. intros H.
  set (serializer_instance :=
         get_serializer_instance_with_method service_instance method) in *.
  case_bool_decide.
  { bind_inv H as reg1 request_name Hrequest.
    bind_inv H as reg2 response_name Hresponse. pure_inv H.
    apply register_serializer_registered in Hrequest as [_ Hrequest].
    pose proof (messages_stay_register_serializer _ _ _ _ _ _ _ Hresponse)
      as Hstay.
    apply register_serializer_registered in Hresponse as [_ Hresponse].
    split; [by apply Hstay|by left]. }
  case_bool_decide.
  { destruct names as [request_name response_name].
    apply register_list_serializer_inv in H as (_ & _ & Hrequest & Hresponse).
    cbn. rewrite Hrequest, Hresponse. by eauto. }
  case_bool_decide.
  { unfold register_retrieve_serializer_as_message in H.
    bind_inv H as reg1 lookup_field Hlookup. pure_inv Hlookup.
    bind_inv H as reg2 u Hset. destruct u. apply set_message_stored in Hset.
    bind_inv H as reg3 response_name Hresponse. pure_inv H.
    pose proof (messages_stay_register_serializer _ _ _ _ _ _ _ Hresponse)
      as Hstay.
    apply register_serializer_registered in Hresponse as [_ Hresponse].
    cbn [fst snd]. split; [apply Hstay; by rewrite Hset|by left]. }
  case_bool_decide.
  { unfold register_destroy_serializer_as_message in H.
    bind_inv H as reg1 lookup_field Hlookup. pure_inv Hlookup.
    bind_inv H as reg2 u Hset. destruct u. apply set_message_stored in Hset.
    pure_inv H. cbn. rewrite Hset. by eauto. }
  case_bool_decide; [|by pure_inv H].
  unfold register_stream_serializer_as_message in H.
  bind_inv H as reg2 u Hset. destruct u. apply set_message_stored in Hset.
  bind_inv H as reg3 response_name Hresponse. pure_inv H.
  pose proof (messages_stay_register_serializer _ _ _ _ _ _ _ Hresponse)
    as Hstay.
  apply register_serializer_registered in Hresponse as [_ Hresponse].
  cbn [fst snd]. split; [apply Hstay; by rewrite Hset|by left].
Qed.

Lemma register_known_method_named app_name controller_name service_instance
    method :
  preserves (entries_named app_name controller_name)
    (register_known_method cfg app_name controller_name service_instance method).
Proof.
  intros reg reg' r H. unfold register_known_method in H.
  destruct (negb _); [injection H as <- _; reflexivity|].
  apply bind_inv in H as [(reg1 & controller & Hget & H)|(e & Hget & _)];
    apply get_controller_inv in Hget as [-> Hget]; [|reflexivity].
  destruct Hget as [(found & Hfound & [= <-])|[_ [e [=]]]].
  case_bool_decide as Hpresent; [injection H as <- _; reflexivity|].
  apply eq_None_not_Some in Hpresent.
  assert (∀ reg2 result,
             register_default_message_from_method
               cfg app_name method service_instance reg = (reg2, result) →
             (∀ other, method_of reg2 app_name controller_name other
                       = method_of reg app_name controller_name other)
             ∧ messages_stay reg reg2) as Hmessages_phase.
  { intros reg2 result Hrun. split.
    - intros other. apply method_of_controllers.
      by eapply keeps_controllers_default_messages.
    - by eapply messages_stay_default_messages. }
  apply bind_inv in H as [(reg2 & names & Hmessages & H)|(e & Hmessages & _)].
  2:{ apply Hmessages_phase in Hmessages as [? ?].
      by apply entries_named_methods. }
  destruct (Hmessages_phase _ _ Hmessages) as [Hmethods Hstay].
  apply default_messages_named in Hmessages as [Hrequest Hresponse].
  pose proof (same_messages_default_method _ _ _ _ _ _ _ _ H) as Hsame.
  apply register_default_method_inv in H
      as [(entry & _ & _ & Hrequest_name & Hresponse_name & Hstored)| ->];
    [|by apply entries_named_methods].
  split.
  { etransitivity; [done|]. by apply messages_stay_same. }
  intros other. rewrite Hstored.
  destruct (decide (other = method)) as [->|Hne].
  - rewrite method_of_controller, Hfound. cbn. rewrite Hpresent.
    intros entry' [= <-]. unfold names_registered.
    rewrite Hrequest_name, Hresponse_name, !Hsame.
    split; [done|]. destruct Hresponse; by eauto.
  - rewrite Hmethods. destruct (method_of reg _ _ _) eqn:Hother; [done|].
    by intros entry'.
Qed.

Lemma preserves_for_each_in {A} (R : relation registry) `{!PreOrder R}
    (body : A → M unit) items :
  (∀ item, item ∈ items → preserves R (body item)) →
  preserves R (for_each body items).
Proof.
  induction items as [|item rest IH]; intros Hbody;
    [by apply preserves_ret|].
  cbn [for_each]. apply preserves_bind; [done| |].
  - apply Hbody, list_elem_of_here.
  - intros _. apply IH. intros other Hother.
    by apply Hbody, list_elem_of_further.
Qed.

(** Registering a service, step by step, for a relation that the steps
    keep: the app that is registered when it is not there, the controller
    that is made when it is not there, and the turn of each known
    method. *)
Lemma register_service_steps (R : relation registry) `{!PreOrder R}
    app_name service_class :
  let controller_name := get_service_name service_class +:+ "Controller" in
  (∀ reg : registry,
      reg !! app_name = None →
      R reg (<[app_name := {| registered_controllers := ∅;
                              registered_messages := ∅ |}]> reg)) →
  (∀ reg reg',
      is_Some (reg !! app_name) →
      controller_of reg app_name controller_name = None →
      set_controller app_name controller_name ∅ reg = (reg', Ok tt) →
      R reg reg') →
  (∀ method,
      method ∈ KnowMethods.get_as_list →
      preserves R (register_known_method cfg app_name controller_name
                                         service_class method)) →
  preserves R (register_service cfg app_name service_class).
Proof.
  intros controller_name Hinit Hmake Hturn reg reg' r H.
  unfold register_service in H.
  apply bind_inv in H as [(reg0 & registered & Hregistered & H)|(e & [=] & _)].
  injection Hregistered as <- <-.
  apply bind_inv in H as [(reg1 & u & Hstart & H)|(e & Hstart & _)].
  2:{ by case_bool_decide. }
  assert (R reg reg1 ∧ is_Some (reg1 !! app_name)) as [Hreg1 [a0 Ha0]].
  { case_bool_decide as Hhas.
    - injection Hstart as <- _. split; [reflexivity|done].
    - injection Hstart as <- _. apply eq_None_not_Some in Hhas.
      split; [by apply Hinit|]. by rewrite lookup_insert_eq. }
  etransitivity; [exact Hreg1|]. clear Hstart Hreg1.
  unfold set_controller_and_messages in H. fold controller_name in H.
  apply bind_inv in H as [(reg2 & a' & Hget & H)|(e & Hget & _)];
    apply get_app_inv in Hget as [-> [(? & ? & ?)|[? ?]]]; simplify_eq.
  match goal with
  | Hsome : reg1 !! app_name = Some ?entry |- _ =>
      rename entry into a; rename Hsome into Ha
  end.
  assert (controller_of reg1 app_name controller_name
          = registered_controllers a !! controller_name) as Hhere.
  { unfold controller_of. by rewrite Ha. }
  apply bind_inv in H as [(reg2 & v & Hensure & H)|(e & Hensure & _)].
  - etransitivity.
    + case_bool_decide as Hhas.
      * injection Hensure as <- _. reflexivity.
      * apply eq_None_not_Some in Hhas. rewrite <- Hhere in Hhas.
        destruct v. by eapply Hmake.
    + revert H. by apply preserves_for_each_in.
  - case_bool_decide as Hhas; [done|].
    by apply set_controller_inv in Hensure
        as [(? & ? & [=] & _)|(_ & -> & _)].
Qed.

Lemma register_service_named app_name service_class :
  preserves
    (entries_named app_name (get_service_name service_class +:+ "Controller"))
    (register_service cfg app_name service_class).
Proof.
  apply register_service_steps; [tc_solve|..].
  - intros reg Happ. apply entries_named_methods.
    + intros method. unfold method_of. by rewrite lookup_insert_eq, Happ.
    + intros app name [fields Hfields]. unfold message_of in *.
      destruct (decide (app = app_name)) as [->|Hne];
        [by rewrite Happ in Hfields|].
      exists fields. by rewrite lookup_insert_ne.
  - intros reg reg' Happ Hcontroller Hset. apply entries_named_methods.
    + intros method. rewrite !method_of_controller, Hcontroller.
      apply set_controller_spec in Hset
          as [(_ & -> & _)|(_ & ? & [=])]. done.
    + apply messages_stay_same. by eapply same_messages_set_controller.
  - intros method _. apply register_known_method_named.
Qed.

End named_facts.

(** X16: a method entry that registering a service adds names messages
    that are registered in the app when the registration ends, whether it
    returns or raises: its request message is registered, and its response
    message is registered or is [google.protobuf.Empty]. *)
Theorem conventional_entries_name_registered_messages
    cfg app_name service_class reg reg' r method entry :
  register_service cfg app_name service_class reg = (reg', r) →
  let controller_name := get_service_name service_class +:+ "Controller" in
  method_of reg' app_name controller_name method = Some entry →
  method_of reg app_name controller_name method = Some entry
  ∨ (is_Some (message_of reg' app_name (message (request entry)))
     ∧ (is_Some (message_of reg' app_name (message (response entry)))
        ∨ message (response entry) = "google.protobuf.Empty")).
Proof.
  intros H controller_name Hentry.
  apply register_service_named in H as [_ H]. specialize (H method).
  fold controller_name in H.
  destruct (method_of reg _ _ _); [left; congruence|right].
  by apply H.
Qed.

Lemma conventional_entries_name_registered_messages_witness :
  let reg' :=
    (register_service Example.cfg "shop" (Example.widget_service None) ∅).1 in
  let entry :=
    {| request := {| is_stream := false; message := "WidgetDestroyRequest" |};
       response := {| is_stream := false;
                      message := "google.protobuf.Empty" |} |} in
  method_of (∅ : registry) "shop" "WidgetController" "Destroy" = Some entry
  ∨ (is_Some (message_of reg' "shop" "WidgetDestroyRequest")
     ∧ (is_Some (message_of reg' "shop" "google.protobuf.Empty")
        ∨ "google.protobuf.Empty" = "google.protobuf.Empty")).
Proof.
  intros reg' entry.
  apply (conventional_entries_name_registered_messages
           Example.cfg "shop" (Example.widget_service None) ∅ reg'
           (register_service Example.cfg "shop" (Example.widget_service None)
                             ∅).2 "Destroy" entry);
    vm_compute; reflexivity.
Defined.

(** ** Attributes that the framework does not always give *)

Lemma bind_fields_str fields name s :
  (name, PyStrField s) ∈ fields →
  bind_fields fields = Raise (AttributeError "bind").
Proof.
  induction fields as [|[first [s'|cls a child child_relation declared]] rest IH];
    intros Hin; [by apply elem_of_nil in Hin|done|].
  apply elem_of_cons in Hin as [[=]|Hin].
  cbn [bind_fields]. by rewrite (IH Hin).
Qed.

Lemma bind_fields_ok fields bound : bind_fields fields = Ok bound → bound = fields.
Proof.
  revert bound.
  induction fields as [|[first [s'|cls a child child_relation declared]] rest IH];
    intros bound H; cbn [bind_fields] in H; [by injection H|done|].
  destruct (bind_fields rest) as [bound_rest|]; [|done].
  injection H as <-. by rewrite (IH _ eq_refl).
Qed.

(** X17: the retrieve and the destroy methods read the [fields] of the
    serializer, where the other methods read [get_fields()]: for a
    serializer that declares a [str] in place of a field they raise the
    [AttributeError] of binding it and register nothing, whatever the lookup
    field; when they do read the [fields], these are the declared
    fields. *)
Theorem lookup_needs_bound_fields
    cfg app_name method service_instance (reg : registry) :
  let serializer_instance := get_serializer_class service_instance method in
  method = KnowMethods.RETRIEVE ∨ method = KnowMethods.DESTROY →
  (∀ name s,
      (name, PyStrField s) ∈ declared_fields serializer_instance →
      register_default_message_from_method
        cfg app_name method service_instance reg
      = (reg, Raise (AttributeError "bind")))
  ∧ (∀ fields,
        serializer_fields serializer_instance = Ok fields →
        fields = declared_fields serializer_instance).
Proof.
  intros serializer_instance Hmethod. split.
  - intros name s Hin.
    assert (get_lookup_field_from_serializer
              cfg serializer_instance service_instance None
            = Raise (AttributeError "bind")) as Hlookup.
    { unfold get_lookup_field_from_serializer, serializer_fields.
      destruct serializer_instance as [|cls a child child_relation declared];
        [by apply elem_of_nil in Hin|].
      cbn [declared_fields] in Hin. by rewrite (bind_fields_str _ _ _ Hin). }
    destruct Hmethod as [-> | ->].
    + change (register_retrieve_serializer_as_message
                cfg app_name service_instance serializer_instance None reg
              = (reg, Raise (AttributeError "bind"))).
      unfold register_retrieve_serializer_as_message, bind, lift.
      by rewrite Hlookup.
    + change (register_destroy_serializer_as_message
                cfg app_name service_instance serializer_instance None reg
              = (reg, Raise (AttributeError "bind"))).
      unfold register_destroy_serializer_as_message, bind, lift.
      by rewrite Hlookup.
  - intros fields Hfields. unfold serializer_fields in Hfields.
    destruct serializer_instance as [|cls a child child_relation declared];
      [done|]. by apply bind_fields_ok in Hfields.
Qed.

Lemma lookup_needs_bound_fields_witness :
  let serializer_instance :=
    PyField Example.widget_class (Example.serializer_attrs ∅) None None
            [ ("name", Example.leaf "CharField" []);
              ("price", PyStrField "double") ] in
  let service_instance :=
    {| service_module := "shop.services";
       get_service_name := "Widget";
       service_methods := KnowMethods.get_as_list;
       get_serializer_class := fun _ => serializer_instance;
       get_lookup_request_field := "name";
       pagination_class := None |} in
  let single :=
    {| SEPARATE_READ_WRITE_MODEL := false;
       DEFAULT_PAGINATION_CLASS := None;
       django_has_PositiveBigIntegerField := true |} in
  register_default_message_from_method
    single "shop" "Retrieve" service_instance Example.shop
  = (Example.shop, Raise (AttributeError "bind"))
  ∧ message_of
      (register_default_message_from_method
         single "shop" "Create" service_instance Example.shop).1
      "shop" "Widget"
    = Some [("name", "string"); ("price", "double")].
Proof.
  intros serializer_instance service_instance single.
  split; [|vm_compute; reflexivity].
  destruct (lookup_needs_bound_fields
              single "shop" "Retrieve" service_instance Example.shop
              ltac:(by left)) as [Hraises _].
  apply (Hraises "price" "double").
  apply list_elem_of_further, list_elem_of_here.
Defined.

(** X18: a field resolved as a plain relation needs a [pk_field]
    attribute: without it the resolution raises the [AttributeError] of
    reading it, whatever the queryset of the relation; with a [pk_field]
    that is [None] and no queryset, it raises the [AttributeError] of reading
    the model of the queryset.  Neither touches the registry. *)
Theorem related_field_needs_pk_field
    cfg app_name cls a child child_relation declared field_name
    serializer_instance is_request (reg : registry) :
  resolved_as cls = Some RelatedField →
  (pk_field a = None →
   get_proto_type cfg app_name (PyField cls a child child_relation declared)
                  field_name serializer_instance is_request reg
   = (reg, Raise (AttributeError "pk_field")))
  ∧ (pk_field a = Some None →
     queryset_model a = None →
     get_proto_type cfg app_name (PyField cls a child child_relation declared)
                    field_name serializer_instance is_request reg
     = (reg, Raise (AttributeError "model"))).
Proof.
  intros Hkind. resolve_kind Hkind. unfold lift, get_pk_from_related_field.
  split.
  - by intros ->.
  - by intros -> ->.
Qed.

Lemma related_field_needs_pk_field_witness :
  get_proto_type Example.cfg "shop"
    (PyField {| cls_name := "HyperlinkedRelatedField";
                cls_bases := [RelatedField] |}
       {| read_only := false; write_only := false; pk_field := None;
          queryset_model := Some Example.tagged; model_field := None;
          slug_field := None; method_name := None; Meta := None;
          methods := ∅ |}
       None None [])
    "owner" Example.widget true Example.shop
  = (Example.shop, Raise (AttributeError "pk_field")).
Proof.
  destruct (related_field_needs_pk_field
              Example.cfg "shop"
              {| cls_name := "HyperlinkedRelatedField";
                 cls_bases := [RelatedField] |}
              {| read_only := false; write_only := false; pk_field := None;
                 queryset_model := Some Example.tagged; model_field := None;
                 slug_field := None; method_name := None; Meta := None;
                 methods := ∅ |}
              None None [] "owner" Example.widget true Example.shop eq_refl)
    as [Hmissing _].
  exact (Hmissing eq_refl).
Defined.

